(** * ediff: running two shell commands and diffing their output

    A shallow embedding of [ediff.c].  The program is a short sequence of
    library and system calls, so the embedding is a state-and-exit monad
    over the part of the process the calls can observe:

    - the descriptor table of the calling process (a finite map from
      descriptor numbers to open files, each with its close-on-exec flag),
      together with the pipe objects the descriptors refer to;
    - the heap cells that hold the strings made by [strdup];
    - the history of system calls issued so far.

    Everything the process cannot decide by itself (whether an allocation,
    a [pipe], a [fork] or an [exec] is granted, what [fork] returns, what
    uninitialised memory contains, the environment block) is read from an
    environment record [env], over which all theorems quantify.

    Integers follow the LP64 data model of the glibc targets the program
    is written for ([secure_getenv], [err.h]): [size_t] is 64 bits wide and
    wraps around, a pointer is 8 bytes. *)

From stdpp Require Import base numbers option list strings gmap fin_maps fin_sets.
From Stdlib Require Import ZArith Lia.

Set Default Proof Using "Type".

(** ** Constants of the source *)

(** [#define DIFF_MAXFD (4)] *)
Definition DIFF_MAXFD : nat := 4.
(** [#define DEFAULT_SHELL "/bin/sh"] *)
Definition DEFAULT_SHELL : string := "/bin/sh".
(** [#define DIFF_CMD "diff"] *)
Definition DIFF_CMD : string := "diff".

(** ** Machine integers *)

Definition SIZE_MAX : Z := 2 ^ 64 - 1.
Definition PTRDIFF_MAX : Z := 2 ^ 63 - 1.
(** [sizeof(char * )] *)
Definition PTR_SIZE : Z := 8.

(** Arithmetic on [size_t] is taken modulo [SIZE_MAX + 1]. *)
Definition size_wrap (z : Z) : Z := (z mod (SIZE_MAX + 1))%Z.

(** ** Memory *)

(** A heap location; a C pointer is a location or [NULL]. *)
Abbreviation loc := nat (only parsing).
Abbreviation ptr := (option nat) (only parsing).
Abbreviation NULL := (@None nat) (only parsing).

(** ** Descriptors *)

(** What a descriptor refers to: something the process was started with, or
    one end of a pipe object. *)
Inductive ofile : Type :=
  | Inherited (n : nat)
  | PipeRd (p : nat)
  | PipeWr (p : nat).

Global Instance ofile_eq_dec : EqDecision ofile.
Proof. solve_decision. Defined.

(** One slot of the descriptor table. *)
Record fdesc : Type := FDesc { fd_file : ofile; fd_cloexec : bool }.

Global Instance fdesc_eq_dec : EqDecision fdesc.
Proof. solve_decision. Defined.

(** A pipe object of the kernel: the bytes written and not yet read, and the
    number of write ends held by other processes. *)
Record pipe_obj : Type := PipeObj { pipe_buf : list Z; pipe_far_writers : nat }.

(** ** History *)

(** System calls and diagnostics, in the order the process issues them.
    A failed call is recorded too, with its failure. *)
Inductive event : Type :=
  | EvPipe (r : option (nat * nat * nat))      (* pipe object, read fd, write fd *)
  | EvDupfd (fd ge : nat) (r : option nat)     (* fcntl(fd, F_DUPFD_CLOEXEC, ge) *)
  | EvDup2 (oldfd newfd : nat) (ok : bool)
  | EvGetfd (fd : nat) (ok : bool)             (* fcntl(fd, F_GETFD) *)
  | EvSetfd (fd : nat) (cloexec : bool) (ok : bool)
  | EvClose (fd : nat)
  | EvFork (r : Z)
  | EvExec (file : string) (args : option (list string)) (ok : bool)
  | EvWaitpid (pid : Z) (status : Z)
  | EvStderr (text : string)                   (* fprintf(stderr, ...) *)
  | EvErr (msg : string).                      (* the diagnostic of err(1, msg) *)

(** ** The process *)

Record world : Type := World {
  w_fds : gmap nat fdesc;        (* descriptor table *)
  w_pipes : gmap nat pipe_obj;   (* pipe objects the kernel knows *)
  w_nofile : nat;                (* RLIMIT_NOFILE: descriptors are < w_nofile *)
  w_heap : gmap loc string;      (* strings living in allocated memory *)
  w_tick : nat;                  (* requests made to the environment so far *)
  w_trace : list event           (* history, oldest first *)
}.

Definition set_fds (f : gmap nat fdesc) (w : world) : world :=
  World f (w_pipes w) (w_nofile w) (w_heap w) (w_tick w) (w_trace w).
Definition set_pipes (p : gmap nat pipe_obj) (w : world) : world :=
  World (w_fds w) p (w_nofile w) (w_heap w) (w_tick w) (w_trace w).
Definition set_heap (h : gmap loc string) (w : world) : world :=
  World (w_fds w) (w_pipes w) (w_nofile w) h (w_tick w) (w_trace w).
Definition bump (w : world) : world :=
  World (w_fds w) (w_pipes w) (w_nofile w) (w_heap w) (S (w_tick w)) (w_trace w).
Definition log (e : event) (w : world) : world :=
  World (w_fds w) (w_pipes w) (w_nofile w) (w_heap w) (w_tick w) (w_trace w ++ [e]).

(** What the process cannot decide by itself. *)
Record env : Type := Env {
  e_grant : nat -> bool;            (* is the n-th request for a resource granted *)
  e_junk : nat -> nat -> ptr;       (* content of uninitialised memory *)
  e_fork : nat -> nat;              (* what a granted fork returns: 0 in the child,
                                       the child's pid in the parent *)
  e_environ : string -> option string;   (* the environment block *)
  e_secure : bool;                  (* secure execution is required (AT_SECURE) *)
  e_wait : Z -> Z                   (* the status waitpid stores for a child *)
}.

(** ** The monad of the embedding *)

(** How a process stops running the program. *)
Inductive halt : Type :=
  | Exit (code : Z) (w : world)                  (* exit(), err() *)
  | Exec (file : string) (search : bool) (args : list string) (w : world)
                                                 (* the image was replaced *)
  | Abort (w : world)                            (* a failed assert() *)
  | Fault (w : world).                           (* a store outside an array *)

(** How a piece of code ends: it returns, or the process stops in it. *)
Inductive result (A : Type) : Type :=
  | Ret (a : A) (w : world)
  | Halt (h : halt).
Global Arguments Ret {A} a w.
Global Arguments Halt {A} h.

Definition M (A : Type) : Type := world -> result A.

Global Instance M_ret : MRet M := fun A a w => Ret a w.
Global Instance M_bind : MBind M := fun A B f m w =>
  match m w with
  | Ret a w' => f a w'
  | Halt h => Halt h
  end.

Definition get : M world := fun w => Ret w w.
Definition modify (f : world -> world) : M unit := fun w => Ret tt (f w).
Definition emit (e : event) : M unit := modify (log e).

(** [exit(code)] *)
Definition exit {A} (code : Z) : M A := fun w => Halt (Exit code w).
(** [err(eval, msg)]: a diagnostic on standard error, then [exit(eval)]. *)
Definition err {A} (eval : Z) (msg : string) : M A :=
  emit (EvErr msg) ;; exit eval.
(** [assert(b)] *)
Definition assert (b : bool) : M unit :=
  fun w => if b then Ret tt w else Halt (Abort w).
(** A store outside the allocated object. *)
Definition fault {A} : M A := fun w => Halt (Fault w).

Section Program.

(** The environment the process runs in. *)
Context (E : env).

(** ** Allocation *)

(** One request to the environment; the answer is [true] when the resource
    is granted. *)
Definition request : M bool :=
  fun w => Ret (e_grant E (w_tick w)) (bump w).

(** [calloc(nmemb, size)] for an array of pointers: [None] is the null
    result.  A granted request yields [nmemb] zeroed slots; no object is
    larger than [PTRDIFF_MAX] bytes. *)
Definition calloc (nmemb size : Z) : M (option (list ptr)) :=
  g ← request;
  if g && (nmemb * size <=? PTRDIFF_MAX)%Z
  then mret (Some (replicate (Z.to_nat nmemb) NULL))
  else mret None.

(** [realloc(old, bytes)] for an array of pointers.  The old content is
    kept up to the new size; the new area is not initialised.  A request
    for zero bytes frees the array and returns null. *)
Definition realloc (old : list ptr) (bytes : Z) : M (option (list ptr)) :=
  w ← get;
  g ← request;
  if g && (0 <? bytes)%Z && (bytes <=? PTRDIFF_MAX)%Z
  then
    let n := Z.to_nat (bytes / PTR_SIZE) in
    mret (Some (take n old ++
                (e_junk E (w_tick w) <$> seq (length old) (n - length old))))
  else mret None.

(** [strdup(s)]: a copy of [s] in a cell no live object occupies. *)
Definition strdup (s : string) : M ptr :=
  g ← request;
  if g && (Z.of_nat (String.length s) + 1 <=? PTRDIFF_MAX)%Z
  then
    w ← get;
    let l := fresh (dom (w_heap w)) in
    modify (set_heap (<[l := s]> (w_heap w))) ;;
    mret (Some l)
  else mret NULL.

(** [arr[i] = v] *)
Definition store (arr : list ptr) (i : Z) (v : ptr) : M (list ptr) :=
  if (0 <=? i)%Z && (i <? Z.of_nat (length arr))%Z
  then mret (<[Z.to_nat i := v]> arr)
  else fault.

(** ** struct args *)

Record args : Type := Args {
  capacity : Z;
  argc : Z;
  argv : list ptr      (* the array [argv] points to *)
}.

(** [void args_init(struct args *a, size_t starting_capacity)] *)
Definition args_init (starting_capacity : Z) : M args :=
  assert (0 <? starting_capacity)%Z ;;
  r ← calloc starting_capacity PTR_SIZE;
  match r with
  | None => err 1 "calloc"
  | Some arr =>
      (* calloc(), so a->argv[0] starts NULL. *)
      mret (Args starting_capacity 0 arr)
  end.

(** [void args_add(struct args *a, char *s)] *)
Definition args_add (a : args) (s : string) : M args :=
  assert (argc a <? capacity a)%Z ;;
  a ← (if (size_wrap (argc a + 1) =? capacity a)%Z
       then
         let cap := size_wrap (capacity a * 2) in
         r ← realloc (argv a) (size_wrap (cap * PTR_SIZE));
         match r with
         | None => err 1 "realloc"
         | Some arr => mret (Args cap (argc a) arr)
         end
       else mret a);
  sdup ← strdup s;
  match sdup with
  | None => err 1 "malloc"
  | Some _ =>
      let n := size_wrap (argc a + 1) in
      arr ← store (argv a) (size_wrap (n - 1)) sdup;
      arr ← store arr n NULL;
      mret (Args (capacity a) n arr)
  end.

(** A sequence of pushes. *)
Fixpoint args_add_all (a : args) (ss : list string) : M args :=
  match ss with
  | [] => mret a
  | s :: ss' => a' ← args_add a s; args_add_all a' ss'
  end.

(** What [execv*()] reads from an argument array: the strings up to the
    first null slot; nothing when a slot dangles or no null slot ends the
    array. *)
Fixpoint c_argv (h : gmap loc string) (arr : list ptr) : option (list string) :=
  match arr with
  | [] => None
  | None :: _ => Some []
  | Some l :: arr' =>
      match h !! l, c_argv h arr' with
      | Some s, Some ss => Some (s :: ss)
      | _, _ => None
      end
  end.

(** ** Descriptor calls *)

(** The lowest unused descriptor number among [n, n + k). *)
Fixpoint first_free (t : gmap nat fdesc) (n k : nat) : option nat :=
  match k with
  | 0 => None
  | S k' =>
      match t !! n with
      | None => Some n
      | Some _ => first_free t (S n) k'
      end
  end.

Definition ofile_pipe (f : ofile) : option nat :=
  match f with
  | PipeRd p | PipeWr p => Some p
  | Inherited _ => None
  end.

(** The pipe objects some descriptor of the table refers to. *)
Definition pipes_in_use (t : gmap nat fdesc) : gset nat :=
  list_to_set (omap (fun kv => ofile_pipe (fd_file kv.2)) (map_to_list t)).

(** The name of the next pipe object: one that no pipe object has and no
    descriptor refers to. *)
Definition new_pipe (w : world) : nat :=
  fresh (dom (w_pipes w) ∪ pipes_in_use (w_fds w)).

(** [pipe(p)]: a new pipe object, its read end at the lowest unused
    descriptor and its write end at the next one, neither close-on-exec.
    [None] is the result -1. *)
Definition pipe : M (option (nat * nat)) :=
  w ← get;
  g ← request;
  let p := new_pipe w in
  match first_free (w_fds w) 0 (w_nofile w) with
  | Some r =>
      let t := <[r := FDesc (PipeRd p) false]> (w_fds w) in
      match first_free t 0 (w_nofile w) with
      | Some wr =>
          if (g : bool) then
            modify (set_fds (<[wr := FDesc (PipeWr p) false]> t)) ;;
            modify (set_pipes (<[p := PipeObj [] 0]> (w_pipes w))) ;;
            emit (EvPipe (Some (p, r, wr))) ;;
            mret (Some (r, wr))
          else emit (EvPipe None) ;; mret None
      | None => emit (EvPipe None) ;; mret None
      end
  | None => emit (EvPipe None) ;; mret None
  end.

(** [close(fd)] *)
Definition close (fd : nat) : M unit :=
  w ← get;
  modify (set_fds (delete fd (w_fds w))) ;;
  emit (EvClose fd).

(** [dup2(oldfd, newfd)]: [newfd], or -1.  The new descriptor is not
    close-on-exec; equal arguments leave the table as it is. *)
Definition dup2 (oldfd newfd : nat) : M Z :=
  w ← get;
  match w_fds w !! oldfd with
  | Some d =>
      if bool_decide (newfd < w_nofile w) then
        (if bool_decide (oldfd = newfd) then mret tt
         else modify (set_fds (<[newfd := FDesc (fd_file d) false]> (w_fds w)))) ;;
        emit (EvDup2 oldfd newfd true) ;;
        mret (Z.of_nat newfd)
      else emit (EvDup2 oldfd newfd false) ;; mret (-1)%Z
  | None => emit (EvDup2 oldfd newfd false) ;; mret (-1)%Z
  end.

(** The descriptor flag [FD_CLOEXEC]. *)
Definition FD_CLOEXEC : Z := 1.

(** [fcntl(fd, F_GETFD, 0)]: the descriptor flags, or -1. *)
Definition fcntl_getfd (fd : nat) : M Z :=
  w ← get;
  match w_fds w !! fd with
  | Some d =>
      emit (EvGetfd fd true) ;;
      mret (if fd_cloexec d then FD_CLOEXEC else 0%Z)
  | None => emit (EvGetfd fd false) ;; mret (-1)%Z
  end.

(** [fcntl(fd, F_SETFD, flags)]: 0, or -1. *)
Definition fcntl_setfd (fd : nat) (flags : Z) : M Z :=
  w ← get;
  let c := Z.testbit flags 0 in
  match w_fds w !! fd with
  | Some d =>
      modify (set_fds (<[fd := FDesc (fd_file d) c]> (w_fds w))) ;;
      emit (EvSetfd fd c true) ;;
      mret 0%Z
  | None => emit (EvSetfd fd c false) ;; mret (-1)%Z
  end.

(** [fcntl(fd, F_DUPFD_CLOEXEC, ge)]: a copy of [fd] at the lowest unused
    number at or above [ge], close-on-exec.  [None] is the result -1. *)
Definition fcntl_dupfd_cloexec (fd ge : nat) : M (option nat) :=
  w ← get;
  g ← request;
  match w_fds w !! fd, first_free (w_fds w) ge (w_nofile w - ge) with
  | Some d, Some n =>
      if (g : bool) then
        modify (set_fds (<[n := FDesc (fd_file d) true]> (w_fds w))) ;;
        emit (EvDupfd fd ge (Some n)) ;;
        mret (Some n)
      else emit (EvDupfd fd ge None) ;; mret None
  | _, _ => emit (EvDupfd fd ge None) ;; mret None
  end.

(** The write ends of pipe [p] in a descriptor table. *)
Definition local_writers (t : gmap nat fdesc) (p : nat) : nat :=
  size (filter (fun kv => fd_file kv.2 = PipeWr p) t).

(** After a fork the other process holds a copy of every descriptor. *)
Definition pipes_after_fork (t : gmap nat fdesc) (ps : gmap nat pipe_obj)
  : gmap nat pipe_obj :=
  map_imap (fun p o =>
    Some (PipeObj (pipe_buf o) (pipe_far_writers o + local_writers t p))) ps.

(** [fork()]: -1, or 0 in the child, or the child's pid in the parent. *)
Definition fork : M Z :=
  w ← get;
  g ← request;
  if (g : bool) then
    let r := Z.of_nat (e_fork E (w_tick w)) in
    modify (set_pipes (pipes_after_fork (w_fds w) (w_pipes w))) ;;
    emit (EvFork r) ;;
    mret r
  else emit (EvFork (-1)) ;; mret (-1)%Z.

(** [execv(file, argv)] ([search = false]) and [execvp(file, argv)]
    ([search = true]).  [args] is what the kernel reads from [argv]; the
    call returns only when it fails, with -1. *)
Definition exec (file : string) (search : bool) (args : option (list string)) : M Z :=
  g ← request;
  match args with
  | Some l =>
      if (g : bool) then
        emit (EvExec file args true) ;;
        ((fun w => Halt (Exec file search l w)) : M Z)
      else emit (EvExec file args false) ;; mret (-1)%Z
  | None => emit (EvExec file args false) ;; mret (-1)%Z
  end.

(** [waitpid(pid, &status, 0)]: the value left in [status]. *)
Definition waitpid (pid : Z) : M Z :=
  emit (EvWaitpid pid (e_wait E pid)) ;;
  mret (e_wait E pid).

(** [secure_getenv(name)]: as [getenv], but null when secure execution is
    required. *)
Definition secure_getenv (name : string) : option string :=
  if e_secure E then None else e_environ E name.

(** What [read(fd, ...)] would do. *)
Inductive read_result : Type :=
  | ReadEof                      (* returns 0 *)
  | ReadData (bytes : list Z)
  | ReadBlocks
  | ReadFails                    (* not open for reading *)
  | ReadUnknown.                 (* not a pipe of this model *)

Definition read (w : world) (fd : nat) : read_result :=
  match w_fds w !! fd with
  | Some (FDesc (PipeRd p) _) =>
      match w_pipes w !! p with
      | Some o =>
          match pipe_buf o with
          | [] =>
              if bool_decide (pipe_far_writers o = 0 ∧ local_writers (w_fds w) p = 0)
              then ReadEof else ReadBlocks
          | b => ReadData b
          end
      | None => ReadUnknown
      end
  | Some (FDesc (PipeWr _) _) => ReadFails
  | Some (FDesc (Inherited _) _) => ReadUnknown
  | None => ReadFails
  end.

(** The descriptors the next image starts with. *)
Definition fds_after_exec (t : gmap nat fdesc) : gmap nat fdesc :=
  filter (fun kv => fd_cloexec kv.2 = false) t.

(** ** The program *)

(** [void closed_reader(int fd)] *)
Definition closed_reader (fd : nat) : M unit :=
  pipes ← pipe;
  match pipes with
  | None => err 1 "pipe"
  | Some (pipes0, pipes1) =>
      close pipes1 ;;
      if bool_decide (fd ≠ pipes0) then
        r ← dup2 pipes0 fd;
        (if (r =? -1)%Z then err 1 "dup2" else mret tt) ;;
        close pipes0
      else mret tt
  end.

(** [void clear_cloexec(int fd)] *)
Definition clear_cloexec (fd : nat) : M unit :=
  flags ← fcntl_getfd fd;
  (if (flags =? -1)%Z then err 1 "fcntl F_GETFD" else mret tt) ;;
  let flags := Z.land flags (Z.lnot FD_CLOEXEC) in
  r ← fcntl_setfd fd flags;
  if (r =? -1)%Z then err 1 "fcntl F_SETFD" else mret tt.

(** [int xdup_ge(int fd, int ge)] *)
Definition xdup_ge (fd ge : nat) : M nat :=
  newfd ← fcntl_dupfd_cloexec fd ge;
  match newfd with
  | None => err 1 "fcntl F_DUPFD"
  | Some n => mret n
  end.

(** [void producer(const char *shell, const char *cmd, int pout)] *)
Definition producer (shell cmd : string) (pout : nat) : M unit :=
  r ← dup2 pout 1;
  (if (r =? -1)%Z then err 1 "dup2" else mret tt) ;;
  clear_cloexec 1 ;;
  closed_reader 0 ;;
  exec shell false (Some [shell; "-c"; cmd]) ;;
  err 1 "exec".

(** [argv[i]] of [main]; the vector ends with a null pointer, which
    [fprintf] prints as "(null)". *)
Definition arg (main_argv : list string) (i : Z) : string :=
  default "(null)" (main_argv !! Z.to_nat i).

Definition newline : string := String (Ascii.ascii_of_nat 10) EmptyString.

(** The text of the usage message. *)
Definition usage (argv0 : string) : string :=
  "Usage: " +:+ argv0 +:+
  " [diff args] 'shell command 1' 'shell command 2'" +:+ newline.

(** [for (i = lo; ...; i++) body], over the values [i] takes. *)
Fixpoint for_each {S : Type} (idx : list nat) (body : nat -> S -> M S) (s : S) : M S :=
  match idx with
  | [] => mret s
  | i :: idx' => s' ← body i s; for_each idx' body s'
  end.

(** What [main] has in hand when it starts forking. *)
Record plan : Type := Plan {
  pl_args : args;        (* a *)
  pl_cmda : string;
  pl_cmdb : string;
  pl_shell : string;
  pl_pa : nat * nat;     (* pa[0], pa[1] *)
  pl_pb : nat * nat      (* pb[0], pb[1] *)
}.

(** [main], lines 150-172: the argument vector, the two commands, the
    shell. *)
Definition main_args (main_argv : list string) : M (args * string * string * string) :=
  let main_argc := Z.of_nat (length main_argv) in
  a ← args_init 2;   (* Could be smarter about size. *)
  a ← args_add a DIFF_CMD;
  a ← (if (main_argc <? 3)%Z then
         emit (EvStderr (usage (arg main_argv 0))) ;;
         exit 2
       else if (main_argc =? 3)%Z then
         (* If no diff args are specified, default to -u. *)
         args_add a "-u"
       else
         (* Pass all other args on to diff as-is. *)
         for_each (seq 1 (Z.to_nat (main_argc - 2) - 1))
           (fun i a => args_add a (arg main_argv (Z.of_nat i))) a);
  let cmda := arg main_argv (main_argc - 2) in
  let cmdb := arg main_argv (main_argc - 1) in
  let shell := default DEFAULT_SHELL (secure_getenv "SHELL") in
  mret (a, cmda, cmdb, shell).

(** [main], lines 178-190: the two pipes, with all descriptor numbers above
    the highest one passed to diff. *)
Definition main_pipes : M (nat * nat * (nat * nat)) :=
  p ← pipe;
  match p with
  | None => err 1 "pipe2"
  | Some (p0, p1) =>
      pa0 ← xdup_ge p0 (DIFF_MAXFD + 1);
      pa1 ← xdup_ge p1 (DIFF_MAXFD + 1);
      close p0 ;;
      close p1 ;;
      p ← pipe;
      match p with
      | None => err 1 "pipe2"
      | Some (p0, p1) =>
          pb0 ← xdup_ge p0 (DIFF_MAXFD + 1);
          pb1 ← xdup_ge p1 (DIFF_MAXFD + 1);
          close p0 ;;
          close p1 ;;
          mret ((pa0, pa1), (pb0, pb1))
      end
  end.

(** [main], lines 212-231: what the third child does. *)
Definition diff_child (a : args) (cmda cmdb : string) (pa0 pb0 : nat) : M unit :=
  dup2 pa0 3 ;;
  dup2 pb0 4 ;;
  clear_cloexec 3 ;;
  clear_cloexec 4 ;;
  closed_reader 0 ;;
  a ← args_add a "--label";
  a ← args_add a cmda;
  a ← args_add a "/proc/self/fd/3";
  a ← args_add a "--label";
  a ← args_add a cmdb;
  a ← args_add a "/proc/self/fd/4";
  w ← get;
  exec DIFF_CMD true (c_argv (w_heap w) (argv a)) ;;
  err 1 "exec".

(** [main], lines 192-244: the three children, then the parent. *)
Definition main_spawn (pl : plan) : M Z :=
  ca ← fork;
  (if (ca =? -1)%Z then err 1 "fork"
   else if (ca =? 0)%Z then producer (pl_shell pl) (pl_cmda pl) (pl_pa pl).2
   else mret tt) ;;
  cb ← fork;
  (if (cb =? -1)%Z then err 1 "fork"
   else if (cb =? 0)%Z then producer (pl_shell pl) (pl_cmdb pl) (pl_pb pl).2
   else mret tt) ;;
  cdiff ← fork;
  (if (cdiff =? -1)%Z then err 1 "fork"
   else if (cdiff =? 0)%Z then
     diff_child (pl_args pl) (pl_cmda pl) (pl_cmdb pl) (pl_pa pl).1 (pl_pb pl).1
   else mret tt) ;;
  close (pl_pa pl).1 ;;
  close (pl_pa pl).2 ;;
  close (pl_pb pl).1 ;;
  close (pl_pb pl).2 ;;
  (* only the third child is waited for *)
  status ← waitpid cdiff;
  mret 0%Z.

(** The state of [main] where the forking starts. *)
Definition main_setup (main_argv : list string) : M plan :=
  '(a, cmda, cmdb, shell) ← main_args main_argv;
  '(pa, pb) ← main_pipes;
  mret (Plan a cmda cmdb shell pa pb).

(** [int main(int argc, char *argv[])] *)
Definition main (main_argv : list string) : M Z :=
  pl ← main_setup main_argv;
  main_spawn pl.

End Program.

(** The state a process stops in. *)
Definition halt_world (h : halt) : world :=
  match h with
  | Exit _ w | Exec _ _ _ w | Abort w | Fault w => w
  end.

(** The state a run ends in. *)
Definition final {A} (r : result A) : world :=
  match r with
  | Ret _ w => w
  | Halt h => halt_world h
  end.

(** The exit status a finished run of [main] reports to its parent. *)
Definition exit_status (r : result Z) : option Z :=
  match r with
  | Ret c _ => Some c
  | Halt (Exit c _) => Some c
  | Halt _ => None
  end.

(** * Specification vocabulary *)

(** Weakest precondition of a piece of code: [Q] for the states it returns
    in, [X] for the ways it stops the process. *)
Definition wp {A} (m : M A) (w : world) (Q : A -> world -> Prop) (X : halt -> Prop) : Prop :=
  match m w with
  | Ret a w' => Q a w'
  | Halt h => X h
  end.

(** [w'] differs from [w] in memory and in the request counter only. *)
Definition mem_only (w w' : world) : Prop :=
  w_fds w' = w_fds w ∧ w_pipes w' = w_pipes w ∧
  w_nofile w' = w_nofile w ∧ w_trace w' = w_trace w.

(** [w'] is [w] with descriptor table [f], pipe objects [p], and the events
    [evs] added to its history; memory is as in [w]. *)
Definition evolves (w w' : world) (f : gmap nat fdesc) (p : gmap nat pipe_obj)
    (evs : list event) : Prop :=
  w_fds w' = f ∧ w_pipes w' = p ∧ w_nofile w' = w_nofile w ∧
  w_heap w' = w_heap w ∧ w_trace w' = w_trace w ++ evs.

(** The representation invariant of [struct args]. *)
Definition args_wf (a : args) : Prop :=
  (0 <= argc a < capacity a)%Z ∧
  (capacity a * PTR_SIZE <= PTRDIFF_MAX)%Z ∧
  length (argv a) = Z.to_nat (capacity a).

(** [a] holds the strings [ss], in the cells [ls] of heap [h], and the
    null pointer after them. *)
Definition args_holds (h : gmap loc string) (a : args) (ls : list loc) (ss : list string) : Prop :=
  args_wf a ∧
  argc a = Z.of_nat (length ss) ∧
  take (length ss) (argv a) = Some <$> ls ∧
  argv a !! length ss = Some NULL ∧
  NoDup ls ∧
  Forall2 (fun l s => h !! l = Some s) ls ss.

(** The arguments of the command line that [main] hands on to diff: "-u"
    when there are none, the ones before the two commands otherwise. *)
Definition diff_flags (main_argv : list string) : list string :=
  if (Z.of_nat (length main_argv) =? 3)%Z then ["-u"]
  else (fun i => arg main_argv (Z.of_nat i)) <$> seq 1 (length main_argv - 3).

(** The history of [main] between its start and its first [fork]: pipe
    [A] made at [p], its ends duplicated to [pa], [p] closed; then the same
    for pipe [B] and [pb]. *)
Definition setup_events (A B : nat) (p pa pb : nat * nat) : list event :=
  [EvPipe (Some (A, p.1, p.2));
   EvDupfd p.1 (DIFF_MAXFD + 1) (Some pa.1); EvDupfd p.2 (DIFF_MAXFD + 1) (Some pa.2);
   EvClose p.1; EvClose p.2;
   EvPipe (Some (B, p.1, p.2));
   EvDupfd p.1 (DIFF_MAXFD + 1) (Some pb.1); EvDupfd p.2 (DIFF_MAXFD + 1) (Some pb.2);
   EvClose p.1; EvClose p.2].

(** What is known where [main] starts forking, [w] being the state before
    the first [pipe] call: two new pipe objects [A] and [B], descriptors
    [pa] for the ends of [A] and [pb] for the ends of [B], all above
    [DIFF_MAXFD], unused before and close-on-exec; the descriptors [p]
    that both [pipe] calls returned are closed again. *)
Record forking (w w' : world) (pa pb : nat * nat) (A B : nat) (p : nat * nat) : Prop := {
  fk_new_A : w_pipes w !! A = None ∧ A ∉ pipes_in_use (w_fds w);
  fk_new_B : w_pipes w !! B = None ∧ (B ∉ pipes_in_use (w_fds w)) ∧ A ≠ B;
  fk_above : (DIFF_MAXFD < (pa.1) ∧ (pa.1) < w_nofile w) ∧
             (DIFF_MAXFD < (pa.2) ∧ (pa.2) < w_nofile w) ∧
             (DIFF_MAXFD < (pb.1) ∧ (pb.1) < w_nofile w) ∧
             (DIFF_MAXFD < (pb.2) ∧ (pb.2) < w_nofile w);
  fk_distinct : pa.1 ≠ pa.2 ∧ pa.1 ≠ pb.1 ∧ pa.1 ≠ pb.2 ∧
                pa.2 ≠ pb.1 ∧ pa.2 ≠ pb.2 ∧ pb.1 ≠ pb.2;
  fk_unused : w_fds w !! pa.1 = None ∧ w_fds w !! pa.2 = None ∧
              w_fds w !! pb.1 = None ∧ w_fds w !! pb.2 = None;
  fk_closed : w_fds w' !! p.1 = None ∧ w_fds w' !! p.2 = None;
  fk_state : evolves w w'
    (<[pb.2 := FDesc (PipeWr B) true]> (<[pb.1 := FDesc (PipeRd B) true]>
       (<[pa.2 := FDesc (PipeWr A) true]> (<[pa.1 := FDesc (PipeRd A) true]> (w_fds w)))))
    (<[B := PipeObj [] 0]> (<[A := PipeObj [] 0]> (w_pipes w)))
    (setup_events A B p pa pb)
}.

(** What [closed_reader(fd)] still does when [pipe] has put the read end at
    [r]. *)
Definition reader_moves (fd r : nat) : list event :=
  if bool_decide (fd = r) then [] else [EvDup2 r fd true; EvClose r].

(** The history of a producer that reaches its [exec]. *)
Definition producer_events (shell cmd : string) (pout p r wr : nat) : list event :=
  [EvDup2 pout 1 true; EvGetfd 1 true; EvSetfd 1 false true;
   EvPipe (Some (p, r, wr)); EvClose wr] ++ reader_moves 0 r ++
  [EvExec shell (Some [shell; "-c"; cmd]) true].

(** The label and path arguments for the two inputs. *)
Definition diff_inputs (cmda cmdb : string) : list string :=
  ["--label"; cmda; "/proc/self/fd/3"; "--label"; cmdb; "/proc/self/fd/4"].

(** The history of the third child when it reaches its [exec] with the
    argument list [l]. *)
Definition diff_events (l : list string) (pa0 pb0 p r wr : nat) : list event :=
  [EvDup2 pa0 3 true; EvDup2 pb0 4 true;
   EvGetfd 3 true; EvSetfd 3 false true; EvGetfd 4 true; EvSetfd 4 false true;
   EvPipe (Some (p, r, wr)); EvClose wr] ++ reader_moves 0 r ++
  [EvExec DIFF_CMD (Some l) true].

(** The values [fork] returned, in order. *)
Definition forks (tr : list event) : list Z :=
  omap (fun e => match e with EvFork r => Some r | _ => None end) tr.

(** An argument vector built by [args_init] and then a sequence of pushes. *)
Definition args_run (E : env) (n : Z) (ss : list string) : M args :=
  a ← args_init E n; args_add_all E a ss.

(** An environment that grants every request; every fork returns a pid. *)
Definition quiet_env : env :=
  Env (fun _ => true) (fun _ _ => Some 7) (fun _ => 100) (fun _ => None) false (fun _ => 0%Z).

Definition std_fd (n : nat) : fdesc := FDesc (Inherited n) false.

(** A process started with standard input, output and error only. *)
Definition shell_world : world :=
  World (<[0 := std_fd 0]> (<[1 := std_fd 1]> (<[2 := std_fd 2]> ∅))) ∅ 1024 ∅ 0 [].

(** Environments and command lines for concrete runs. *)
Definition env_forking (f : nat -> nat) : env :=
  Env (fun _ => true) (fun _ _ => Some 7) f
      (fun n => if decide (n = "SHELL") then Some "/bin/zsh" else None) false
      (fun _ => 256%Z).

(** The run is the third child: the third [fork] returns 0. *)
Definition env_diff_child : env :=
  env_forking (fun tick => if decide (tick = 12) then 0 else 100).

(** The third child of a run with three flags, which makes three more
    requests before it forks. *)
Definition env_flags_child : env :=
  env_forking (fun tick => if decide (tick = 15) then 0 else 100).

(** The run is the first child. *)
Definition env_first_child : env :=
  env_forking (fun tick => if decide (tick = 10) then 0 else 100).

Definition demo_argv : list string := ["ediff"; "echo hello"; "echo world"].

(** The third child at its [exec]. *)
Definition diff_exec_post (main_argv : list string) (w : world) (h : halt) : Prop :=
  match h with
  | Exec file true l w' =>
      exists (A B z : nat) (p pa pb : nat * nat) (r wr : nat) (ca cb : Z),
        (0 < ca)%Z ∧ (0 < cb)%Z ∧
        file = DIFF_CMD ∧
        l = (DIFF_CMD :: diff_flags main_argv) ++
            diff_inputs (arg main_argv (Z.of_nat (length main_argv) - 2))
                        (arg main_argv (Z.of_nat (length main_argv) - 1)) ∧
        w_trace w' = w_trace w ++ setup_events A B p pa pb ++
          [EvFork ca; EvFork cb; EvFork 0] ++ diff_events l pa.1 pb.1 z r wr ∧
        w_fds w' !! 3 = Some (FDesc (PipeRd A) false) ∧
        w_fds w' !! 4 = Some (FDesc (PipeRd B) false) ∧
        w_fds w' !! 0 = Some (FDesc (PipeRd z) false) ∧
        read w' 0 = ReadEof
  | _ => True
  end.

(** A producer child at its [exec]. *)
Definition producer_exec_post (E : env) (main_argv : list string) (w : world) (h : halt) : Prop :=
  match h with
  | Exec file false l w' =>
      exists (A B z : nat) (p pa pb : nat * nat) (r wr : nat)
             (fk : list Z) (cmd : string) (pout P : nat),
        ((fk = [0%Z] ∧ cmd = arg main_argv (Z.of_nat (length main_argv) - 2) ∧
          pout = pa.2 ∧ P = A) ∨
         (exists ca, (0 < ca)%Z ∧ fk = [ca; 0%Z] ∧
            cmd = arg main_argv (Z.of_nat (length main_argv) - 1) ∧
            pout = pb.2 ∧ P = B)) ∧
        w_trace w' = w_trace w ++ setup_events A B p pa pb ++
          (EvFork <$> fk) ++ producer_events file cmd pout z r wr ∧
        file = default DEFAULT_SHELL (secure_getenv E "SHELL") ∧
        l = [file; "-c"; cmd] ∧
        w_fds w' !! 1 = Some (FDesc (PipeWr P) false) ∧
        w_fds w' !! 0 = Some (FDesc (PipeRd z) false) ∧
        read w' 0 = ReadEof
  | _ => True
  end.

(** The ways a run of [main] can end. *)
Definition main_ret_post (E : env) (w : world) (code : Z) (w' : world) : Prop :=
  code = 0%Z ∧
  exists (A B : nat) (p pa pb : nat * nat) (ca cb cdiff : Z),
    ((0 < ca)%Z ∧ (0 < cb)%Z ∧ (0 < cdiff)%Z) ∧
    w_trace w' = w_trace w ++ setup_events A B p pa pb ++
      [EvFork ca; EvFork cb; EvFork cdiff;
       EvClose pa.1; EvClose pa.2; EvClose pb.1; EvClose pb.2;
       EvWaitpid cdiff (e_wait E cdiff)] ∧
    w_fds w' = w_fds w.

Definition main_halt_post (main_argv : list string) (w : world) (h : halt) : Prop :=
  match h with
  | Exit code w' =>
      (code = 1%Z ∧ exists msg, last (w_trace w') = Some (EvErr msg)) ∨
      (code = 2%Z ∧ length main_argv < 3)
  | Exec _ _ _ w' => exists evs, w_trace w' = w_trace w ++ evs ∧ EvFork 0 ∈ evs
  | Abort _ | Fault _ => False
  end.

(** The claim of C3 on the interpreter, as the specification words it: the
    path is the value of SHELL when the variable is set, the default
    otherwise. *)
Definition shell_from_environment (E : env) (r : result Z) : Prop :=
  forall file l w',
    r = Halt (Exec file false l w') ->
    file = default DEFAULT_SHELL (e_environ E "SHELL").

(** The first child of a run that requires secure execution, with SHELL
    set. *)
Definition env_secure_child : env :=
  Env (fun _ => true) (fun _ _ => Some 7)
      (fun tick => if decide (tick = 10) then 0 else 100)
      (fun n => if decide (n = "SHELL") then Some "/bin/zsh" else None) true
      (fun _ => 0%Z).

(** The claim of C4, as the specification words it: the usage message on
    standard error, nothing else, and exit code 2. *)
Definition usage_exit (main_argv : list string) (w : world) (r : result Z) : Prop :=
  exists w',
    r = Halt (Exit 2 w') ∧
    w_trace w' = w_trace w ++ [EvStderr (usage (arg main_argv 0))].

(** An environment that grants nothing. *)
Definition env_no_memory : env :=
  Env (fun _ => false) (fun _ _ => None) (fun _ => 0) (fun _ => None) false (fun _ => 0%Z).

(** ** Vocabulary for the contracts, the growth law and whole runs *)

(** No descriptor of the table [t] is unused among [n, n + k). *)
Definition all_used (t : gmap nat fdesc) (n k : nat) : Prop :=
  forall m, n <= m < n + k -> is_Some (t !! m).

(** The descriptor table a child of [main] has at its [exec], [t] being
    the table [main] was started with: the four close-on-exec pipe
    descriptors [pa], [pb] on top of [t], and on top of those the
    descriptors the child has bound. *)
Definition forked_table (t : gmap nat fdesc) (A B : nat) (pa pb : nat * nat)
  : gmap nat fdesc :=
  <[pb.2 := FDesc (PipeWr B) true]> (<[pb.1 := FDesc (PipeRd B) true]>
    (<[pa.2 := FDesc (PipeWr A) true]> (<[pa.1 := FDesc (PipeRd A) true]> t))).

(** A child of [main] at its [exec]: its descriptor table in terms of the
    table [main] was started with.  [pa] and [pb] are the descriptors of
    the two pipes [A] and [B], [z] is the pipe of [closed_reader], and [P]
    is the pipe a producer writes to. *)
Definition exec_table_post (main_argv : list string) (w : world) (h : halt) : Prop :=
  match h with
  | Exec _ search _ w' =>
      exists (A B z : nat) (p pa pb : nat * nat) (rest : list event),
        (A ≠ B ∧ (A ∉ pipes_in_use (w_fds w)) ∧ (B ∉ pipes_in_use (w_fds w))) ∧
        (w_fds w !! pa.1 = None ∧ w_fds w !! pa.2 = None ∧
         w_fds w !! pb.1 = None ∧ w_fds w !! pb.2 = None) ∧
        (DIFF_MAXFD < pa.1 ∧ DIFF_MAXFD < pa.2 ∧ DIFF_MAXFD < pb.1 ∧ DIFF_MAXFD < pb.2) ∧
        (pa.1 ≠ pa.2 ∧ pa.1 ≠ pb.1 ∧ pa.1 ≠ pb.2 ∧
         pa.2 ≠ pb.1 ∧ pa.2 ≠ pb.2 ∧ pb.1 ≠ pb.2) ∧
        w_trace w' = w_trace w ++ setup_events A B p pa pb ++ rest ∧
        read w' 0 = ReadEof ∧
        if search then
          w_fds w' = <[0 := FDesc (PipeRd z) false]>
                       (<[4 := FDesc (PipeRd B) false]>
                          (<[3 := FDesc (PipeRd A) false]>
                             (forked_table (w_fds w) A B pa pb)))
        else
          exists P, (P = A ∨ P = B) ∧
            w_fds w' = <[0 := FDesc (PipeRd z) false]>
                         (<[1 := FDesc (PipeWr P) false]>
                            (forked_table (w_fds w) A B pa pb))
  | _ => True
  end.

(** An event that concerns this process alone: it makes no process,
    replaces none and waits for none. *)
Definition local_event (e : event) : Prop :=
  match e with
  | EvFork _ | EvExec _ _ _ | EvWaitpid _ _ => False
  | _ => True
  end.

(** What a child that is still running this program can add to the
    history: local events, and an [exec] that failed. *)
Definition child_event (e : event) : Prop :=
  match e with
  | EvFork _ | EvWaitpid _ _ | EvExec _ _ true => False
  | _ => True
  end.

(** From every state, [m] only adds events to the history; [Q] holds of
    the value it returns and the events it has added, [X] of the way it
    stops the process and the events added until then. *)
Definition traces {A} (m : M A) (Q : A -> list event -> Prop)
    (X : halt -> list event -> Prop) : Prop :=
  forall w,
    match m w with
    | Ret a w' => exists evs, w_trace w' = w_trace w ++ evs ∧ Q a evs
    | Halt h => exists evs, w_trace (halt_world h) = w_trace w ++ evs ∧ X h evs
    end.

(** The process stops without having been replaced by another program. *)
Definition stops_here (h : halt) : Prop :=
  match h with
  | Exec _ _ _ _ => False
  | _ => True
  end.

(** [m] adds local events only, and does not replace the process. *)
Definition quiet {A} (m : M A) : Prop :=
  traces m (fun _ evs => Forall local_event evs)
           (fun h evs => Forall local_event evs ∧ stops_here h).

(** How a child ends: replaced by [file] after local events only, or
    stopped after local events and at most a failed [exec]. *)
Definition child_halt (h : halt) (evs : list event) : Prop :=
  match h with
  | Exec file _ l _ =>
      exists pre, evs = pre ++ [EvExec file (Some l) true] ∧ Forall local_event pre
  | _ => Forall child_event evs
  end.

(** The processes of a run of [main] that ended as [r] after adding [evs]
    to the history.  Local events [pre] come first; then the forks that
    returned a pid, [cs], one right after the other; then [post]:
    - in a run that returns, all three forks have succeeded, and [post] is
      local events and then the wait for the third child;
    - in a run that does not, at most two forks have succeeded, and either
      nothing was forked and [post] is empty, or a fork failed and its
      diagnostic is all there is, or a fork returned 0 and [post] is what
      the child did; only a child is replaced by another program. *)
Definition process_discipline (E : env) (r : result Z) (evs : list event) : Prop :=
  exists (pre : list event) (cs : list Z) (post : list event),
    evs = pre ++ (EvFork <$> cs) ++ post ∧
    Forall local_event pre ∧
    Forall (fun c => (0 < c)%Z) cs ∧
    match r with
    | Ret _ _ =>
        exists c1 c2 c3 closes,
          cs = [c1; c2; c3] ∧
          post = closes ++ [EvWaitpid c3 (e_wait E c3)] ∧
          Forall local_event closes
    | Halt h =>
        length cs <= 2 ∧
        ((cs = [] ∧ post = [] ∧ stops_here h) ∨
         (post = [EvFork (-1); EvErr "fork"] ∧ stops_here h) ∨
         exists child, post = EvFork 0 :: child ∧ child_halt h child)
    end.

(** Every descriptor in use is below [b]. *)
Definition keys_below (t : gmap nat fdesc) (b : nat) : Prop :=
  forall fd, is_Some (t !! fd) -> fd < b.

(** [w'] has the descriptor limit and the memory of [w], and every
    descriptor open in [w] is open in [w']. *)
Definition keeps_open (w w' : world) : Prop :=
  w_nofile w' = w_nofile w ∧ w_heap w' = w_heap w ∧
  forall fd, is_Some (w_fds w !! fd) -> is_Some (w_fds w' !! fd).

(** The process has been replaced by another program. *)
Definition replaced (h : halt) : Prop :=
  match h with
  | Exec _ _ _ _ => True
  | _ => False
  end.

(** The process has exited with code 1 after a diagnostic from [msgs], or
    has been replaced by another program. *)
Definition exits_with (msgs : list string) (h : halt) : Prop :=
  match h with
  | Exit code w' =>
      code = 1%Z ∧ exists msg, msg ∈ msgs ∧ last (w_trace w') = Some (EvErr msg)
  | Exec _ _ _ _ => True
  | Abort _ | Fault _ => False
  end.

(** The diagnostics a run of [main] can end with. *)
Definition main_diagnostics : list string :=
  ["calloc"; "realloc"; "malloc"; "pipe2"; "fcntl F_DUPFD"; "fork"; "pipe"; "exec"].

(** * Proofs *)

Lemma size_wrap_small z : (0 <= z <= SIZE_MAX)%Z -> size_wrap z = z.
Proof. intros H. unfold size_wrap. apply Z.mod_small. lia. Qed.

Lemma bind_unfold {A B} (m : M A) (f : A -> M B) w :
  (m ≫= f) w = match m w with Ret a w' => f a w' | Halt h => Halt h end.
Proof. reflexivity. Qed.

Lemma ret_unfold {A} (a : A) (w : world) : (mret a : M A) w = Ret a w.
Proof. reflexivity. Qed.

(** Unfold the binds and returns at the head of a computation. *)
Ltac mstep :=
  repeat (progress (unfold err, emit, modify, get, exit, fault;
                    rewrite ?bind_unfold, ?ret_unfold; cbv beta iota)).

Ltac mrun := repeat progress (mstep; simpl).

Lemma wp_bind {A B} (m : M A) (f : A -> M B) w Q X :
  wp m w (fun a w' => wp (f a) w' Q X) X -> wp (m ≫= f) w Q X.
Proof. unfold wp. rewrite bind_unfold. generalize (m w). intros [|]; auto. Qed.

Lemma wp_ret {A} (a : A) w (Q : A -> world -> Prop) X : Q a w -> wp (mret a) w Q X.
Proof. auto. Qed.

Lemma wp_mono {A} (m : M A) w (Q Q' : A -> world -> Prop) (X X' : halt -> Prop) :
  wp m w Q X -> (forall a w', Q a w' -> Q' a w') -> (forall h, X h -> X' h) -> wp m w Q' X'.
Proof. unfold wp. generalize (m w). intros [|]; auto. Qed.

Lemma wp_ret_inv {A} (m : M A) w Q X a w' : wp m w Q X -> m w = Ret a w' -> Q a w'.
Proof. unfold wp. intros H Heq. by rewrite Heq in H. Qed.

Lemma wp_halt_inv {A} (m : M A) w Q X h : wp m w Q X -> m w = Halt h -> X h.
Proof. unfold wp. intros H Heq. by rewrite Heq in H. Qed.

(** Turn a goal about the state [m] returns in into a [wp] goal. *)
Ltac from_ret H :=
  match type of H with
  | ?m ?w = Ret ?a ?w' =>
      pattern a, w';
      match goal with
      | |- ?Q a w' => refine (wp_ret_inv m w Q (fun _ => True) a w' _ H)
      end;
      clear H
  end.

(** The same for the way [m] stops the process. *)
Ltac from_halt H :=
  match type of H with
  | ?m ?w = Halt ?h =>
      pattern h;
      match goal with
      | |- ?X h => refine (wp_halt_inv m w (fun _ _ => True) X h _ H)
      end;
      clear H
  end.

Lemma mem_only_refl w : mem_only w w.
Proof. done. Qed.

Lemma mem_only_trans w1 w2 w3 : mem_only w1 w2 -> mem_only w2 w3 -> mem_only w1 w3.
Proof. unfold mem_only. intros (?&?&?&?) (?&?&?&?). repeat split; congruence. Qed.

Section ArgsProofs.
Context (E : env).

Lemma wp_args_init n w (Q : args -> world -> Prop) (X : halt -> Prop) :
  ((0 < n)%Z -> (n * PTR_SIZE <= PTRDIFF_MAX)%Z -> e_grant E (w_tick w) = true ->
     Q (Args n 0 (replicate (Z.to_nat n) NULL)) (bump w)) ->
  ((0 < n)%Z -> (e_grant E (w_tick w) = false ∨ (PTRDIFF_MAX < n * PTR_SIZE)%Z) ->
     X (Exit 1 (log (EvErr "calloc") (bump w)))) ->
  ((n <= 0)%Z -> X (Abort w)) ->
  wp (args_init E n) w Q X.
Proof.
  intros HQ HX HA. unfold wp, args_init, assert, calloc, request.
  rewrite !bind_unfold.
  destruct (Z.ltb_spec 0 n) as [Hn|Hn]; [|by apply HA].
  rewrite !bind_unfold.
  destruct (e_grant E (w_tick w)) eqn:Hg; simpl.
  - destruct (Z.leb_spec (n * PTR_SIZE) PTRDIFF_MAX); simpl.
    + by apply HQ.
    + apply HX; auto.
  - apply HX; auto.
Qed.

Lemma wp_args_add a s w (Q : args -> world -> Prop) (X : halt -> Prop) :
  args_wf a ->
  (forall a' w',
     capacity a' = (if (argc a + 1 =? capacity a)%Z then 2 * capacity a else capacity a)%Z ->
     argc a' = (argc a + 1)%Z ->
     args_wf a' ->
     take (Z.to_nat (argc a)) (argv a') = take (Z.to_nat (argc a)) (argv a) ->
     argv a' !! Z.to_nat (argc a) = Some (Some (fresh (dom (w_heap w)))) ->
     argv a' !! Z.to_nat (argc a + 1) = Some NULL ->
     w_heap w' = <[fresh (dom (w_heap w)) := s]> (w_heap w) ->
     mem_only w w' ->
     Q a' w') ->
  (forall w' msg, mem_only w w' -> X (Exit 1 (log (EvErr msg) w'))) ->
  wp (args_add E a s) w Q X.
Proof.
  intros (Hc & Hcap & Hlen) HQ HX.
  unfold PTR_SIZE, PTRDIFF_MAX in Hcap.
  unfold wp, args_add, assert. rewrite bind_unfold.
  destruct (Z.ltb_spec (argc a) (capacity a)) as [_|?]; [|lia].
  rewrite bind_unfold.
  rewrite (size_wrap_small (argc a + 1)) by (unfold SIZE_MAX; lia).
  destruct (Z.eqb_spec (argc a + 1) (capacity a)) as [Hfull|Hroom].
  - (* the array is full: it is doubled first *)
    rewrite (size_wrap_small (capacity a * 2)) by (unfold SIZE_MAX; lia).
    rewrite (size_wrap_small (capacity a * 2 * PTR_SIZE)) by (unfold SIZE_MAX, PTR_SIZE; lia).
    unfold realloc, request, get. rewrite !bind_unfold.
    destruct (e_grant E (w_tick w)) eqn:Hg; simpl;
      [|apply (HX (bump w)); done].
    destruct (Z.ltb_spec 0 (capacity a * 2 * PTR_SIZE)) as [_|?];
      [|unfold PTR_SIZE in *; lia]; simpl.
    destruct (Z.leb_spec (capacity a * 2 * PTR_SIZE) PTRDIFF_MAX) as [Hfit|?]; simpl;
      [|apply (HX (bump w)); done].
    unfold PTR_SIZE, PTRDIFF_MAX in Hfit.
    replace (capacity a * 2 * PTR_SIZE / PTR_SIZE)%Z with (capacity a * 2)%Z
      by (unfold PTR_SIZE; rewrite Z.div_mul; lia).
    rewrite take_ge by lia.
    set (arr := argv a ++ _).
    assert (Harr : length arr = Z.to_nat (capacity a * 2)).
    { unfold arr. rewrite length_app, length_fmap, length_seq. lia. }
    assert (Htake : take (Z.to_nat (argc a)) arr = take (Z.to_nat (argc a)) (argv a)).
    { unfold arr. rewrite take_app_le by lia. done. }
    clearbody arr.
    unfold strdup, request, get, modify. rewrite !bind_unfold. simpl.
    destruct (e_grant E (S (w_tick w))) eqn:Hg2; simpl;
      [|apply (HX (bump (bump w))); done].
    destruct (Z.leb_spec (Z.of_nat (String.length s) + 1) PTRDIFF_MAX) as [_|?]; simpl;
      [|apply (HX (bump (bump w))); done].
    rewrite (size_wrap_small (argc a + 1)) by (unfold SIZE_MAX; lia).
    rewrite (size_wrap_small (argc a + 1 - 1)) by (unfold SIZE_MAX; lia).
    unfold store. rewrite !bind_unfold.
    destruct (Z.leb_spec 0 (argc a + 1 - 1)) as [_|?]; [|lia].
    destruct (Z.ltb_spec (argc a + 1 - 1) (Z.of_nat (length arr))) as [_|?]; [|lia].
    simpl. rewrite length_insert.
    destruct (Z.leb_spec 0 (argc a + 1)) as [_|?]; [|lia].
    destruct (Z.ltb_spec (argc a + 1) (Z.of_nat (length arr))) as [_|?]; [|lia].
    simpl. apply HQ; simpl.
    + destruct (Z.eqb_spec (argc a + 1) (capacity a)); lia.
    + done.
    + unfold args_wf. simpl. rewrite !length_insert.
      unfold PTR_SIZE, PTRDIFF_MAX. lia.
    + rewrite ?Z.add_simpl_r.
      rewrite take_insert_ge by lia. rewrite take_insert_ge by lia. done.
    + rewrite ?Z.add_simpl_r.
      rewrite list_lookup_insert_ne by lia.
      rewrite list_lookup_insert_eq by lia. done.
    + rewrite list_lookup_insert_eq; [done|]. rewrite length_insert. lia.
    + done.
    + done.
  - (* there is room *)
    mstep. unfold strdup, request, get, modify. mstep. simpl.
    destruct (e_grant E (w_tick w)) eqn:Hg2; simpl;
      [|apply (HX (bump w)); done].
    destruct (Z.leb_spec (Z.of_nat (String.length s) + 1) PTRDIFF_MAX) as [_|?]; simpl;
      [|apply (HX (bump w)); done].
    rewrite (size_wrap_small (argc a + 1)) by (unfold SIZE_MAX; lia).
    rewrite (size_wrap_small (argc a + 1 - 1)) by (unfold SIZE_MAX; lia).
    unfold store. rewrite !bind_unfold.
    destruct (Z.leb_spec 0 (argc a + 1 - 1)) as [_|?]; [|lia].
    destruct (Z.ltb_spec (argc a + 1 - 1) (Z.of_nat (length (argv a)))) as [_|?]; [|lia].
    simpl. rewrite length_insert.
    destruct (Z.leb_spec 0 (argc a + 1)) as [_|?]; [|lia].
    destruct (Z.ltb_spec (argc a + 1) (Z.of_nat (length (argv a)))) as [_|?]; [|lia].
    simpl. apply HQ; simpl.
    + destruct (Z.eqb_spec (argc a + 1) (capacity a)); lia.
    + done.
    + unfold args_wf. simpl. rewrite !length_insert.
      unfold PTR_SIZE, PTRDIFF_MAX. lia.
    + rewrite ?Z.add_simpl_r.
      rewrite take_insert_ge by lia. rewrite take_insert_ge by lia. done.
    + rewrite ?Z.add_simpl_r.
      rewrite list_lookup_insert_ne by lia.
      rewrite list_lookup_insert_eq by lia. done.
    + rewrite list_lookup_insert_eq; [done|]. rewrite length_insert. lia.
    + done.
    + done.
Qed.

Lemma args_holds_init h n :
  (0 < n)%Z -> (n * PTR_SIZE <= PTRDIFF_MAX)%Z ->
  args_holds h (Args n 0 (replicate (Z.to_nat n) NULL)) [] [].
Proof.
  intros Hn Hb. unfold args_holds, args_wf. simpl. split_and!; try lia.
  - by rewrite length_replicate.
  - done.
  - apply lookup_replicate_2. lia.
  - constructor.
  - constructor.
Qed.

Lemma args_holds_dom h a ls ss l :
  args_holds h a ls ss -> l ∈ ls -> l ∈ dom h.
Proof.
  intros (_ & _ & _ & _ & _ & HF) Hl.
  apply list_elem_of_lookup in Hl as [i Hi].
  destruct (Forall2_lookup_l _ _ _ _ _ HF Hi) as (s & _ & Hs).
  apply elem_of_dom. eauto.
Qed.

Lemma args_holds_heap h h' a ls ss :
  args_holds h a ls ss -> h ⊆ h' -> args_holds h' a ls ss.
Proof.
  intros (? & ? & ? & ? & ? & HF) Hsub. unfold args_holds. split_and!; try done.
  eapply Forall2_impl; [exact HF|]. intros l s Hl. simpl in *.
  exact (lookup_weaken _ _ _ _ Hl Hsub).
Qed.

Lemma args_holds_length h a ls ss : args_holds h a ls ss -> length ls = length ss.
Proof. intros (_ & _ & _ & _ & _ & HF). by eapply Forall2_length. Qed.

Lemma wp_args_add_holds a ls ss s w (Q : args -> world -> Prop) (X : halt -> Prop) :
  args_holds (w_heap w) a ls ss ->
  (forall a' w',
     args_holds (w_heap w') a' (ls ++ [fresh (dom (w_heap w))]) (ss ++ [s]) ->
     capacity a' = (if (argc a + 1 =? capacity a)%Z then 2 * capacity a else capacity a)%Z ->
     w_heap w' = <[fresh (dom (w_heap w)) := s]> (w_heap w) ->
     mem_only w w' ->
     Q a' w') ->
  (forall w' msg, mem_only w w' -> X (Exit 1 (log (EvErr msg) w'))) ->
  wp (args_add E a s) w Q X.
Proof.
  intros Hh HQ HX.
  pose proof (args_holds_length _ _ _ _ Hh) as Hlen.
  pose proof (fun l => args_holds_dom _ _ _ _ l Hh) as Hdom.
  destruct Hh as (Hwf & Hc & Htk & Hnull & Hnd & HF).
  apply wp_args_add; [done| |done].
  intros a' w' Hcap Hc' Hwf' Htk' Hl Hn Hheap Hmem.
  set (l := fresh (dom (w_heap w))) in *.
  assert (Hfresh : l ∉ dom (w_heap w)) by apply is_fresh.
  rewrite Hc, Nat2Z.id in Htk', Hl.
  replace (Z.to_nat (argc a + 1)) with (S (length ss)) in Hn by lia.
  apply HQ; [|done..].
  unfold args_holds. split_and!.
  - done.
  - rewrite Hc', Hc, length_app. simpl. lia.
  - rewrite length_app. simpl. rewrite Nat.add_1_r.
    rewrite (take_S_r _ _ _ Hl), Htk', Htk, fmap_app. done.
  - rewrite length_app. simpl. by rewrite Nat.add_1_r.
  - apply NoDup_app. split; [done|]. split; [|apply NoDup_singleton].
    intros x Hx ->%list_elem_of_singleton. apply Hfresh, Hdom, Hx.
  - rewrite Hheap. apply Forall2_app.
    + eapply Forall2_impl; [exact HF|]. intros x t Hx. simpl in Hx.
      rewrite lookup_insert_ne; [done|]. intros <-.
      apply Hfresh. apply elem_of_dom. eauto.
    + constructor; [|constructor]. apply lookup_insert_eq.
Qed.

Lemma wp_args_add_all ss : forall a ls0 ss0 w (Q : args -> world -> Prop) (X : halt -> Prop),
  args_holds (w_heap w) a ls0 ss0 ->
  (forall a' w' ls,
     args_holds (w_heap w') a' (ls0 ++ ls) (ss0 ++ ss) ->
     w_heap w ⊆ w_heap w' ->
     (forall l, l ∈ ls -> l ∉ dom (w_heap w)) ->
     mem_only w w' ->
     Q a' w') ->
  (forall w' msg, mem_only w w' -> X (Exit 1 (log (EvErr msg) w'))) ->
  wp (args_add_all E a ss) w Q X.
Proof.
  induction ss as [|s ss IH]; intros a ls0 ss0 w Q X Hh HQ HX; simpl.
  - apply wp_ret. apply (HQ a w []).
    + by rewrite !app_nil_r.
    + done.
    + intros l Hl. by apply not_elem_of_nil in Hl.
    + done.
  - apply wp_bind. eapply wp_args_add_holds; [exact Hh| |exact HX].
    intros a1 w1 Hh1 _ Hheap1 Hmem1.
    assert (Hsub1 : w_heap w ⊆ w_heap w1).
    { rewrite Hheap1. apply insert_subseteq. apply not_elem_of_dom, is_fresh. }
    eapply IH; [exact Hh1| |].
    + intros a' w' ls Hh' Hsub' Hfr' Hmem'.
      apply (HQ a' w' (fresh (dom (w_heap w)) :: ls)).
      * by rewrite <- !app_assoc in Hh'.
      * by etrans.
      * intros l [->|Hl]%elem_of_cons; [apply is_fresh|].
        intros Hin. apply (Hfr' l Hl).
        apply elem_of_dom. apply elem_of_dom in Hin as [x Hx].
        exists x. eapply lookup_weaken; eauto.
      * by eapply mem_only_trans.
    + intros w' msg Hmem'. apply HX. by eapply mem_only_trans.
Qed.

Lemma c_argv_terminated (h : gmap nat string) ls ss rest :
  Forall2 (fun l s => h !! l = Some s) ls ss ->
  c_argv h ((Some <$> ls) ++ None :: rest) = Some ss.
Proof.
  induction 1 as [|l s ls ss Hl HF IH]; [done|].
  rewrite fmap_cons. simpl. by rewrite Hl, IH.
Qed.

Lemma args_holds_c_argv h a ls ss :
  args_holds h a ls ss -> c_argv h (argv a) = Some ss.
Proof.
  intros (_ & _ & Htk & Hnull & _ & HF).
  rewrite <- (take_drop (length ss) (argv a)), Htk.
  assert (Hd : exists rest, drop (length ss) (argv a) = None :: rest).
  { destruct (drop (length ss) (argv a)) as [|x rest] eqn:Hdrop.
    - apply (f_equal length) in Hdrop. rewrite length_drop in Hdrop. simpl in Hdrop.
      apply lookup_lt_Some in Hnull. lia.
    - exists rest. f_equal.
      pose proof (lookup_drop (argv a) (length ss) 0) as Hx.
      rewrite Hdrop, Nat.add_0_r, Hnull in Hx. simpl in Hx. congruence. }
  destruct Hd as [rest ->]. by apply c_argv_terminated.
Qed.

Lemma wp_args_run n ss w (Q : args -> world -> Prop) (X : halt -> Prop) :
  (forall a w' ls,
     args_holds (w_heap w') a ls ss ->
     w_heap w ⊆ w_heap w' ->
     (forall l, l ∈ ls -> l ∉ dom (w_heap w)) ->
     mem_only w w' ->
     Q a w') ->
  (forall w' msg, mem_only w w' -> X (Exit 1 (log (EvErr msg) w'))) ->
  ((n <= 0)%Z -> X (Abort w)) ->
  wp (args_run E n ss) w Q X.
Proof.
  intros HQ HX HA. unfold args_run. apply wp_bind.
  apply wp_args_init; [|intros; by apply (HX (bump w))|done].
  intros Hn Hb _.
  eapply (wp_args_add_all ss _ [] []); [by apply args_holds_init| |].
  - intros a w' ls Hh Hsub Hfr Hmem. by apply (HQ a w' ls).
  - intros w' msg Hmem. by apply HX.
Qed.

Lemma args_next_push a ls ss h s w1 :
  args_holds h a ls ss ->
  wp (args_add E a s) w1
    (fun a1 w1' =>
       capacity a1 = (if (argc a + 1 =? capacity a)%Z then 2 * capacity a else capacity a)%Z ∧
       argc a1 = (argc a + 1)%Z ∧
       (argc a1 < capacity a1)%Z ∧
       length (argv a1) = Z.to_nat (capacity a1) ∧
       argv a1 !! Z.to_nat (argc a) = Some (Some (fresh (dom (w_heap w1)))) ∧
       w_heap w1' !! fresh (dom (w_heap w1)) = Some s ∧
       argv a1 !! Z.to_nat (argc a1) = Some NULL)
    (fun h => exists w2 msg, h = Exit 1 (log (EvErr msg) w2)).
Proof.
  intros (Hwf & _). apply wp_args_add; [done| |eauto].
  intros a' w' Hcap Hc (Hc' & _ & Hlen) _ Hl Hn Hheap _.
  split_and!; try done.
  - lia.
  - rewrite Hheap. apply lookup_insert_eq.
  - by rewrite Hc.
Qed.

End ArgsProofs.

(** C8.  An argument vector built by [args_init] and any sequence of
    pushes has the null pointer in the slot at index [argc], so that exec
    reads exactly the pushed strings from it; every occupied slot points to
    a cell of its own, allocated after the vector was started, so that
    changing what existed before leaves the vector's strings as they are;
    and a further push doubles the capacity exactly when [argc + 1] equals
    the capacity at its entry, and puts the copy of its string at index
    [argc], followed by the null pointer. *)
Theorem args_null_terminated_owned (E : env) (n : Z) (ss : list string) (w : world)
    (a : args) (w' : world) :
  args_run E n ss w = Ret a w' ->
  (argc a = Z.of_nat (length ss) ∧
   argv a !! Z.to_nat (argc a) = Some NULL ∧
   c_argv (w_heap w') (argv a) = Some ss) ∧
  (exists ls : list nat,
     take (length ss) (argv a) = Some <$> ls ∧
     NoDup ls ∧
     (forall l, l ∈ ls -> l ∉ dom (w_heap w)) ∧
     Forall2 (fun l s => w_heap w' !! l = Some s) ls ss ∧
     w_heap w ⊆ w_heap w' ∧
     (forall h2 : gmap nat string,
        (forall l, l ∉ dom (w_heap w) -> h2 !! l = w_heap w' !! l) ->
        c_argv h2 (argv a) = Some ss)) ∧
  (forall (s : string) (w1 : world) (a1 : args) (w1' : world),
     args_add E a s w1 = Ret a1 w1' ->
     capacity a1 = (if (argc a + 1 =? capacity a)%Z then 2 * capacity a else capacity a)%Z ∧
     argc a1 = (argc a + 1)%Z ∧
     argv a1 !! Z.to_nat (argc a) = Some (Some (fresh (dom (w_heap w1)))) ∧
     w_heap w1' !! fresh (dom (w_heap w1)) = Some s ∧
     argv a1 !! Z.to_nat (argc a1) = Some NULL).
Proof.
  intros Hrun. from_ret Hrun.
  apply wp_args_run; [|done..].
  clear a w'. intros a w' ls Hh Hsub Hfr _.
  pose proof (args_holds_c_argv _ _ _ _ Hh) as Hargv.
  pose proof Hh as (Hwf & Hc & Htk & Hnull & Hnd & HF).
  split_and!.
  - done.
  - by rewrite Hc, Nat2Z.id.
  - done.
  - exists ls. split_and!; try done.
    intros h2 Hh2. apply (args_holds_c_argv h2 a ls ss).
    unfold args_holds. split_and!; try done.
    eapply Forall2_impl; [|intros l s Hl; exact Hl].
    apply Forall2_same_length_lookup_2; [by eapply Forall2_length|].
    intros i l s Hl Hs. rewrite Hh2.
    + by eapply (Forall2_lookup_lr _ _ _ _ _ _ HF).
    + apply Hfr. by eapply list_elem_of_lookup_2.
  - intros s w1 a1 w1' Hadd.
    pose proof (wp_ret_inv _ _ _ _ _ _ (args_next_push E a ls ss _ s w1 Hh) Hadd)
      as (? & ? & ? & ? & ? & ? & ?).
    done.
Qed.

Lemma args_null_terminated_owned_witness :
  exists a w',
    args_run quiet_env 2 ["diff"; "-u"; "--label"] shell_world = Ret a w' ∧
    c_argv (w_heap w') (argv a) = Some ["diff"; "-u"; "--label"].
Proof.
  assert (Hrun : exists a w',
    args_run quiet_env 2 ["diff"; "-u"; "--label"] shell_world = Ret a w')
    by (eexists _, _; vm_compute; reflexivity).
  destruct Hrun as (a & w' & Hrun). exists a, w'. split; [exact Hrun|].
  apply (args_null_terminated_owned quiet_env 2 ["diff"; "-u"; "--label"] shell_world
           a w' Hrun).
Defined.

(** C10.  The assertion [argc < capacity] at the entry of [args_add] holds
    in every state reached by [args_init] and pushes: the run never stops
    on an assertion unless [args_init] was given a capacity that is not
    positive, it never stores outside the array, the vector it returns has
    [argc < capacity], and a further push neither fails its assertion nor
    returns a vector without [argc < capacity]; that push doubles the
    capacity exactly when [argc + 1] reaches it. *)
Theorem args_add_assertion_valid (E : env) (n : Z) (ss : list string) (w : world) :
  match args_run E n ss w with
  | Ret a _ =>
      (0 <= argc a < capacity a)%Z ∧
      forall (s : string) (w1 : world),
        match args_add E a s w1 with
        | Ret a1 _ =>
            (0 <= argc a1 < capacity a1)%Z ∧
            capacity a1 =
              (if (argc a + 1 =? capacity a)%Z then 2 * capacity a else capacity a)%Z
        | Halt (Exit code _) => code = 1%Z
        | Halt _ => False
        end
  | Halt (Exit code _) => code = 1%Z
  | Halt (Abort _) => (n <= 0)%Z
  | Halt _ => False
  end.
Proof.
  change (wp (args_run E n ss) w
    (fun a _ => (0 <= argc a < capacity a)%Z ∧
       forall s w1, wp (args_add E a s) w1
         (fun a1 _ => (0 <= argc a1 < capacity a1)%Z ∧
            capacity a1 =
              (if (argc a + 1 =? capacity a)%Z then 2 * capacity a else capacity a)%Z)
         (fun h => match h with Exit code _ => code = 1%Z | _ => False end))
    (fun h => match h with
              | Exit code _ => code = 1%Z
              | Abort _ => (n <= 0)%Z
              | _ => False
              end)).
  apply wp_args_run; [|done..].
  intros a w' ls Hh _ _ _. pose proof Hh as ((Hc & _) & _).
  split; [done|]. intros s w1.
  eapply wp_mono; [apply (args_next_push E a ls ss _ s w1 Hh)| |].
  - intros a1 _ (Hcap & Hc1 & Hlt & _). split; [lia|done].
  - by intros h (w2 & msg & ->).
Qed.

Section DescriptorProofs.
Context (E : env).

Lemma first_free_spec (t : gmap nat fdesc) n k r :
  first_free t n k = Some r ->
  n <= r < n + k ∧ t !! r = None ∧ forall m, n <= m < r -> is_Some (t !! m).
Proof.
  revert n. induction k as [|k IH]; intros n; simpl; [done|].
  destruct (t !! n) eqn:Hn.
  - intros H. apply IH in H as (H1 & H2 & H3). split; [lia|]. split; [done|].
    intros m Hm. destruct (decide (m = n)) as [->|]; [by rewrite Hn|]. apply H3. lia.
  - intros [= <-]. split; [lia|]. split; [done|]. intros m Hm. lia.
Qed.

Lemma pipes_in_use_spec (t : gmap nat fdesc) p :
  p ∈ pipes_in_use t <-> exists fd d, t !! fd = Some d ∧ ofile_pipe (fd_file d) = Some p.
Proof.
  unfold pipes_in_use. rewrite elem_of_list_to_set, list_elem_of_omap. split.
  - intros ([fd d] & Hin & Hp). apply elem_of_map_to_list in Hin. eauto.
  - intros (fd & d & Hfd & Hp). exists (fd, d). split; [|done].
    by apply elem_of_map_to_list.
Qed.

Lemma new_pipe_not_obj w : w_pipes w !! new_pipe w = None.
Proof.
  apply not_elem_of_dom. intros H.
  apply (is_fresh (dom (w_pipes w) ∪ pipes_in_use (w_fds w))).
  apply elem_of_union_l, H.
Qed.

Lemma new_pipe_unused w fd d :
  w_fds w !! fd = Some d -> ofile_pipe (fd_file d) ≠ Some (new_pipe w).
Proof.
  intros Hfd Hp.
  apply (is_fresh (dom (w_pipes w) ∪ pipes_in_use (w_fds w))).
  apply elem_of_union_r, pipes_in_use_spec. eauto.
Qed.

Lemma wp_err {A} code msg w (Q : A -> world -> Prop) (X : halt -> Prop) :
  X (Exit code (log (EvErr msg) w)) -> wp (err code msg) w Q X.
Proof. done. Qed.

Lemma wp_pipe w (Q : option (nat * nat) -> world -> Prop) (X : halt -> Prop) :
  (forall r wr w',
     r ≠ wr -> r < w_nofile w -> wr < w_nofile w ->
     w_fds w !! r = None -> w_fds w !! wr = None ->
     (forall m, w_fds w !! m = None -> r <= m ∧ (m ≠ r -> wr <= m)) ->
     evolves w w'
       (<[wr := FDesc (PipeWr (new_pipe w)) false]>
          (<[r := FDesc (PipeRd (new_pipe w)) false]> (w_fds w)))
       (<[new_pipe w := PipeObj [] 0]> (w_pipes w))
       [EvPipe (Some (new_pipe w, r, wr))] ->
     Q (Some (r, wr)) w') ->
  (forall w', evolves w w' (w_fds w) (w_pipes w) [EvPipe None] -> Q None w') ->
  wp (pipe E) w Q X.
Proof.
  intros HQ HN. unfold wp, pipe, request, get. mstep.
  destruct (first_free (w_fds w) 0 (w_nofile w)) as [r|] eqn:Hr;
    [|by apply HN].
  apply first_free_spec in Hr as (Hr1 & Hr2 & Hr3).
  destruct (first_free _ 0 (w_nofile w)) as [wr|] eqn:Hwr;
    [|by apply HN].
  apply first_free_spec in Hwr as (Hw1 & Hw2 & Hw3).
  destruct (e_grant E (w_tick w)); [|by apply HN].
  assert (r ≠ wr) by (intros ->; by rewrite lookup_insert_eq in Hw2).
  rewrite lookup_insert_ne in Hw2 by done.
  apply HQ; try done; try lia.
  intros m Hm. split.
  - destruct (decide (r <= m)); [done|].
    destruct (Hr3 m) as [? ?]; [lia|congruence].
  - intros Hmr. destruct (decide (wr <= m)); [done|].
    destruct (Hw3 m) as [x Hx]; [lia|].
    rewrite lookup_insert_ne in Hx by done. congruence.
Qed.

Lemma wp_close fd w (Q : unit -> world -> Prop) (X : halt -> Prop) :
  (forall w', evolves w w' (delete fd (w_fds w)) (w_pipes w) [EvClose fd] -> Q tt w') ->
  wp (close fd) w Q X.
Proof. intros HQ. by apply HQ. Qed.

Lemma wp_dup2 oldfd newfd w (Q : Z -> world -> Prop) (X : halt -> Prop) :
  (forall d w',
     w_fds w !! oldfd = Some d -> newfd < w_nofile w ->
     evolves w w'
       (if bool_decide (oldfd = newfd) then w_fds w
        else <[newfd := FDesc (fd_file d) false]> (w_fds w))
       (w_pipes w) [EvDup2 oldfd newfd true] ->
     Q (Z.of_nat newfd) w') ->
  (forall w',
     w_fds w !! oldfd = None ∨ w_nofile w <= newfd ->
     evolves w w' (w_fds w) (w_pipes w) [EvDup2 oldfd newfd false] ->
     Q (-1)%Z w') ->
  wp (dup2 oldfd newfd) w Q X.
Proof.
  intros HQ HN. unfold wp, dup2, get. mstep.
  destruct (w_fds w !! oldfd) as [d|] eqn:Hd; [|apply HN; by auto].
  destruct (decide (newfd < w_nofile w)) as [Hlim|Hlim].
  - rewrite (bool_decide_eq_true_2 _ Hlim). mstep.
    specialize (HQ d). destruct (decide (oldfd = newfd)) as [Heq|Heq].
    + rewrite (bool_decide_eq_true_2 _ Heq) in *. by apply HQ.
    + rewrite (bool_decide_eq_false_2 _ Heq) in *. by apply HQ.
  - rewrite (bool_decide_eq_false_2 _ Hlim). apply HN; [right; lia|done].
Qed.

Lemma wp_clear_cloexec fd w (Q : unit -> world -> Prop) (X : halt -> Prop) :
  (forall d w',
     w_fds w !! fd = Some d ->
     evolves w w' (<[fd := FDesc (fd_file d) false]> (w_fds w)) (w_pipes w)
       [EvGetfd fd true; EvSetfd fd false true] ->
     Q tt w') ->
  (forall w' msg, w_fds w !! fd = None -> X (Exit 1 (log (EvErr msg) w'))) ->
  wp (clear_cloexec fd) w Q X.
Proof.
  intros HQ HX. unfold wp, clear_cloexec, fcntl_getfd, fcntl_setfd, get. mstep.
  destruct (w_fds w !! fd) as [d|] eqn:Hd.
  - specialize (HQ d). destruct d as [f [|]]; mrun; rewrite Hd; mrun;
      (apply HQ; [done|]); unfold evolves; simpl; by rewrite <- app_assoc.
  - mstep. simpl. by apply HX.
Qed.

Lemma wp_xdup_ge fd ge w (Q : nat -> world -> Prop) (X : halt -> Prop) :
  (forall d n w',
     w_fds w !! fd = Some d -> ge <= n < w_nofile w -> w_fds w !! n = None ->
     evolves w w' (<[n := FDesc (fd_file d) true]> (w_fds w)) (w_pipes w)
       [EvDupfd fd ge (Some n)] ->
     Q n w') ->
  (forall w' msg, X (Exit 1 (log (EvErr msg) w'))) ->
  wp (xdup_ge E fd ge) w Q X.
Proof.
  intros HQ HX. unfold wp, xdup_ge, fcntl_dupfd_cloexec, request, get. mstep.
  destruct (w_fds w !! fd) as [d|] eqn:Hd; [|apply HX].
  destruct (first_free (w_fds w) ge (w_nofile w - ge)) as [n|] eqn:Hn; [|apply HX].
  apply first_free_spec in Hn as (Hn1 & Hn2 & _).
  destruct (e_grant E (w_tick w)); [|apply HX].
  apply (HQ d n); try done. lia.
Qed.

Lemma wp_fork w (Q : Z -> world -> Prop) (X : halt -> Prop) :
  (forall r w',
     (0 <= r)%Z ->
     evolves w w' (w_fds w) (pipes_after_fork (w_fds w) (w_pipes w)) [EvFork r] ->
     Q r w') ->
  (forall w', evolves w w' (w_fds w) (w_pipes w) [EvFork (-1)] -> Q (-1)%Z w') ->
  wp (fork E) w Q X.
Proof.
  intros HQ HN. unfold wp, fork, request, get. mstep.
  destruct (e_grant E (w_tick w)); [|by apply HN].
  apply HQ; [lia|done].
Qed.

Lemma wp_exec file search args w (Q : Z -> world -> Prop) (X : halt -> Prop) :
  (forall l w',
     args = Some l ->
     evolves w w' (w_fds w) (w_pipes w) [EvExec file args true] ->
     X (Exec file search l w')) ->
  (forall w', evolves w w' (w_fds w) (w_pipes w) [EvExec file args false] -> Q (-1)%Z w') ->
  wp (exec E file search args) w Q X.
Proof.
  intros HX HQ. unfold wp, exec, request. mstep.
  destruct args as [l|]; [|by apply HQ].
  destruct (e_grant E (w_tick w)); [|by apply HQ].
  by apply HX.
Qed.

Lemma wp_waitpid pid w (Q : Z -> world -> Prop) (X : halt -> Prop) :
  (forall w',
     evolves w w' (w_fds w) (w_pipes w) [EvWaitpid pid (e_wait E pid)] ->
     Q (e_wait E pid) w') ->
  wp (waitpid E pid) w Q X.
Proof. intros HQ. by apply HQ. Qed.

End DescriptorProofs.

(** Lookups in tables built by inserting and deleting. *)
Ltac fd_lookup :=
  repeat (rewrite lookup_insert || rewrite lookup_delete);
  repeat (case_decide; subst; simpl); try congruence; try done.

Section ReaderProofs.
Context (E : env).

Lemma local_writers_none (t : gmap nat fdesc) p :
  (forall fd d, t !! fd = Some d -> fd_file d ≠ PipeWr p) ->
  local_writers t p = 0.
Proof.
  intros H. unfold local_writers. apply map_size_empty_iff.
  apply map_empty. intros fd. apply map_lookup_filter_None. right.
  intros d Hfd Hp. by apply (H fd d).
Qed.

(** A descriptor for the read end of a pipe that is empty and has no write
    end anywhere reads end-of-stream. *)
Lemma read_eof w fd p c :
  w_fds w !! fd = Some (FDesc (PipeRd p) c) ->
  w_pipes w !! p = Some (PipeObj [] 0) ->
  (forall fd' d, w_fds w !! fd' = Some d -> fd_file d ≠ PipeWr p) ->
  read w fd = ReadEof.
Proof.
  intros Hfd Hp Hw. unfold read. rewrite Hfd, Hp. simpl.
  rewrite bool_decide_eq_true_2; [done|]. split; [done|].
  by apply local_writers_none.
Qed.

Lemma wp_closed_reader fd w (Q : unit -> world -> Prop) (X : halt -> Prop) :
  (forall r wr w',
     r ≠ wr -> w_fds w !! r = None -> w_fds w !! wr = None ->
     evolves w w'
       (<[fd := FDesc (PipeRd (new_pipe w)) false]> (w_fds w))
       (<[new_pipe w := PipeObj [] 0]> (w_pipes w))
       (EvPipe (Some (new_pipe w, r, wr)) :: EvClose wr :: reader_moves fd r) ->
     Q tt w') ->
  (forall w' msg, X (Exit 1 (log (EvErr msg) w'))) ->
  wp (closed_reader E fd) w Q X.
Proof.
  intros HQ HX. unfold closed_reader, reader_moves in *. apply wp_bind, wp_pipe.
  - intros r wr w1 Hne Hr Hwr Hrf Hwf _ (Hf1 & Hp1 & Hn1 & Hh1 & Ht1).
    apply wp_bind, wp_close. intros w2 (Hf2 & Hp2 & Hn2 & Hh2 & Ht2).
    specialize (HQ r wr).
    destruct (decide (fd = r)) as [->|Hfd].
    + rewrite bool_decide_eq_false_2 by (by intros ?).
      apply wp_ret. apply HQ; try done.
      rewrite bool_decide_eq_true_2 by done.
      unfold evolves. rewrite Hf2, Hp2, Hn2, Hh2, Ht2, Hf1, Hp1, Hn1, Hh1, Ht1.
      split_and!; try done.
      * apply map_eq. intros k. fd_lookup.
      * by rewrite <- app_assoc.
    + rewrite bool_decide_eq_true_2 by done.
      apply wp_bind, wp_dup2.
      * intros d w3 Hd Hlim (Hf3 & Hp3 & Hn3 & Hh3 & Ht3).
        apply wp_bind. rewrite (proj2 (Z.eqb_neq _ _)) by lia. apply wp_ret.
        apply wp_close. intros w4 (Hf4 & Hp4 & Hn4 & Hh4 & Ht4).
        apply HQ; try done.
        rewrite bool_decide_eq_false_2 by done.
        rewrite bool_decide_eq_false_2 in Hf3 by done.
        rewrite Hf2, Hf1 in Hd. rewrite lookup_delete_ne, lookup_insert_ne, lookup_insert_eq in Hd by done.
        injection Hd as <-.
        unfold evolves.
        rewrite Hf4, Hp4, Hn4, Hh4, Ht4, Hf3, Hp3, Hn3, Hh3, Ht3,
          Hf2, Hp2, Hn2, Hh2, Ht2, Hf1, Hp1, Hn1, Hh1, Ht1.
        split_and!; try done.
        -- apply map_eq. intros k. simpl. fd_lookup.
        -- by rewrite <- !app_assoc.
      * intros w3 _ _. apply wp_bind. simpl. apply wp_err, HX.
  - intros w1 _. apply wp_err, HX.
Qed.

End ReaderProofs.

(** C9.  When [closed_reader(fd)] returns it has created a pipe object that
    did not exist and that no descriptor referred to, closed the write end
    right after the [pipe] call, and left [fd] referring to the read end
    (moving it there with [dup2] when [pipe] did not put it there already);
    no descriptor of the process refers to the write end, no other
    descriptor has changed, and a read from [fd] returns end-of-stream. *)
Theorem closed_reader_reads_eof (E : env) (fd : nat) (w : world) (u : unit) (w' : world) :
  closed_reader E fd w = Ret u w' ->
  exists p r wr : nat,
    (w_pipes w !! p = None ∧ p ∉ pipes_in_use (w_fds w)) ∧
    w_trace w' = w_trace w ++
      EvPipe (Some (p, r, wr)) :: EvClose wr ::
      (if bool_decide (fd = r) then [] else [EvDup2 r fd true; EvClose r]) ∧
    w_fds w' !! fd = Some (FDesc (PipeRd p) false) ∧
    w_pipes w' !! p = Some (PipeObj [] 0) ∧
    (forall fd' d, w_fds w' !! fd' = Some d -> fd_file d ≠ PipeWr p) ∧
    (forall fd', fd' ≠ fd -> w_fds w' !! fd' = w_fds w !! fd') ∧
    read w' fd = ReadEof.
Proof.
  intros Hrun. from_ret Hrun. apply wp_closed_reader; [|done].
  clear u w'. unfold reader_moves. intros r wr w' Hne Hr Hwr (Hf & Hp & Hn & Hh & Ht).
  assert (Hw : forall fd' d, w_fds w' !! fd' = Some d -> fd_file d ≠ PipeWr (new_pipe w)).
  { intros fd' d. rewrite Hf, lookup_insert. destruct (decide (fd = fd')).
    - intros ?; by simplify_eq.
    - intros Hd Hfile. apply (new_pipe_unused w fd' d Hd). by rewrite Hfile. }
  exists (new_pipe w), r, wr. split_and!.
  - apply new_pipe_not_obj.
  - intros (fd' & d & Hd & Hpipe)%pipes_in_use_spec.
    by apply (new_pipe_unused w fd' d).
  - done.
  - by rewrite Hf, lookup_insert_eq.
  - by rewrite Hp, lookup_insert_eq.
  - done.
  - intros fd' Hfd'. by rewrite Hf, lookup_insert_ne.
  - eapply read_eof; [| |exact Hw].
    + by rewrite Hf, lookup_insert_eq.
    + by rewrite Hp, lookup_insert_eq.
Qed.

Lemma closed_reader_reads_eof_witness :
  exists w', closed_reader quiet_env 0 shell_world = Ret tt w' ∧ read w' 0 = ReadEof.
Proof.
  assert (Hrun : exists w', closed_reader quiet_env 0 shell_world = Ret tt w')
    by (eexists; vm_compute; reflexivity).
  destruct Hrun as (w' & Hrun). exists w'. split; [exact Hrun|].
  destruct (closed_reader_reads_eof quiet_env 0 shell_world tt w' Hrun)
    as (p & r & wr & _ & _ & _ & _ & _ & _ & Hread).
  exact Hread.
Defined.

Section SetupProofs.
Context (E : env).

(** The block of [main] that makes one pipe and moves its ends above
    [DIFF_MAXFD], followed by any continuation [k]. *)
Lemma wp_pipe_above {B} (k : nat * nat -> M B) w (Q : B -> world -> Prop) (X : halt -> Prop) :
  (forall p0 p1 x0 x1 w',
     p0 ≠ p1 -> w_fds w !! p0 = None -> w_fds w !! p1 = None ->
     (forall m, w_fds w !! m = None -> p0 <= m ∧ (m ≠ p0 -> p1 <= m)) ->
     DIFF_MAXFD < x0 < w_nofile w -> DIFF_MAXFD < x1 < w_nofile w ->
     x0 ≠ x1 -> x0 ≠ p0 -> x0 ≠ p1 -> x1 ≠ p0 -> x1 ≠ p1 ->
     w_fds w !! x0 = None -> w_fds w !! x1 = None ->
     evolves w w'
       (<[x1 := FDesc (PipeWr (new_pipe w)) true]>
          (<[x0 := FDesc (PipeRd (new_pipe w)) true]> (w_fds w)))
       (<[new_pipe w := PipeObj [] 0]> (w_pipes w))
       [EvPipe (Some (new_pipe w, p0, p1));
        EvDupfd p0 (DIFF_MAXFD + 1) (Some x0); EvDupfd p1 (DIFF_MAXFD + 1) (Some x1);
        EvClose p0; EvClose p1] ->
     wp (k (x0, x1)) w' Q X) ->
  (forall w' msg, X (Exit 1 (log (EvErr msg) w'))) ->
  wp (p ← pipe E;
      match p with
      | None => err 1 "pipe2"
      | Some (p0, p1) =>
          x0 ← xdup_ge E p0 (DIFF_MAXFD + 1);
          x1 ← xdup_ge E p1 (DIFF_MAXFD + 1);
          close p0 ;; close p1 ;; k (x0, x1)
      end) w Q X.
Proof.
  intros HQ HX. apply wp_bind, wp_pipe; [|intros; apply wp_err, HX].
  intros p0 p1 w1 Hne Hl0 Hl1 Hp0 Hp1 Hmin (Hf1 & Hq1 & Hn1 & Hh1 & Ht1).
  apply wp_bind, wp_xdup_ge; [|done].
  intros d0 x0 w2 Hd0 Hx0 Hx0f (Hf2 & Hq2 & Hn2 & Hh2 & Ht2).
  apply wp_bind, wp_xdup_ge; [|done].
  intros d1 x1 w3 Hd1 Hx1 Hx1f (Hf3 & Hq3 & Hn3 & Hh3 & Ht3).
  apply wp_bind, wp_close. intros w4 (Hf4 & Hq4 & Hn4 & Hh4 & Ht4).
  apply wp_bind, wp_close. intros w5 (Hf5 & Hq5 & Hn5 & Hh5 & Ht5).
  rewrite Hf2 in Hd1, Hx1f. rewrite Hf1 in Hd0, Hd1, Hx0f, Hx1f.
  rewrite Hn2, Hn1 in Hx1. rewrite Hn1 in Hx0.
  assert (x0 ≠ p0) by (intros ->; revert Hx0f; fd_lookup).
  assert (x0 ≠ p1) by (intros ->; revert Hx0f; fd_lookup).
  assert (x1 ≠ x0) by (intros ->; revert Hx1f; fd_lookup).
  assert (x1 ≠ p0) by (intros ->; revert Hx1f; fd_lookup).
  assert (x1 ≠ p1) by (intros ->; revert Hx1f; fd_lookup).
  assert (w_fds w !! x0 = None) by (revert Hx0f; fd_lookup).
  assert (w_fds w !! x1 = None) by (revert Hx1f; fd_lookup).
  assert (d0 = FDesc (PipeRd (new_pipe w)) false) as -> by (revert Hd0; fd_lookup).
  assert (d1 = FDesc (PipeWr (new_pipe w)) false) as -> by (revert Hd1; fd_lookup).
  apply (HQ p0 p1 x0 x1); try done; try (unfold DIFF_MAXFD in *; lia).
  unfold evolves.
  rewrite Hf5, Hq5, Hn5, Hh5, Ht5, Hf4, Hq4, Hn4, Hh4, Ht4, Hf3, Hq3, Hn3, Hh3, Ht3,
    Hf2, Hq2, Hn2, Hh2, Ht2, Hf1, Hq1, Hn1, Hh1, Ht1.
  split_and!; try done.
  - apply map_eq. intros i. simpl. fd_lookup.
  - by rewrite <- !app_assoc.
Qed.

Lemma evolves_trans w0 w1 w2 f1 p1 e1 f2 p2 e2 :
  evolves w0 w1 f1 p1 e1 -> evolves w1 w2 f2 p2 e2 -> evolves w0 w2 f2 p2 (e1 ++ e2).
Proof.
  intros (Hf1 & Hq1 & Hn1 & Hh1 & Ht1) (Hf2 & Hq2 & Hn2 & Hh2 & Ht2).
  unfold evolves. rewrite Hf2, Hq2, Hn2, Hh2, Ht2, Hn1, Hh1, Ht1.
  by rewrite <- app_assoc.
Qed.

Lemma new_pipe_not_in_use w : new_pipe w ∉ pipes_in_use (w_fds w).
Proof.
  intros (fd & d & Hd & Hp)%pipes_in_use_spec. by apply (new_pipe_unused w fd d).
Qed.

Lemma pipes_in_use_insert (t : gmap nat fdesc) fd d p :
  p ∉ pipes_in_use (<[fd := d]> t) -> t !! fd = None -> p ∉ pipes_in_use t.
Proof.
  intros Hp Hfd (fd' & d' & Hd' & Hp')%pipes_in_use_spec. apply Hp.
  apply pipes_in_use_spec. exists fd', d'. split; [|done].
  rewrite lookup_insert_ne; [done|]. intros ->. congruence.
Qed.

Lemma wp_main_pipes w (Q : nat * nat * (nat * nat) -> world -> Prop) (X : halt -> Prop) :
  (forall pa pb A B p w', forking w w' pa pb A B p -> Q (pa, pb) w') ->
  (forall w' msg, X (Exit 1 (log (EvErr msg) w'))) ->
  wp (main_pipes E) w Q X.
Proof.
  intros HQ HX. unfold main_pipes.
  apply (wp_pipe_above (fun pa =>
    p ← pipe E;
    match p with
    | None => err 1 "pipe2"
    | Some (p0, p1) =>
        pb0 ← xdup_ge E p0 (DIFF_MAXFD + 1);
        pb1 ← xdup_ge E p1 (DIFF_MAXFD + 1);
        close p0 ;; close p1 ;; mret (pa, (pb0, pb1))
    end)); [|done].
  intros p0 p1 x0 x1 w1 Hp Hp0 Hp1 Hpmin Hx0 Hx1 Hx Hx0p0 Hx0p1 Hx1p0 Hx1p1 Hx0f Hx1f Hev1.
  apply (wp_pipe_above (fun pb => mret ((x0, x1), pb))); [|done].
  intros q0 q1 y0 y1 w2 Hq Hq0 Hq1 Hqmin Hy0 Hy1 Hy Hy0q0 Hy0q1 Hy1q0 Hy1q1 Hy0f Hy1f Hev2.
  apply wp_ret.
  pose proof Hev1 as (Hf1 & Hq1' & Hn1 & Hh1 & Ht1).
  pose proof Hev2 as (Hf2 & Hq2' & Hn2 & Hh2 & Ht2).
  rewrite Hf1 in Hq0, Hq1, Hy0f, Hy1f, Hqmin. rewrite Hn1 in Hy0, Hy1.
  assert (Hp0' : <[x1:=FDesc (PipeWr (new_pipe w)) true]>
            (<[x0:=FDesc (PipeRd (new_pipe w)) true]> (w_fds w)) !! p0 = None)
    by fd_lookup.
  assert (Hp1' : <[x1:=FDesc (PipeWr (new_pipe w)) true]>
            (<[x0:=FDesc (PipeRd (new_pipe w)) true]> (w_fds w)) !! p1 = None)
    by fd_lookup.
  assert (y0 ≠ x0) by (intros ->; revert Hy0f; fd_lookup).
  assert (y0 ≠ x1) by (intros ->; revert Hy0f; fd_lookup).
  assert (y1 ≠ x0) by (intros ->; revert Hy1f; fd_lookup).
  assert (y1 ≠ x1) by (intros ->; revert Hy1f; fd_lookup).
  assert (q0 ≠ x0) by (intros ->; revert Hq0; fd_lookup).
  assert (q0 ≠ x1) by (intros ->; revert Hq0; fd_lookup).
  assert (q1 ≠ x0) by (intros ->; revert Hq1; fd_lookup).
  assert (q1 ≠ x1) by (intros ->; revert Hq1; fd_lookup).
  assert (w_fds w !! y0 = None) by (revert Hy0f; fd_lookup).
  assert (w_fds w !! y1 = None) by (revert Hy1f; fd_lookup).
  assert (w_fds w !! q0 = None) by (revert Hq0; fd_lookup).
  assert (w_fds w !! q1 = None) by (revert Hq1; fd_lookup).
  assert (q0 = p0) as ->.
  { apply Nat.le_antisymm; [apply (Hqmin p0 Hp0')|by apply (Hpmin q0)]. }
  assert (q1 = p1) as ->.
  { apply Nat.le_antisymm.
    - apply (Hqmin p1 Hp1'). by intros ->.
    - apply (Hpmin q1); [done|]. by intros ->. }
  assert (HAB : new_pipe w ≠ new_pipe w1).
  { intros Heq. pose proof (new_pipe_not_obj w1) as Hnew.
    by rewrite <- Heq, Hq1', lookup_insert_eq in Hnew. }
  apply (HQ (x0, x1) (y0, y1) (new_pipe w) (new_pipe w1) (p0, p1)).
  constructor; simpl.
  - split; [apply new_pipe_not_obj|apply new_pipe_not_in_use].
  - split_and!; [| |done].
    + pose proof (new_pipe_not_obj w1) as Hnew.
      rewrite Hq1', lookup_insert_ne in Hnew; done.
    + pose proof (new_pipe_not_in_use w1) as Hnew. rewrite Hf1 in Hnew.
      apply pipes_in_use_insert in Hnew; [|by rewrite lookup_insert_ne].
      by apply pipes_in_use_insert in Hnew.
  - done.
  - split_and!; congruence.
  - done.
  - rewrite Hf2, Hf1. split_and!; fd_lookup.
  - rewrite Hf1, Hq1' in Hev2. by apply (evolves_trans _ _ _ _ _ _ _ _ _ Hev1 Hev2).
Qed.

Lemma for_each_args_add main_argv idx : forall a w,
  for_each idx (fun i a => args_add E a (arg main_argv (Z.of_nat i))) a w =
  args_add_all E a ((fun i => arg main_argv (Z.of_nat i)) <$> idx) w.
Proof.
  induction idx as [|i idx IH]; intros a w; simpl; [done|].
  rewrite !bind_unfold. destruct (args_add E a _ w); [apply IH|done].
Qed.

Lemma wp_main_args main_argv w
    (Q : args * string * string * string -> world -> Prop) (X : halt -> Prop) :
  (forall a ls w',
     3 <= length main_argv ->
     args_holds (w_heap w') a ls (DIFF_CMD :: diff_flags main_argv) ->
     mem_only w w' ->
     Q (a,
        arg main_argv (Z.of_nat (length main_argv) - 2),
        arg main_argv (Z.of_nat (length main_argv) - 1),
        default DEFAULT_SHELL (secure_getenv E "SHELL")) w') ->
  (forall w' msg, mem_only w w' -> X (Exit 1 (log (EvErr msg) w'))) ->
  (length main_argv < 3 ->
     forall w', mem_only w w' -> X (Exit 2 (log (EvStderr (usage (arg main_argv 0))) w'))) ->
  wp (main_args E main_argv) w Q X.
Proof.
  intros HQ HX HU. unfold main_args.
  apply wp_bind, wp_args_init; [|intros; by apply (HX (bump w))|done].
  intros _ Hb _.
  apply wp_bind.
  apply (wp_args_add_holds E _ [] []); [by apply args_holds_init| |].
  2:{ intros w' msg Hm. apply HX. eapply mem_only_trans; [|exact Hm]. done. }
  intros a1 w1 Hh1 _ _ Hm1.
  assert (Hm1' : mem_only w w1) by (eapply mem_only_trans; [|exact Hm1]; done).
  simpl in Hh1.
  apply wp_bind.
  destruct (Z.ltb_spec (Z.of_nat (length main_argv)) 3) as [Hlt|Hge].
  { apply wp_bind. unfold wp, emit, modify, exit. simpl. apply HU; [lia|done]. }
  destruct (Z.eqb_spec (Z.of_nat (length main_argv)) 3) as [Heq|Hne].
  - eapply wp_args_add_holds; [exact Hh1| |].
    + intros a2 w2 Hh2 _ _ Hm2. apply wp_ret. eapply (HQ a2 _ w2); [lia| |].
      * unfold diff_flags. rewrite (proj2 (Z.eqb_eq _ _) Heq). exact Hh2.
      * by eapply mem_only_trans.
    + intros w' msg Hm. apply HX. by eapply mem_only_trans.
  - unfold wp. rewrite for_each_args_add. fold (wp (args_add_all E a1
      ((fun i => arg main_argv (Z.of_nat i)) <$>
       seq 1 (Z.to_nat (Z.of_nat (length main_argv) - 2) - 1))) w1
      (fun a w' => wp (mret (a, arg main_argv (Z.of_nat (length main_argv) - 2),
                         arg main_argv (Z.of_nat (length main_argv) - 1),
                         default DEFAULT_SHELL (secure_getenv E "SHELL"))) w' Q X) X).
    eapply wp_args_add_all; [exact Hh1| |].
    + intros a2 w2 ls Hh2 _ _ Hm2. apply wp_ret. eapply (HQ a2 _ w2); [lia| |].
      * unfold diff_flags. rewrite (proj2 (Z.eqb_neq _ _) Hne).
        replace (length main_argv - 3)
          with (Z.to_nat (Z.of_nat (length main_argv) - 2) - 1) by lia.
        exact Hh2.
      * by eapply mem_only_trans.
    + intros w' msg Hm. apply HX. by eapply mem_only_trans.
Qed.

End SetupProofs.

Section ChildProofs.
Context (E : env).

(** A producer ends in [exec] or in [err]; it never returns. *)
Lemma wp_producer shell cmd pout w (Q : unit -> world -> Prop) (X : halt -> Prop) :
  (forall d p r wr w',
     w_fds w !! pout = Some d ->
     evolves w w'
       (<[0 := FDesc (PipeRd p) false]> (<[1 := FDesc (fd_file d) false]> (w_fds w)))
       (<[p := PipeObj [] 0]> (w_pipes w))
       (producer_events shell cmd pout p r wr) ->
     read w' 0 = ReadEof ->
     X (Exec shell false [shell; "-c"; cmd] w')) ->
  (forall w' msg, X (Exit 1 (log (EvErr msg) w'))) ->
  wp (producer E shell cmd pout) w Q X.
Proof.
  intros HE HX. unfold producer.
  apply wp_bind, wp_dup2; [|intros; apply wp_bind, wp_err, HX].
  intros d w1 Hd Hlim Hev1.
  apply wp_bind. rewrite (proj2 (Z.eqb_neq _ _)) by lia. apply wp_ret.
  apply wp_bind, wp_clear_cloexec; [|intros; apply HX].
  intros d1 w2 Hd1 Hev2.
  apply wp_bind, wp_closed_reader; [|done].
  intros r wr w3 Hne Hr Hwr Hev3.
  apply wp_bind, wp_exec; [|intros; apply wp_err, HX].
  intros l w4 [= <-] Hev4.
  pose proof (evolves_trans _ _ _ _ _ _ _ _ _ Hev1 Hev2) as Hev12.
  pose proof (evolves_trans _ _ _ _ _ _ _ _ _ Hev12 Hev3) as Hev13.
  pose proof (evolves_trans _ _ _ _ _ _ _ _ _ Hev13 Hev4) as Hev14.
  destruct Hev1 as (Hf1 & Hq1 & _), Hev2 as (Hf2 & Hq2 & _), Hev3 as (Hf3 & Hq3 & _).
  assert (Hfile : fd_file d1 = fd_file d).
  { rewrite Hf1 in Hd1. destruct (decide (pout = 1)) as [->|Hp1].
    - rewrite bool_decide_eq_true_2 in Hd1 by done. congruence.
    - rewrite bool_decide_eq_false_2, lookup_insert_eq in Hd1 by done.
      by injection Hd1 as <-. }
  assert (Hfds : w_fds w2 = <[1 := FDesc (fd_file d) false]> (w_fds w)).
  { rewrite Hf2, Hf1, Hfile. destruct (decide (pout = 1)) as [->|Hp1].
    - by rewrite bool_decide_eq_true_2.
    - by rewrite bool_decide_eq_false_2, insert_insert_eq. }
  assert (Hpipes : w_pipes w2 = w_pipes w) by congruence.
  rewrite Hf3, Hq3, Hfds, Hpipes in Hev14.
  apply (HE d (new_pipe w2) r wr w4); [done|exact Hev14|].
  destruct Hev14 as (Hf4 & Hq4 & _).
  eapply read_eof.
  - by rewrite Hf4, lookup_insert_eq.
  - by rewrite Hq4, lookup_insert_eq.
  - intros fd' d'. rewrite Hf4, <- Hfds, lookup_insert.
    destruct (decide (0 = fd')); [intros ?; by simplify_eq|].
    intros Hd' Hfile'. apply (new_pipe_unused w2 fd' d' Hd'). by rewrite Hfile'.
Qed.

Lemma mem_only_evolves w0 w1 w2 f p evs :
  evolves w0 w1 f p evs -> mem_only w1 w2 ->
  w_fds w2 = f ∧ w_pipes w2 = p ∧ w_nofile w2 = w_nofile w0 ∧ w_trace w2 = w_trace w0 ++ evs.
Proof.
  intros (Hf & Hq & Hn & _ & Ht) (Hf' & Hq' & Hn' & Ht'). split_and!; congruence.
Qed.

(** The third child, started with the read ends at [pa0] and [pb0], both
    above [DIFF_MAXFD]. *)
Lemma wp_diff_child a ls ss cmda cmdb pa0 pb0 da db w
    (Q : unit -> world -> Prop) (X : halt -> Prop) :
  args_holds (w_heap w) a ls ss ->
  w_fds w !! pa0 = Some da -> w_fds w !! pb0 = Some db ->
  DIFF_MAXFD < pa0 < w_nofile w -> DIFF_MAXFD < pb0 ->
  (forall p r wr w',
     w_fds w' = <[0 := FDesc (PipeRd p) false]>
                  (<[4 := FDesc (fd_file db) false]>
                     (<[3 := FDesc (fd_file da) false]> (w_fds w))) ->
     w_pipes w' = <[p := PipeObj [] 0]> (w_pipes w) ->
     w_trace w' = w_trace w ++
       diff_events (ss ++ diff_inputs cmda cmdb) pa0 pb0 p r wr ->
     read w' 0 = ReadEof ->
     X (Exec DIFF_CMD true (ss ++ diff_inputs cmda cmdb) w')) ->
  (forall w' msg, X (Exit 1 (log (EvErr msg) w'))) ->
  wp (diff_child E a cmda cmdb pa0 pb0) w Q X.
Proof.
  intros Hh Hda Hdb Hpa Hpb HE HX. unfold diff_child, DIFF_MAXFD in *.
  apply wp_bind, wp_dup2; [|intros w' [?|?]; [congruence|lia]].
  intros d w1 Hd _ Hev1. rewrite bool_decide_eq_false_2 in Hev1 by lia.
  assert (d = da) as -> by congruence. clear Hd.
  pose proof Hev1 as (Hf1 & _ & Hn1 & _).
  apply wp_bind, wp_dup2;
    [|intros w' [Hc|?]; [revert Hc; rewrite Hf1; fd_lookup; lia|lia]].
  intros d w2 Hd _ Hev2. rewrite bool_decide_eq_false_2 in Hev2 by lia.
  assert (d = db) as -> by (revert Hd; rewrite Hf1; fd_lookup; lia). clear Hd.
  pose proof Hev2 as (Hf2 & _).
  apply wp_bind, wp_clear_cloexec; [|intros w' msg Hc; revert Hc; rewrite Hf2; fd_lookup].
  intros d w3 Hd Hev3.
  assert (d = FDesc (fd_file da) false) as ->
    by (revert Hd; rewrite Hf2, Hf1; fd_lookup).
  clear Hd. pose proof Hev3 as (Hf3 & _).
  apply wp_bind, wp_clear_cloexec;
    [|intros w' msg Hc; revert Hc; rewrite Hf3, Hf2; fd_lookup].
  intros d w4 Hd Hev4.
  assert (d = FDesc (fd_file db) false) as ->
    by (revert Hd; rewrite Hf3, Hf2; fd_lookup).
  clear Hd. pose proof Hev4 as (Hf4 & Hq4 & _). simpl in Hev3, Hev4, Hf3, Hf4.
  apply wp_bind, wp_closed_reader; [|done].
  intros r wr w5 Hne Hr Hwr Hev5.
  pose proof (evolves_trans _ _ _ _ _ _ _ _ _ Hev1 Hev2) as Hev.
  pose proof (evolves_trans _ _ _ _ _ _ _ _ _ Hev Hev3) as Hev'. clear Hev.
  pose proof (evolves_trans _ _ _ _ _ _ _ _ _ Hev' Hev4) as Hev. clear Hev'.
  pose proof (evolves_trans _ _ _ _ _ _ _ _ _ Hev Hev5) as Hev'. clear Hev.
  assert (Hfds4 : w_fds w4 = <[4 := FDesc (fd_file db) false]>
                    (<[3 := FDesc (fd_file da) false]> (w_fds w))).
  { rewrite Hf4, Hf3, Hf2, Hf1. apply map_eq. intros i. fd_lookup. }
  assert (Hq : w_pipes w4 = w_pipes w).
  { destruct Hev1 as (_ & Hq1 & _), Hev2 as (_ & Hq2 & _), Hev3 as (_ & Hq3 & _).
    congruence. }
  rewrite Hfds4, Hq in Hev'.
  assert (Hheap5 : w_heap w5 = w_heap w) by apply Hev'.
  rewrite <- Hheap5 in Hh.
  apply wp_bind. eapply wp_args_add_holds; [exact Hh| |done].
  intros a6 w6 Hh6 _ _ Hm6.
  apply wp_bind. eapply wp_args_add_holds; [exact Hh6| |done].
  intros a7 w7 Hh7 _ _ Hm7.
  apply wp_bind. eapply wp_args_add_holds; [exact Hh7| |done].
  intros a8 w8 Hh8 _ _ Hm8.
  apply wp_bind. eapply wp_args_add_holds; [exact Hh8| |done].
  intros a9 w9 Hh9 _ _ Hm9.
  apply wp_bind. eapply wp_args_add_holds; [exact Hh9| |done].
  intros a10 w10 Hh10 _ _ Hm10.
  apply wp_bind. eapply wp_args_add_holds; [exact Hh10| |done].
  intros a11 w11 Hh11 _ _ Hm11.
  assert (Hm : mem_only w5 w11) by (repeat (eapply mem_only_trans; [eassumption|]); done).
  rewrite <- !app_assoc in Hh11. simpl in Hh11.
  apply wp_bind. unfold wp at 1, get.
  rewrite (args_holds_c_argv _ _ _ _ Hh11).
  apply wp_bind, wp_exec; [|intros; apply wp_err, HX].
  intros l w12 [= <-] (Hf12 & Hq12 & Hn12 & Hh12 & Ht12).
  destruct (mem_only_evolves _ _ _ _ _ _ Hev' Hm) as (Hf11 & Hq11 & Hn11 & Ht11).
  apply (HE (new_pipe w4) r wr w12).
  - by rewrite Hf12.
  - by rewrite Hq12.
  - rewrite Ht12, Ht11. unfold diff_events, diff_inputs. simpl.
    by rewrite <- !app_assoc.
  - eapply read_eof.
    + by rewrite Hf12, Hf11, lookup_insert_eq.
    + by rewrite Hq12, Hq11, lookup_insert_eq.
    + intros fd' d'. rewrite Hf12, Hf11, <- Hfds4, lookup_insert.
      destruct (decide (0 = fd')); [intros ?; by simplify_eq|].
      intros Hd' Hfile'. apply (new_pipe_unused w4 fd' d' Hd'). by rewrite Hfile'.
Qed.

End ChildProofs.

Section SpawnProofs.
Context (E : env).

Lemma forking_distinct w w' pa pb A B p :
  forking w w' pa pb A B p ->
  pa.1 ≠ pa.2 ∧ pa.1 ≠ pb.1 ∧ pa.1 ≠ pb.2 ∧ pa.2 ≠ pb.1 ∧ pa.2 ≠ pb.2 ∧ pb.1 ≠ pb.2.
Proof. by intros []. Qed.

Lemma forking_lookup w w' pa pb A B p :
  forking w w' pa pb A B p ->
  w_fds w' !! pa.1 = Some (FDesc (PipeRd A) true) ∧
  w_fds w' !! pa.2 = Some (FDesc (PipeWr A) true) ∧
  w_fds w' !! pb.1 = Some (FDesc (PipeRd B) true) ∧
  w_fds w' !! pb.2 = Some (FDesc (PipeWr B) true).
Proof.
  intros Hfk. pose proof (forking_distinct _ _ _ _ _ _ _ Hfk) as (?&?&?&?&?&?).
  destruct Hfk as [_ _ _ _ _ _ (Hf & _)]. rewrite Hf.
  split_and!; fd_lookup.
Qed.

Lemma forking_others w w' pa pb A B p fd :
  forking w w' pa pb A B p ->
  fd ≠ pa.1 -> fd ≠ pa.2 -> fd ≠ pb.1 -> fd ≠ pb.2 ->
  w_fds w' !! fd = w_fds w !! fd.
Proof.
  intros [_ _ _ _ _ _ (Hf & _)] ? ? ? ?. rewrite Hf.
  by rewrite !lookup_insert_ne.
Qed.

(** What [main] does with the value [fork] returned, before it goes on
    with [k]. *)
Lemma wp_fork_switch {B} (child : M unit) (k : Z -> M B) w
    (Q : B -> world -> Prop) (X : halt -> Prop) :
  (forall r w', (0 < r)%Z ->
     evolves w w' (w_fds w) (pipes_after_fork (w_fds w) (w_pipes w)) [EvFork r] ->
     wp (k r) w' Q X) ->
  (forall w',
     evolves w w' (w_fds w) (pipes_after_fork (w_fds w) (w_pipes w)) [EvFork 0] ->
     wp child w' (fun _ w'' => wp (k 0%Z) w'' Q X) X) ->
  (forall w' msg, X (Exit 1 (log (EvErr msg) w'))) ->
  wp (c ← fork E;
      (if (c =? -1)%Z then err 1 "fork"
       else if (c =? 0)%Z then child
       else mret tt) ;;
      k c) w Q X.
Proof.
  intros HP HC HX. apply wp_bind, wp_fork.
  - intros r w' Hr Hev. apply wp_bind.
    rewrite (proj2 (Z.eqb_neq r (-1))) by lia.
    destruct (Z.eqb_spec r 0) as [->|Hr0].
    + apply (HC w' Hev).
    + apply wp_ret. apply HP; [lia|done].
  - intros w' Hev. apply wp_bind. simpl. apply wp_err, HX.
Qed.

Lemma wp_main_spawn pl w0 w A B p ls ss (Q : Z -> world -> Prop) (X : halt -> Prop) :
  forking w0 w (pl_pa pl) (pl_pb pl) A B p ->
  args_holds (w_heap w) (pl_args pl) ls ss ->
  (* the parent *)
  (forall ca cb cdiff w',
     (0 < ca)%Z -> (0 < cb)%Z -> (0 < cdiff)%Z ->
     w_fds w' = w_fds w0 ->
     w_trace w' = w_trace w ++
       [EvFork ca; EvFork cb; EvFork cdiff;
        EvClose (pl_pa pl).1; EvClose (pl_pa pl).2;
        EvClose (pl_pb pl).1; EvClose (pl_pb pl).2;
        EvWaitpid cdiff (e_wait E cdiff)] ->
     Q 0%Z w') ->
  (* the first child *)
  (forall z r wr w',
     w_fds w' = <[0 := FDesc (PipeRd z) false]>
                  (<[1 := FDesc (PipeWr A) false]> (w_fds w)) ->
     w_pipes w' !! z = Some (PipeObj [] 0) ->
     w_trace w' = w_trace w ++
       EvFork 0 :: producer_events (pl_shell pl) (pl_cmda pl) (pl_pa pl).2 z r wr ->
     read w' 0 = ReadEof ->
     X (Exec (pl_shell pl) false [pl_shell pl; "-c"; pl_cmda pl] w')) ->
  (* the second child *)
  (forall ca z r wr w',
     (0 < ca)%Z ->
     w_fds w' = <[0 := FDesc (PipeRd z) false]>
                  (<[1 := FDesc (PipeWr B) false]> (w_fds w)) ->
     w_pipes w' !! z = Some (PipeObj [] 0) ->
     w_trace w' = w_trace w ++
       EvFork ca :: EvFork 0 ::
       producer_events (pl_shell pl) (pl_cmdb pl) (pl_pb pl).2 z r wr ->
     read w' 0 = ReadEof ->
     X (Exec (pl_shell pl) false [pl_shell pl; "-c"; pl_cmdb pl] w')) ->
  (* the third child *)
  (forall ca cb z r wr w',
     (0 < ca)%Z -> (0 < cb)%Z ->
     w_fds w' = <[0 := FDesc (PipeRd z) false]>
                  (<[4 := FDesc (PipeRd B) false]>
                     (<[3 := FDesc (PipeRd A) false]> (w_fds w))) ->
     w_pipes w' !! z = Some (PipeObj [] 0) ->
     w_trace w' = w_trace w ++
       EvFork ca :: EvFork cb :: EvFork 0 ::
       diff_events (ss ++ diff_inputs (pl_cmda pl) (pl_cmdb pl))
         (pl_pa pl).1 (pl_pb pl).1 z r wr ->
     read w' 0 = ReadEof ->
     X (Exec DIFF_CMD true (ss ++ diff_inputs (pl_cmda pl) (pl_cmdb pl)) w')) ->
  (forall w' msg, X (Exit 1 (log (EvErr msg) w'))) ->
  wp (main_spawn E pl) w Q X.
Proof.
  intros Hfk Hh HP HA HB HD HX.
  pose proof (forking_lookup _ _ _ _ _ _ _ Hfk) as (Hpa0 & Hpa1 & Hpb0 & Hpb1).
  pose proof (forking_distinct _ _ _ _ _ _ _ Hfk) as (?&?&?&?&?&?).
  pose proof (fk_above _ _ _ _ _ _ _ Hfk) as ((?&?)&(?&?)&(?&?)&(?&?)).
  pose proof (fk_unused _ _ _ _ _ _ _ Hfk) as (?&?&?&?).
  pose proof (fk_state _ _ _ _ _ _ _ Hfk) as (Hfw & _ & Hnw & _).
  unfold main_spawn.
  apply wp_fork_switch; [| |done].
  2:{ (* the first child *)
    intros w1 (Hf1 & Hq1 & Hn1 & Hh1 & Ht1).
    apply wp_producer; [|done].
    intros d z r wr w' Hd (Hf & Hq & _ & _ & Ht) Hread.
    rewrite Hf1, Hpa1 in Hd. injection Hd as <-.
    apply (HA z r wr w'); [by rewrite Hf, Hf1| |by rewrite Ht, Ht1, <- app_assoc|done].
    by rewrite Hq, lookup_insert_eq. }
  intros ca w1 Hca (Hf1 & Hq1 & Hn1 & Hh1 & Ht1).
  apply wp_fork_switch; [| |done].
  2:{ (* the second child *)
    intros w2 (Hf2 & Hq2 & Hn2 & Hh2 & Ht2).
    apply wp_producer; [|done].
    intros d z r wr w' Hd (Hf & Hq & _ & _ & Ht) Hread.
    rewrite Hf2, Hf1, Hpb1 in Hd. injection Hd as <-.
    apply (HB ca z r wr w'); [done|by rewrite Hf, Hf2, Hf1| | |done].
    - by rewrite Hq, lookup_insert_eq.
    - by rewrite Ht, Ht2, Ht1, <- !app_assoc. }
  intros cb w2 Hcb (Hf2 & Hq2 & Hn2 & Hh2 & Ht2).
  apply wp_fork_switch; [| |done].
  2:{ (* the third child *)
    intros w3 (Hf3 & Hq3 & Hn3 & Hh3 & Ht3).
    eapply (wp_diff_child E _ ls ss).
    - by rewrite Hh3, Hh2, Hh1.
    - rewrite Hf3, Hf2, Hf1. exact Hpa0.
    - rewrite Hf3, Hf2, Hf1. exact Hpb0.
    - rewrite Hn3, Hn2, Hn1, Hnw. done.
    - done.
    - intros z r wr w' Hf Hq Ht Hread.
      apply (HD ca cb z r wr w'); [done|done| | | |done].
      + by rewrite Hf, Hf3, Hf2, Hf1.
      + by rewrite Hq, lookup_insert_eq.
      + by rewrite Ht, Ht3, Ht2, Ht1, <- !app_assoc.
    - done. }
  intros cdiff w3 Hcd (Hf3 & Hq3 & Hn3 & Hh3 & Ht3).
  apply wp_bind, wp_close. intros w4 (Hf4 & Hq4 & Hn4 & Hh4 & Ht4).
  apply wp_bind, wp_close. intros w5 (Hf5 & Hq5 & Hn5 & Hh5 & Ht5).
  apply wp_bind, wp_close. intros w6 (Hf6 & Hq6 & Hn6 & Hh6 & Ht6).
  apply wp_bind, wp_close. intros w7 (Hf7 & Hq7 & Hn7 & Hh7 & Ht7).
  apply wp_bind, wp_waitpid. intros w8 (Hf8 & Hq8 & Hn8 & Hh8 & Ht8).
  apply wp_ret. apply (HP ca cb cdiff w8); [done..| |].
  - rewrite Hf8, Hf7, Hf6, Hf5, Hf4, Hf3, Hf2, Hf1, Hfw.
    apply map_eq. intros i. fd_lookup.
  - rewrite Ht8, Ht7, Ht6, Ht5, Ht4, Ht3, Ht2, Ht1. by rewrite <- !app_assoc.
Qed.

End SpawnProofs.

Section MainProofs.
Context (E : env).

Lemma wp_main_setup main_argv w (Q : plan -> world -> Prop) (X : halt -> Prop) :
  (forall a ls pa pb A B p w0 w1,
     3 <= length main_argv ->
     mem_only w w0 ->
     forking w0 w1 pa pb A B p ->
     args_holds (w_heap w1) a ls (DIFF_CMD :: diff_flags main_argv) ->
     Q (Plan a
          (arg main_argv (Z.of_nat (length main_argv) - 2))
          (arg main_argv (Z.of_nat (length main_argv) - 1))
          (default DEFAULT_SHELL (secure_getenv E "SHELL")) pa pb) w1) ->
  (forall w' msg, X (Exit 1 (log (EvErr msg) w'))) ->
  (length main_argv < 3 ->
     forall w', mem_only w w' -> X (Exit 2 (log (EvStderr (usage (arg main_argv 0))) w'))) ->
  wp (main_setup E main_argv) w Q X.
Proof.
  intros HQ HX HU. unfold main_setup.
  apply wp_bind, wp_main_args; [|intros; apply HX|done].
  intros a ls w0 Hlen Hh Hm.
  apply wp_bind, wp_main_pipes; [|done].
  intros pa pb A B p w1 Hfk. apply wp_ret.
  apply (HQ a ls pa pb A B p w0 w1); [done..|].
  destruct (fk_state _ _ _ _ _ _ _ Hfk) as (_ & _ & _ & Hheap & _).
  by rewrite Hheap.
Qed.

Lemma wp_main main_argv w (Q : Z -> world -> Prop) (X : halt -> Prop) :
  (forall a ls pa pb A B p w0 w1,
     3 <= length main_argv ->
     mem_only w w0 ->
     forking w0 w1 pa pb A B p ->
     args_holds (w_heap w1) a ls (DIFF_CMD :: diff_flags main_argv) ->
     wp (main_spawn E (Plan a
          (arg main_argv (Z.of_nat (length main_argv) - 2))
          (arg main_argv (Z.of_nat (length main_argv) - 1))
          (default DEFAULT_SHELL (secure_getenv E "SHELL")) pa pb)) w1 Q X) ->
  (forall w' msg, X (Exit 1 (log (EvErr msg) w'))) ->
  (length main_argv < 3 ->
     forall w', mem_only w w' -> X (Exit 2 (log (EvStderr (usage (arg main_argv 0))) w'))) ->
  wp (main E main_argv) w Q X.
Proof.
  intros HQ HX HU. unfold main. apply wp_bind, wp_main_setup; done.
Qed.

Lemma main_diff_exec main_argv w :
  wp (main E main_argv) w (fun _ _ => True) (diff_exec_post main_argv w).
Proof.
  apply wp_main; [|done..].
  intros a ls pa pb A B p w0 w1 Hlen (_ & _ & _ & Ht0) Hfk Hh.
  pose proof (fk_state _ _ _ _ _ _ _ Hfk) as (_ & _ & _ & _ & Ht1).
  eapply wp_main_spawn; [exact Hfk|exact Hh|done..| |done]. simpl.
  intros ca cb z r wr w' Hca Hcb Hf Hq Ht Hread.
  exists A, B, z, p, pa, pb, r, wr, ca, cb. split_and!; try done.
  - rewrite Ht, Ht1, Ht0. by rewrite <- !app_assoc.
  - rewrite Hf. fd_lookup.
  - rewrite Hf. fd_lookup.
  - by rewrite Hf, lookup_insert_eq.
Qed.

End MainProofs.

Lemma arg_lookup (main_argv : list string) (i : nat) s :
  main_argv !! i = Some s -> arg main_argv (Z.of_nat i) = s.
Proof. intros H. unfold arg. by rewrite Nat2Z.id, H. Qed.

Lemma arg_cmda prog flags cmda cmdb :
  arg (prog :: flags ++ [cmda; cmdb])
      (Z.of_nat (length (prog :: flags ++ [cmda; cmdb])) - 2) = cmda.
Proof.
  replace (Z.of_nat (length (prog :: flags ++ [cmda; cmdb])) - 2)%Z
    with (Z.of_nat (S (length flags))).
  - apply arg_lookup. simpl. rewrite lookup_app_r by lia.
    by rewrite Nat.sub_diag.
  - simpl. rewrite length_app. simpl. lia.
Qed.

Lemma arg_cmdb prog flags cmda cmdb :
  arg (prog :: flags ++ [cmda; cmdb])
      (Z.of_nat (length (prog :: flags ++ [cmda; cmdb])) - 1) = cmdb.
Proof.
  replace (Z.of_nat (length (prog :: flags ++ [cmda; cmdb])) - 1)%Z
    with (Z.of_nat (S (S (length flags)))).
  - apply arg_lookup. simpl. rewrite lookup_app_r by lia.
    by replace (S (length flags) - length flags) with 1 by lia.
  - simpl. rewrite length_app. simpl. lia.
Qed.

Lemma diff_flags_given prog flags cmda cmdb :
  flags ≠ [] -> diff_flags (prog :: flags ++ [cmda; cmdb]) = flags.
Proof.
  intros Hne. unfold diff_flags.
  assert (Hlen : length (prog :: flags ++ [cmda; cmdb]) = length flags + 3)
    by (simpl; rewrite length_app; simpl; lia).
  assert (0 < length flags) by (destruct flags; [done|simpl; lia]).
  rewrite (proj2 (Z.eqb_neq _ _)) by lia.
  rewrite Hlen. replace (length flags + 3 - 3) with (length flags) by lia.
  apply list_eq. intros i. rewrite list_lookup_fmap.
  destruct (decide (i < length flags)) as [Hi|Hi].
  - rewrite lookup_seq_lt by done. simpl.
    destruct (lookup_lt_is_Some_2 flags i Hi) as [s Hs]. rewrite Hs. f_equal.
    apply arg_lookup. simpl. by rewrite lookup_app_l.
  - rewrite lookup_seq_ge by lia. simpl. symmetry. apply lookup_ge_None. lia.
Qed.

Lemma diff_flags_default prog cmda cmdb : diff_flags [prog; cmda; cmdb] = ["-u"].
Proof. reflexivity. Qed.

(** C1.  In every run of [main] that gets to its first [fork], from any
    descriptor table and in any environment: the history since the start
    is exactly [setup_events]: for each of the two pipes a [pipe] call, an
    [F_DUPFD_CLOEXEC] duplication with floor [DIFF_MAXFD + 1] of each of the
    two descriptors [pipe] returned, and a [close] of those two, with no
    [fork] among these calls.  The four new descriptors are strictly above
    4, were unused before, are close-on-exec and refer to the pipe end
    whose original they duplicate ([pa] for the first pipe, [pb] for the
    second, read end first); the descriptors [pipe] returned are closed;
    all other descriptors are as they were; and [main] goes on from this
    state with the forks. *)
Theorem pipes_rehomed_above_diff_fds (E : env) (main_argv : list string) (w : world)
    (pl : plan) (w' : world) :
  main_setup E main_argv w = Ret pl w' ->
  exists (A B : nat) (p : nat * nat),
    w_trace w' = w_trace w ++ setup_events A B p (pl_pa pl) (pl_pb pl) ∧
    forks (setup_events A B p (pl_pa pl) (pl_pb pl)) = [] ∧
    (4 < (pl_pa pl).1 ∧ 4 < (pl_pa pl).2 ∧ 4 < (pl_pb pl).1 ∧ 4 < (pl_pb pl).2) ∧
    (w_fds w !! (pl_pa pl).1 = None ∧ w_fds w !! (pl_pa pl).2 = None ∧
     w_fds w !! (pl_pb pl).1 = None ∧ w_fds w !! (pl_pb pl).2 = None) ∧
    (w_fds w' !! (pl_pa pl).1 = Some (FDesc (PipeRd A) true) ∧
     w_fds w' !! (pl_pa pl).2 = Some (FDesc (PipeWr A) true) ∧
     w_fds w' !! (pl_pb pl).1 = Some (FDesc (PipeRd B) true) ∧
     w_fds w' !! (pl_pb pl).2 = Some (FDesc (PipeWr B) true)) ∧
    (A ≠ B ∧ (A ∉ pipes_in_use (w_fds w)) ∧ (B ∉ pipes_in_use (w_fds w))) ∧
    (w_fds w' !! p.1 = None ∧ w_fds w' !! p.2 = None) ∧
    (forall fd,
       fd ≠ (pl_pa pl).1 -> fd ≠ (pl_pa pl).2 -> fd ≠ (pl_pb pl).1 -> fd ≠ (pl_pb pl).2 ->
       w_fds w' !! fd = w_fds w !! fd) ∧
    main E main_argv w = main_spawn E pl w'.
Proof.
  intros Hrun.
  assert (Hmain : main E main_argv w = main_spawn E pl w').
  { unfold main. by rewrite bind_unfold, Hrun. }
  revert Hmain. from_ret Hrun. apply wp_main_setup; [|done..].
  clear pl w'. intros a ls pa pb A B p w0 w1 _ (Hf0 & Hq0 & Hn0 & Ht0) Hfk _ Hmain.
  pose proof (forking_lookup _ _ _ _ _ _ _ Hfk) as Hlook.
  pose proof (fk_above _ _ _ _ _ _ _ Hfk) as ((?&?)&(?&?)&(?&?)&(?&?)).
  pose proof (fk_unused _ _ _ _ _ _ _ Hfk) as Hun.
  pose proof (fk_new_A _ _ _ _ _ _ _ Hfk) as (_ & HA).
  pose proof (fk_new_B _ _ _ _ _ _ _ Hfk) as (_ & HB & HAB).
  pose proof (fk_closed _ _ _ _ _ _ _ Hfk) as Hcl.
  pose proof (fk_state _ _ _ _ _ _ _ Hfk) as (_ & _ & _ & _ & Ht).
  rewrite Hf0 in Hun, HA, HB. rewrite Ht0 in Ht. simpl in *.
  exists A, B, p. split_and!; try done; try (unfold DIFF_MAXFD in *; lia); try tauto.
  intros fd ? ? ? ?. rewrite <- Hf0. by eapply forking_others.
Qed.

Lemma pipes_rehomed_above_diff_fds_witness :
  exists pl w',
    main_setup env_diff_child demo_argv shell_world = Ret pl w' ∧
    4 < (pl_pa pl).1 ∧
    w_fds w' !! (pl_pa pl).1 = Some (FDesc (PipeRd 0) true).
Proof.
  assert (Hrun : exists pa1 pb w',
    main_setup env_diff_child demo_argv shell_world =
      Ret (Plan (Args 4 2 [Some 0; Some 1; None; Some 7])
                "echo hello" "echo world" "/bin/zsh" (5, pa1) pb) w')
    by (eexists _, _, _; vm_compute; reflexivity).
  destruct Hrun as (pa1 & pb & w' & Hrun). eexists _, w'. split; [exact Hrun|].
  destruct (pipes_rehomed_above_diff_fds env_diff_child demo_argv shell_world _ w' Hrun)
    as (A & B & p & Ht & _ & (Hlt & _) & _ & (Hpa & _) & _).
  split; [exact Hlt|].
  assert (HA : exists p0 p1 tr,
    w_trace w' = w_trace shell_world ++ EvPipe (Some (0, p0, p1)) :: tr).
  { revert Hrun. vm_compute. intros [= <- <- <-]. by eexists _, _, _. }
  destruct HA as (p0 & p1 & tr & HA). rewrite HA in Ht.
  apply app_inv_head in Ht. injection Ht as <- _. exact Hpa.
Defined.

(** The descriptors that are not close-on-exec pass to the next image. *)
Lemma fds_after_exec_keeps (t : gmap nat fdesc) fd f :
  t !! fd = Some (FDesc f false) -> fds_after_exec t !! fd = Some (FDesc f false).
Proof. intros H. unfold fds_after_exec. by apply map_lookup_filter_Some_2. Qed.

(** C2.  When a run of [main] ends in [execvp], the process is the third
    child (the first two forks returned a pid, the third returned 0) and
    the program it executes is diff.  Its history after the third [fork]
    is [diff_events]: [dup2] of the first pipe's read end [pa.1] to 3 and
    of the second pipe's read end [pb.1] to 4, [F_GETFD] and [F_SETFD]
    without [FD_CLOEXEC] on 3 and on 4, the calls of [closed_reader(0)],
    and last the [exec].  At the [exec], descriptor 3 is the read end of
    the first pipe and 4 the read end of the second, neither close-on-exec,
    so that both pass to diff; descriptor 0 reads end-of-stream; and the
    argument list is what [main] had collected (diff and its flags),
    followed by "--label", the first command and "/proc/self/fd/3", then
    "--label", the second command and "/proc/self/fd/4". *)
Theorem diff_child_binds_inputs (E : env) (main_argv : list string) (w : world)
    (file : string) (l : list string) (w' : world) :
  main E main_argv w = Halt (Exec file true l w') ->
  exists (A B z : nat) (p pa pb : nat * nat) (r wr : nat) (ca cb : Z),
    ((0 < ca)%Z ∧ (0 < cb)%Z ∧ file = DIFF_CMD) ∧
    w_trace w' = w_trace w ++ setup_events A B p pa pb ++
      [EvFork ca; EvFork cb; EvFork 0] ++ diff_events l pa.1 pb.1 z r wr ∧
    (w_fds w' !! 3 = Some (FDesc (PipeRd A) false) ∧
     w_fds w' !! 4 = Some (FDesc (PipeRd B) false)) ∧
    (fds_after_exec (w_fds w') !! 3 = Some (FDesc (PipeRd A) false) ∧
     fds_after_exec (w_fds w') !! 4 = Some (FDesc (PipeRd B) false)) ∧
    (w_fds w' !! 0 = Some (FDesc (PipeRd z) false) ∧ read w' 0 = ReadEof) ∧
    l = (DIFF_CMD :: diff_flags main_argv) ++
        ["--label"; arg main_argv (Z.of_nat (length main_argv) - 2); "/proc/self/fd/3";
         "--label"; arg main_argv (Z.of_nat (length main_argv) - 1); "/proc/self/fd/4"].
Proof.
  intros Hrun. pose proof (main_diff_exec E main_argv w) as Hwp.
  unfold wp in Hwp. rewrite Hrun in Hwp.
  destruct Hwp as (A & B & z & p & pa & pb & r & wr & ca & cb &
                   Hca & Hcb & -> & Hl & Ht & H3 & H4 & H0 & Hread).
  exists A, B, z, p, pa, pb, r, wr, ca, cb. split_and!; try done.
  - by apply fds_after_exec_keeps.
  - by apply fds_after_exec_keeps.
Qed.

Lemma diff_child_binds_inputs_witness :
  exists l w',
    main env_diff_child demo_argv shell_world = Halt (Exec DIFF_CMD true l w') ∧
    read w' 0 = ReadEof.
Proof.
  assert (Hrun : exists l w',
    main env_diff_child demo_argv shell_world = Halt (Exec DIFF_CMD true l w'))
    by (eexists _, _; vm_compute; reflexivity).
  destruct Hrun as (l & w' & Hrun). exists l, w'. split; [exact Hrun|].
  destruct (diff_child_binds_inputs env_diff_child demo_argv shell_world _ _ _ Hrun)
    as (A & B & z & p & pa & pb & r & wr & ca & cb & _ & _ & _ & _ & (_ & Hread) & _).
  exact Hread.
Defined.

(** C5.  When [main] is started with a non-empty list [flags] between the
    program name and the two commands, the argument list it passes to
    [execvp] is diff, then exactly [flags] in their order, then the two
    label and path groups. *)
Theorem flags_forwarded_in_order (E : env) (prog : string) (flags : list string)
    (cmda cmdb : string) (w : world) (file : string) (l : list string) (w' : world) :
  flags ≠ [] ->
  main E (prog :: flags ++ [cmda; cmdb]) w = Halt (Exec file true l w') ->
  l = DIFF_CMD :: flags ++
      ["--label"; cmda; "/proc/self/fd/3"; "--label"; cmdb; "/proc/self/fd/4"].
Proof.
  intros Hne Hrun.
  pose proof (main_diff_exec E (prog :: flags ++ [cmda; cmdb]) w) as Hwp.
  unfold wp in Hwp. rewrite Hrun in Hwp.
  destruct Hwp as (A & B & z & p & pa & pb & r & wr & ca & cb &
                   _ & _ & _ & Hl & _).
  by rewrite diff_flags_given, arg_cmda, arg_cmdb in Hl.
Qed.

Lemma flags_forwarded_in_order_witness :
  exists l w',
    main env_flags_child ("ediff" :: ["-y"; "-W"; "80"] ++ ["echo hello"; "echo world"])
      shell_world = Halt (Exec DIFF_CMD true l w') ∧
    l = ["diff"; "-y"; "-W"; "80";
         "--label"; "echo hello"; "/proc/self/fd/3";
         "--label"; "echo world"; "/proc/self/fd/4"].
Proof.
  assert (Hrun : exists l w',
    main env_flags_child ("ediff" :: ["-y"; "-W"; "80"] ++ ["echo hello"; "echo world"])
      shell_world = Halt (Exec DIFF_CMD true l w'))
    by (eexists _, _; vm_compute; reflexivity).
  destruct Hrun as (l & w' & Hrun). exists l, w'. split; [exact Hrun|].
  apply (flags_forwarded_in_order env_flags_child "ediff" ["-y"; "-W"; "80"]
           "echo hello" "echo world" shell_world DIFF_CMD l w'); [|exact Hrun].
  intros H. discriminate H.
Defined.

(** C6.  When [main] is started with the two commands only, the argument
    list it passes to [execvp] is diff, the single flag "-u", and the two
    label and path groups. *)
Theorem default_flag_is_unified (E : env) (prog cmda cmdb : string) (w : world)
    (file : string) (l : list string) (w' : world) :
  main E [prog; cmda; cmdb] w = Halt (Exec file true l w') ->
  l = [DIFF_CMD; "-u";
       "--label"; cmda; "/proc/self/fd/3"; "--label"; cmdb; "/proc/self/fd/4"].
Proof.
  intros Hrun. pose proof (main_diff_exec E [prog; cmda; cmdb] w) as Hwp.
  unfold wp in Hwp. rewrite Hrun in Hwp.
  destruct Hwp as (A & B & z & p & pa & pb & r & wr & ca & cb &
                   _ & _ & _ & Hl & _).
  exact Hl.
Qed.

Lemma default_flag_is_unified_witness :
  exists l w',
    main env_diff_child demo_argv shell_world = Halt (Exec DIFF_CMD true l w') ∧
    l = ["diff"; "-u";
         "--label"; "echo hello"; "/proc/self/fd/3";
         "--label"; "echo world"; "/proc/self/fd/4"].
Proof.
  assert (Hrun : exists l w',
    main env_diff_child demo_argv shell_world = Halt (Exec DIFF_CMD true l w'))
    by (eexists _, _; vm_compute; reflexivity).
  destruct Hrun as (l & w' & Hrun). exists l, w'. split; [exact Hrun|].
  apply (default_flag_is_unified env_diff_child "ediff" "echo hello" "echo world"
           shell_world DIFF_CMD l w' Hrun).
Defined.

Lemma main_usage_run (E : env) (main_argv : list string) (w : world) :
  length main_argv < 3 ->
  main E main_argv w =
    if e_grant E (w_tick w) then
      if e_grant E (S (w_tick w)) then
        Halt (Exit 2 (log (EvStderr (usage (arg main_argv 0)))
                (set_heap (<[fresh (dom (w_heap w)) := DIFF_CMD]> (w_heap w))
                   (bump (bump w)))))
      else Halt (Exit 1 (log (EvErr "malloc") (bump (bump w))))
    else Halt (Exit 1 (log (EvErr "calloc") (bump w))).
Proof.
  intros Hlen. unfold main, main_setup, main_args, args_init, args_add, calloc, strdup,
    store, assert, request.
  mrun. destruct (e_grant E (w_tick w)); mrun; [|done].
  destruct (e_grant E (S (w_tick w))); mrun; [|done].
  destruct (Z.ltb_spec (Z.of_nat (length main_argv)) 3) as [_|?]; [|lia].
  mrun. done.
Qed.

Section OutcomeProofs.
Context (E : env).

Lemma main_producer_exec main_argv w :
  wp (main E main_argv) w (fun _ _ => True) (producer_exec_post E main_argv w).
Proof.
  apply wp_main; [|done..].
  intros a ls pa pb A B p w0 w1 Hlen (_ & _ & _ & Ht0) Hfk Hh.
  pose proof (fk_state _ _ _ _ _ _ _ Hfk) as (_ & _ & _ & _ & Ht1).
  eapply wp_main_spawn; [exact Hfk|exact Hh|done| | |done|done]; simpl.
  - intros z r wr w' Hf Hq Ht Hread.
    eexists A, B, z, p, pa, pb, r, wr, [0%Z], _, pa.2, A. split_and!; try done.
    + by left.
    + rewrite Ht, Ht1, Ht0. by rewrite <- !app_assoc.
    + rewrite Hf. fd_lookup.
    + by rewrite Hf, lookup_insert_eq.
  - intros ca z r wr w' Hca Hf Hq Ht Hread.
    eexists A, B, z, p, pa, pb, r, wr, [ca; 0%Z], _, pb.2, B. split_and!; try done.
    + right. by exists ca.
    + rewrite Ht, Ht1, Ht0. by rewrite <- !app_assoc.
    + rewrite Hf. fd_lookup.
    + by rewrite Hf, lookup_insert_eq.
Qed.

Lemma main_outcomes main_argv w :
  wp (main E main_argv) w (main_ret_post E w) (main_halt_post main_argv w).
Proof.
  assert (Herr : forall w' msg, main_halt_post main_argv w (Exit 1 (log (EvErr msg) w'))).
  { intros w' msg. left. split; [done|]. exists msg. simpl. apply last_snoc. }
  apply wp_main; [|done|intros; by right].
  intros a ls pa pb A B p w0 w1 Hlen (Hf0 & _ & _ & Ht0) Hfk Hh.
  pose proof (fk_state _ _ _ _ _ _ _ Hfk) as (_ & _ & _ & _ & Ht1).
  eapply wp_main_spawn; [exact Hfk|exact Hh|..|done]; simpl.
  - intros ca cb cdiff w' Hca Hcb Hcd Hf Ht. split; [done|].
    exists A, B, p, pa, pb, ca, cb, cdiff. split_and!; try done.
    + rewrite Ht, Ht1, Ht0. by rewrite <- !app_assoc.
    + congruence.
  - intros z r wr w' _ _ Ht _. eexists. split.
    + rewrite Ht, Ht1, Ht0. rewrite <- !app_assoc. reflexivity.
    + apply elem_of_app. right. apply elem_of_cons. by left.
  - intros ca z r wr w' _ _ _ Ht _. eexists. split.
    + rewrite Ht, Ht1, Ht0. rewrite <- !app_assoc. reflexivity.
    + apply elem_of_app. right. rewrite !elem_of_cons. auto.
  - intros ca cb z r wr w' _ _ _ _ Ht _. eexists. split.
    + rewrite Ht, Ht1, Ht0. rewrite <- !app_assoc. reflexivity.
    + apply elem_of_app. right. rewrite !elem_of_cons. auto.
Qed.

Lemma producer_never_returns shell cmd pout w u w' :
  producer E shell cmd pout w ≠ Ret u w'.
Proof.
  intros Hrun.
  pose proof (wp_producer E shell cmd pout w (fun _ _ => False) (fun _ => True)) as Hwp.
  unfold wp in Hwp. rewrite Hrun in Hwp. by apply Hwp.
Qed.

End OutcomeProofs.

(** C3, as stated, fails: under secure execution [secure_getenv] hides
    SHELL, and the producer runs the default shell although the variable is
    set. *)
Lemma shell_ignored_under_secure_execution :
  ¬ shell_from_environment env_secure_child
      (main env_secure_child demo_argv shell_world).
Proof.
  intros Hclaim.
  assert (Hrun : exists l w',
    main env_secure_child demo_argv shell_world = Halt (Exec "/bin/sh" false l w')).
  { eexists _, _. vm_compute. reflexivity. }
  destruct Hrun as (l & w' & Hrun).
  specialize (Hclaim _ _ _ Hrun). vm_compute in Hclaim. discriminate Hclaim.
Qed.

(** C3, amended.  When a run of [main] ends in [execl], the process is the
    first child (the first [fork] returned 0) with the first command and
    the write end [pa.2] of the first pipe, or the second child (the second
    [fork] returned 0) with the second command and the write end [pb.2] of
    the second pipe.  After the fork its history is [producer_events]:
    [dup2] of the write end to 1, [F_GETFD] and [F_SETFD] without
    [FD_CLOEXEC] on 1, the calls of [closed_reader(0)], and last the
    [exec].  The image is the interpreter with the arguments "-c" and the
    command; the interpreter is what [secure_getenv("SHELL")] returns, that
    is the value of SHELL when it is set and secure execution is not
    required, and "/bin/sh" otherwise.  At the [exec] descriptor 1 is the
    write end of the pipe, not close-on-exec, and descriptor 0 reads
    end-of-stream.  [producer] never returns. *)
Theorem producer_child_execs_shell (E : env) (main_argv : list string) (w : world)
    (file : string) (l : list string) (w' : world) :
  main E main_argv w = Halt (Exec file false l w') ->
  (exists (A B z : nat) (p pa pb : nat * nat) (r wr : nat)
          (fk : list Z) (cmd : string) (pout P : nat),
     ((fk = [0%Z] ∧ cmd = arg main_argv (Z.of_nat (length main_argv) - 2) ∧
       pout = pa.2 ∧ P = A) ∨
      (exists ca, (0 < ca)%Z ∧ fk = [ca; 0%Z] ∧
         cmd = arg main_argv (Z.of_nat (length main_argv) - 1) ∧
         pout = pb.2 ∧ P = B)) ∧
     w_trace w' = w_trace w ++ setup_events A B p pa pb ++
       (EvFork <$> fk) ++ producer_events file cmd pout z r wr ∧
     file = default DEFAULT_SHELL (if e_secure E then None else e_environ E "SHELL") ∧
     l = [file; "-c"; cmd] ∧
     (w_fds w' !! 1 = Some (FDesc (PipeWr P) false) ∧
      fds_after_exec (w_fds w') !! 1 = Some (FDesc (PipeWr P) false)) ∧
     (w_fds w' !! 0 = Some (FDesc (PipeRd z) false) ∧ read w' 0 = ReadEof)) ∧
  (forall shell cmd pout w0 u w1, producer E shell cmd pout w0 ≠ Ret u w1).
Proof.
  intros Hrun. split; [|apply producer_never_returns].
  pose proof (main_producer_exec E main_argv w) as Hwp.
  unfold wp in Hwp. rewrite Hrun in Hwp.
  destruct Hwp as (A & B & z & p & pa & pb & r & wr & fk & cmd & pout & P &
                   Hwho & Ht & Hfile & Hl & H1 & H0 & Hread).
  exists A, B, z, p, pa, pb, r, wr, fk, cmd, pout, P. split_and!; try done.
  by apply fds_after_exec_keeps.
Qed.

Lemma producer_child_execs_shell_witness :
  exists file l w',
    main env_first_child demo_argv shell_world = Halt (Exec file false l w') ∧
    file = "/bin/zsh" ∧ read w' 0 = ReadEof.
Proof.
  assert (Hrun : exists file l w',
    main env_first_child demo_argv shell_world = Halt (Exec file false l w'))
    by (eexists _, _, _; vm_compute; reflexivity).
  destruct Hrun as (file & l & w' & Hrun). exists file, l, w'. split; [exact Hrun|].
  destruct (producer_child_execs_shell env_first_child demo_argv shell_world _ _ _ Hrun)
    as ((A & B & z & p & pa & pb & r & wr & fk & cmd & pout & P &
         _ & _ & Hfile & _ & _ & (_ & Hread)) & _).
  split; [exact Hfile|exact Hread].
Defined.

(** C4, as stated, fails: [main] builds the start of the argument vector
    before it looks at [argc], and when [calloc] fails there it exits with
    code 1. *)
Lemma usage_preempted_by_allocation_failure :
  length ["ediff"] < 3 ∧
  exit_status (main env_no_memory ["ediff"] shell_world) = Some 1%Z ∧
  ¬ usage_exit ["ediff"] shell_world (main env_no_memory ["ediff"] shell_world).
Proof.
  split; [simpl; lia|]. split; [vm_compute; reflexivity|].
  intros (w' & Hrun & _). vm_compute in Hrun. discriminate Hrun.
Qed.

(** C4, amended.  With fewer than two commands ([argc < 3]): when the two
    allocations [main] makes before it looks at [argc] are granted (the
    vector by [calloc], the copy of "diff" by [strdup]), it writes the usage
    message to standard error and exits with code 2; when one of them is
    refused, it exits with code 1 after the diagnostic of [err].  Either
    way the history gains that one message and nothing else (no [pipe], no
    [fork], no [exec]), and the descriptor table and the pipe objects are
    untouched. *)
Theorem usage_error_exit (E : env) (main_argv : list string) (w : world) :
  length main_argv < 3 ->
  exists w',
    (if e_grant E (w_tick w) && e_grant E (S (w_tick w))
     then main E main_argv w = Halt (Exit 2 w') ∧
          w_trace w' = w_trace w ++ [EvStderr (usage (arg main_argv 0))]
     else main E main_argv w = Halt (Exit 1 w') ∧
          exists msg, w_trace w' = w_trace w ++ [EvErr msg]) ∧
    w_fds w' = w_fds w ∧ w_pipes w' = w_pipes w.
Proof.
  intros Hlen. rewrite (main_usage_run E main_argv w Hlen).
  destruct (e_grant E (w_tick w)); simpl.
  - destruct (e_grant E (S (w_tick w))); simpl.
    + eexists. split; [split; reflexivity|]. done.
    + eexists. split; [split; [reflexivity|by eexists]|]. done.
  - eexists. split; [split; [reflexivity|by eexists]|]. done.
Qed.

Lemma usage_error_exit_witness :
  exists w',
    main quiet_env ["ediff"; "echo hello"] shell_world = Halt (Exit 2 w') ∧
    w_trace w' = [EvStderr (usage "ediff")].
Proof.
  destruct (usage_error_exit quiet_env ["ediff"; "echo hello"] shell_world)
    as (w' & Hrun & _).
  - simpl. lia.
  - exists w'. exact Hrun.
Defined.

(** C7.  A run of [main] that passes the usage check ends in one of three
    ways and no other.  It returns from [main]: then the value is 0, all
    three forks returned a pid, and the last thing it did, after closing
    its four pipe descriptors, was [waitpid] on the pid of the third child;
    the status [waitpid] stored, which the environment chooses freely, has
    no influence.  Or it stops in [err] with exit code 1 and a diagnostic
    as its last event: a fatal internal error.  Or it is a child (a [fork]
    returned 0) that replaced its image.  It never stops on an assertion or
    on a store outside the argument vector. *)
Theorem parent_exits_zero (E : env) (main_argv : list string) (w : world) :
  3 <= length main_argv ->
  match main E main_argv w with
  | Ret code w' =>
      code = 0%Z ∧
      exists (A B : nat) (p pa pb : nat * nat) (ca cb cdiff : Z),
        ((0 < ca)%Z ∧ (0 < cb)%Z ∧ (0 < cdiff)%Z) ∧
        w_trace w' = w_trace w ++ setup_events A B p pa pb ++
          [EvFork ca; EvFork cb; EvFork cdiff;
           EvClose pa.1; EvClose pa.2; EvClose pb.1; EvClose pb.2;
           EvWaitpid cdiff (e_wait E cdiff)] ∧
        w_fds w' = w_fds w
  | Halt (Exit code w') =>
      code = 1%Z ∧ exists msg, last (w_trace w') = Some (EvErr msg)
  | Halt (Exec _ _ _ w') =>
      exists evs, w_trace w' = w_trace w ++ evs ∧ EvFork 0 ∈ evs
  | Halt (Abort _) | Halt (Fault _) => False
  end.
Proof.
  intros Hlen. pose proof (main_outcomes E main_argv w) as Hwp.
  unfold wp in Hwp. destruct (main E main_argv w) as [code w'|[code w'| | |]];
    simpl in Hwp; try done.
  destruct Hwp as [H1|[_ H2]]; [done|lia].
Qed.

Lemma parent_exits_zero_witness :
  3 <= length demo_argv ∧
  exists code w',
    main quiet_env demo_argv shell_world = Ret code w' ∧ code = 0%Z ∧
    w_fds w' = w_fds shell_world.
Proof.
  assert (Hlen : 3 <= length demo_argv) by (simpl; lia).
  split; [exact Hlen|].
  pose proof (parent_exits_zero quiet_env demo_argv shell_world Hlen) as H.
  assert (Hrun : exists code w', main quiet_env demo_argv shell_world = Ret code w')
    by (eexists _, _; vm_compute; reflexivity).
  destruct Hrun as (code & w' & Hrun). rewrite Hrun in H.
  destruct H as (Hcode & A & B & p & pa & pb & ca & cb & cdiff & _ & _ & Hfds).
  exists code, w'. split; [exact Hrun|]. split; [exact Hcode|exact Hfds].
Defined.

(** * Contracts of the helper functions, and properties of whole runs *)

Lemma first_free_none (t : gmap nat fdesc) n k :
  first_free t n k = None -> all_used t n k.
Proof.
  revert n. induction k as [|k IH]; intros n; simpl.
  - intros _ m Hm. lia.
  - destruct (t !! n) eqn:Hn; [|done].
    intros H m Hm. destruct (decide (m = n)) as [->|]; [by rewrite Hn|].
    apply (IH (S n) H). lia.
Qed.

Lemma first_free_is_none (t : gmap nat fdesc) n k :
  all_used t n k -> first_free t n k = None.
Proof.
  intros Hall. destruct (first_free t n k) as [r|] eqn:Hr; [|done].
  apply first_free_spec in Hr as (Hr & Hfree & _).
  destruct (Hall r Hr) as [d Hd]. congruence.
Qed.

(** X1.  [clear_cloexec(fd)] on an open descriptor returns after one
    [F_GETFD] and one [F_SETFD]; the descriptor refers to the same file
    and is no longer close-on-exec, whatever the flag was; no other
    descriptor and no pipe object changes; and a second call returns too
    and changes nothing.  On a descriptor that is not open it stops in
    [err] with exit code 1 after the failed [F_GETFD], the table untouched.
    The [F_SETFD] diagnostic is never produced. *)
Theorem clear_cloexec_contract (fd : nat) (w : world) :
  match clear_cloexec fd w with
  | Ret _ w' =>
      exists d,
        w_fds w !! fd = Some d ∧
        w_fds w' = <[fd := FDesc (fd_file d) false]> (w_fds w) ∧
        w_pipes w' = w_pipes w ∧
        w_trace w' = w_trace w ++ [EvGetfd fd true; EvSetfd fd false true] ∧
        exists w'', clear_cloexec fd w' = Ret tt w'' ∧ w_fds w'' = w_fds w'
  | Halt h =>
      w_fds w !! fd = None ∧
      h = Exit 1 (log (EvErr "fcntl F_GETFD") (log (EvGetfd fd false) w))
  end.
Proof.
  assert (Hrun : forall w0 f c,
    w_fds w0 !! fd = Some (FDesc f c) ->
    clear_cloexec fd w0 =
      Ret tt (log (EvSetfd fd false true)
                (set_fds (<[fd := FDesc f false]> (w_fds w0))
                   (log (EvGetfd fd true) w0)))).
  { intros w0 f c Hd. unfold clear_cloexec, fcntl_getfd, fcntl_setfd.
    mrun. rewrite Hd. destruct c; mrun; rewrite Hd; by mrun. }
  destruct (w_fds w !! fd) as [[f c]|] eqn:Hd.
  - rewrite (Hrun w f c Hd). exists (FDesc f c). simpl.
    split_and!; try done; [by rewrite <- app_assoc|].
    eexists. split.
    + apply (Hrun _ f false). simpl. apply lookup_insert_eq.
    + simpl. by rewrite insert_insert_eq.
  - unfold clear_cloexec, fcntl_getfd. mrun. rewrite Hd. by mrun.
Qed.


(** X3.  [closed_reader(fd)] stops only in [err] with exit code 1.
    Either [pipe] failed (the environment refused, or fewer than two
    descriptor numbers below the limit are unused): then the failed [pipe]
    and its diagnostic are all that happened and the table is untouched.
    Or [fd] is at or above the descriptor limit and [dup2] failed.  For a
    descriptor below the limit, as 0 always is once [pipe] has succeeded,
    only the first case arises. *)
Theorem closed_reader_failure (E : env) (fd : nat) (w : world) :
  match closed_reader E fd w with
  | Ret _ _ => True
  | Halt h =>
      (h = Exit 1 (log (EvErr "pipe") (log (EvPipe None) (bump w))) ∧
       (e_grant E (w_tick w) = false ∨
        forall r wr, r < w_nofile w -> wr < w_nofile w -> r ≠ wr ->
          is_Some (w_fds w !! r) ∨ is_Some (w_fds w !! wr))) ∨
      (w_nofile w <= fd ∧
       exists w', h = Exit 1 w' ∧ last (w_trace w') = Some (EvErr "dup2"))
  end.
Proof.
  unfold closed_reader, pipe, request. mrun.
  destruct (first_free (w_fds w) 0 (w_nofile w)) as [r|] eqn:Hr.
  2:{ mrun. left. split; [done|]. right.
      intros r0 wr0 Hr0 _ _. left. apply (first_free_none _ _ _ Hr). lia. }
  destruct (first_free (<[r := _]> (w_fds w)) 0 (w_nofile w)) as [wr|] eqn:Hwr.
  2:{ mrun. left. split; [done|]. right.
      intros r0 wr0 Hr0 Hwr0 Hne.
      apply first_free_spec in Hr as (_ & _ & Hmin).
      pose proof (first_free_none _ _ _ Hwr) as Hall.
      destruct (decide (r0 = r)) as [->|Hr0r].
      - right. destruct (Hall wr0) as [d Hd]; [lia|].
        rewrite lookup_insert_ne in Hd by done. by eexists.
      - left. destruct (Hall r0) as [d Hd]; [lia|].
        rewrite lookup_insert_ne in Hd by done. by eexists. }
  destruct (e_grant E (w_tick w)) eqn:Hg; mrun.
  2:{ left. by auto. }
  unfold close, dup2. mrun.
  destruct (decide (fd = r)) as [->|Hfd].
  - rewrite bool_decide_eq_false_2 by (by intros ?). by mrun.
  - rewrite bool_decide_eq_true_2 by done. mrun.
    apply first_free_spec in Hr as (_ & Hrfree & _).
    apply first_free_spec in Hwr as (_ & Hwrfree & _).
    assert (r ≠ wr) by (intros ->; by rewrite lookup_insert_eq in Hwrfree).
    rewrite lookup_delete_ne, lookup_insert_ne, lookup_insert_eq by done.
    destruct (decide (fd < w_nofile w)) as [Hlim|Hlim].
    + rewrite (bool_decide_eq_true_2 _ Hlim). mrun.
      rewrite (bool_decide_eq_false_2 (r = fd)) by done. mrun.
      rewrite (proj2 (Z.eqb_neq _ _)) by lia. by mrun.
    + rewrite (bool_decide_eq_false_2 _ Hlim). mrun.
      right. split; [lia|]. eexists. split; [done|].
      simpl. apply last_snoc.
Qed.

(** X4.  [producer(shell, cmd, pout)], for any descriptor [pout] and any
    table, never returns.  When it ends in [exec], the image is [shell]
    with the arguments "-c" and [cmd]; descriptor 1 refers to the file
    [pout] referred to and is not close-on-exec, also when [pout] is 1
    itself and was close-on-exec; descriptor 0 is the read end of a new
    pipe and reads end-of-stream; every other descriptor, [pout] included,
    is as it was.  Otherwise it stops in [err] with exit code 1; when
    [pout] is not open, the failed [dup2] and its diagnostic are all that
    happened. *)
Theorem producer_contract (E : env) (shell cmd : string) (pout : nat) (w : world) :
  match producer E shell cmd pout w with
  | Ret _ _ => False
  | Halt (Exec file search l w') =>
      (file = shell ∧ search = false ∧ l = [shell; "-c"; cmd]) ∧
      exists d z,
        w_fds w !! pout = Some d ∧
        w_fds w' = <[0 := FDesc (PipeRd z) false]>
                     (<[1 := FDesc (fd_file d) false]> (w_fds w)) ∧
        read w' 0 = ReadEof
  | Halt (Exit code w') =>
      code = 1%Z ∧
      (exists msg, last (w_trace w') = Some (EvErr msg)) ∧
      (w_fds w !! pout = None ->
       w' = log (EvErr "dup2") (log (EvDup2 pout 1 false) w))
  | Halt _ => False
  end.
Proof.
  destruct (w_fds w !! pout) as [d0|] eqn:Hpout.
  - change (wp (producer E shell cmd pout) w (fun _ _ => False)
      (fun h => match h with
                | Exec file search l w' =>
                    (file = shell ∧ search = false ∧ l = [shell; "-c"; cmd]) ∧
                    exists d z,
                      Some d0 = Some d ∧
                      w_fds w' = <[0 := FDesc (PipeRd z) false]>
                                   (<[1 := FDesc (fd_file d) false]> (w_fds w)) ∧
                      read w' 0 = ReadEof
                | Exit code w' =>
                    code = 1%Z ∧
                    (exists msg, last (w_trace w') = Some (EvErr msg)) ∧
                    (Some d0 = None ->
                     w' = log (EvErr "dup2") (log (EvDup2 pout 1 false) w))
                | _ => False
                end)).
    apply wp_producer.
    + intros d z r wr w' Hd (Hf & _) Hread. split; [done|].
      exists d, z. split_and!; try done. congruence.
    + intros w' msg. split_and!; [done| |done].
      exists msg. simpl. apply last_snoc.
  - unfold producer, dup2. mrun. rewrite Hpout. mrun.
    split_and!; try done. eexists. apply last_snoc.
Qed.

Lemma main_exec_tables (E : env) (main_argv : list string) (w : world) :
  wp (main E main_argv) w (fun _ _ => True) (exec_table_post main_argv w).
Proof.
  apply wp_main; [|done..].
  intros a ls pa pb A B p w0 w1 Hlen (Hf0 & _ & _ & Ht0) Hfk Hh.
  pose proof (fk_state _ _ _ _ _ _ _ Hfk) as (Hf1 & _ & _ & _ & Ht1).
  pose proof (fk_new_A _ _ _ _ _ _ _ Hfk) as (_ & HA).
  pose proof (fk_new_B _ _ _ _ _ _ _ Hfk) as (_ & HB & HAB).
  pose proof (fk_unused _ _ _ _ _ _ _ Hfk) as Hun.
  pose proof (fk_distinct _ _ _ _ _ _ _ Hfk) as (?&?&?&?&?&?).
  pose proof (fk_above _ _ _ _ _ _ _ Hfk) as ((?&?)&(?&?)&(?&?)&(?&?)).
  rewrite Hf0 in Hf1, HA, HB, Hun. destruct Hun as (?&?&?&?).
  eapply wp_main_spawn; [exact Hfk|exact Hh|done|..|done]; simpl.
  - intros z r wr w' Hf Hq Ht Hread.
    exists A, B, z, p, pa, pb. eexists. split_and!; try done.
    + rewrite Ht, Ht1, Ht0, <- !app_assoc. reflexivity.
    + exists A. split; [by left|]. by rewrite Hf, Hf1.
  - intros ca z r wr w' _ Hf Hq Ht Hread.
    exists A, B, z, p, pa, pb. eexists. split_and!; try done.
    + rewrite Ht, Ht1, Ht0, <- !app_assoc. reflexivity.
    + exists B. split; [by right|]. by rewrite Hf, Hf1.
  - intros ca cb z r wr w' _ _ Hf Hq Ht Hread.
    exists A, B, z, p, pa, pb. eexists. split_and!; try done.
    + rewrite Ht, Ht1, Ht0, <- !app_assoc. reflexivity.
    + by rewrite Hf, Hf1.
Qed.

Lemma fds_after_exec_lookup (t : gmap nat fdesc) fd :
  fds_after_exec t !! fd =
    match t !! fd with
    | Some d => if fd_cloexec d then None else Some d
    | None => None
    end.
Proof.
  unfold fds_after_exec. destruct (t !! fd) as [d|] eqn:Hd.
  - destruct (fd_cloexec d) eqn:Hc.
    + apply map_lookup_filter_None. right. intros d' Hd'. simpl.
      assert (d' = d) as -> by congruence. by rewrite Hc.
    + by apply map_lookup_filter_Some_2.
  - apply map_lookup_filter_None. by left.
Qed.

(** A descriptor that reads end-of-stream is the read end of a pipe of
    which the process holds no write end. *)
Lemma read_eof_no_writer w fd :
  read w fd = ReadEof ->
  exists z c,
    w_fds w !! fd = Some (FDesc (PipeRd z) c) ∧
    forall fd' d, w_fds w !! fd' = Some d -> fd_file d ≠ PipeWr z.
Proof.
  unfold read. destruct (w_fds w !! fd) as [[[n|z|z] c]|] eqn:Hfd; try done.
  destruct (w_pipes w !! z) as [[buf far]|]; [|done]. simpl.
  destruct buf; [|done]. case_bool_decide as Hw; [|done]. intros _.
  exists z, c. split; [done|]. intros fd' d Hd Hfile.
  destruct Hw as [_ Hw]. unfold local_writers in Hw.
  apply map_size_empty_iff in Hw.
  assert (Hin : filter (fun kv => fd_file kv.2 = PipeWr z) (w_fds w) !! fd' = Some d)
    by (by apply map_lookup_filter_Some_2).
  by rewrite Hw, lookup_empty in Hin.
Qed.

Lemma forked_table_inherited (t : gmap nat fdesc) A B pa pb fd :
  t !! pa.1 = None -> t !! pa.2 = None -> t !! pb.1 = None -> t !! pb.2 = None ->
  fds_after_exec (forked_table t A B pa pb) !! fd = fds_after_exec t !! fd.
Proof.
  intros H1 H2 H3 H4. rewrite !fds_after_exec_lookup. unfold forked_table.
  destruct (decide (fd = pb.2)) as [->|?]; [by rewrite lookup_insert_eq, H4|].
  rewrite lookup_insert_ne by done.
  destruct (decide (fd = pb.1)) as [->|?]; [by rewrite lookup_insert_eq, H3|].
  rewrite lookup_insert_ne by done.
  destruct (decide (fd = pa.2)) as [->|?]; [by rewrite lookup_insert_eq, H2|].
  rewrite lookup_insert_ne by done.
  destruct (decide (fd = pa.1)) as [->|?]; [by rewrite lookup_insert_eq, H1|].
  by rewrite lookup_insert_ne.
Qed.

Lemma inherited_not_pipe (t : gmap nat fdesc) A fd d :
  A ∉ pipes_in_use t -> fds_after_exec t !! fd = Some d ->
  fd_file d ≠ PipeWr A ∧ fd_file d ≠ PipeRd A.
Proof.
  intros HA Hd. rewrite fds_after_exec_lookup in Hd.
  destruct (t !! fd) as [d'|] eqn:Hfd; [|done].
  destruct (fd_cloexec d'); [done|]. injection Hd as ->.
  split; intros Hfile; apply HA, pipes_in_use_spec; exists fd, d;
    (split; [done|]); by rewrite Hfile.
Qed.

(** X5.  What diff is started with.  When a run of [main] ends in
    [execvp], the descriptors that pass to the new image are: 0, the read
    end of the pipe [closed_reader] made; 3 and 4, the read ends of the
    two pipes; and the descriptors [main] was started with that were not
    close-on-exec, other than 0, 3 and 4.  None of the descriptors [pa],
    [pb] that [main] made for the pipes passes on, and diff holds no write
    end of either pipe nor of the pipe behind its standard input, so that
    end-of-stream reaches it once the producers are done. *)
Theorem diff_inherits (E : env) (main_argv : list string) (w : world)
    (file : string) (l : list string) (w' : world) :
  main E main_argv w = Halt (Exec file true l w') ->
  exists (A B z : nat) (p pa pb : nat * nat) (rest : list event),
    w_trace w' = w_trace w ++ setup_events A B p pa pb ++ rest ∧
    (forall fd,
       fds_after_exec (w_fds w') !! fd =
         if decide (fd = 0) then Some (FDesc (PipeRd z) false)
         else if decide (fd = 3) then Some (FDesc (PipeRd A) false)
         else if decide (fd = 4) then Some (FDesc (PipeRd B) false)
         else fds_after_exec (w_fds w) !! fd) ∧
    (fds_after_exec (w_fds w') !! pa.1 = None ∧ fds_after_exec (w_fds w') !! pa.2 = None ∧
     fds_after_exec (w_fds w') !! pb.1 = None ∧ fds_after_exec (w_fds w') !! pb.2 = None) ∧
    (forall fd d,
       fds_after_exec (w_fds w') !! fd = Some d ->
       fd_file d ≠ PipeWr A ∧ fd_file d ≠ PipeWr B ∧ fd_file d ≠ PipeWr z).
Proof.
  intros Hrun. pose proof (main_exec_tables E main_argv w) as Hwp.
  unfold wp in Hwp. rewrite Hrun in Hwp.
  destruct Hwp as (A & B & z & p & pa & pb & rest & (HAB & HA & HB) &
                   (Hu1 & Hu2 & Hu3 & Hu4) & (Ha1 & Ha2 & Ha3 & Ha4) & Hdis &
                   Ht & Hread & Hf).
  unfold DIFF_MAXFD in *.
  assert (Hlook : forall fd,
    fds_after_exec (w_fds w') !! fd =
      if decide (fd = 0) then Some (FDesc (PipeRd z) false)
      else if decide (fd = 3) then Some (FDesc (PipeRd A) false)
      else if decide (fd = 4) then Some (FDesc (PipeRd B) false)
      else fds_after_exec (w_fds w) !! fd).
  { intros fd. rewrite <- (forked_table_inherited (w_fds w) A B pa pb fd) by done.
    rewrite !(fds_after_exec_lookup _ fd), Hf.
    repeat (case_decide; [subst; by rewrite ?lookup_insert_ne, ?lookup_insert_eq by done|]).
    by rewrite !lookup_insert_ne. }
  assert (Hnone : forall fd, 4 < fd -> w_fds w !! fd = None ->
                             fds_after_exec (w_fds w') !! fd = None).
  { intros fd Hfd Hfree. rewrite Hlook.
    repeat (case_decide; [lia|]). by rewrite fds_after_exec_lookup, Hfree. }
  exists A, B, z, p, pa, pb, rest. split_and!; try done; try by apply Hnone.
  intros fd d Hd.
  destruct (read_eof_no_writer w' 0 Hread) as (z' & c & H0 & Hnw).
  assert (z' = z) as ->.
  { rewrite Hf, lookup_insert_eq in H0. by injection H0. }
  assert (Hin : w_fds w' !! fd = Some d).
  { rewrite fds_after_exec_lookup in Hd. destruct (w_fds w' !! fd) as [d'|]; [|done].
    destruct (fd_cloexec d'); [done|]. by injection Hd as ->. }
  split_and!; [| |by apply (Hnw fd)].
  - rewrite Hlook in Hd. repeat (case_decide; [by injection Hd as <-|]).
    by apply (inherited_not_pipe _ A fd d HA).
  - rewrite Hlook in Hd. repeat (case_decide; [by injection Hd as <-|]).
    by apply (inherited_not_pipe _ B fd d HB).
Qed.

Lemma diff_inherits_witness :
  exists l w',
    main env_diff_child demo_argv shell_world = Halt (Exec DIFF_CMD true l w') ∧
    fds_after_exec (w_fds w') !! 2 = Some (std_fd 2) ∧
    fds_after_exec (w_fds w') !! 5 = None.
Proof.
  assert (Hrun : exists l w',
    main env_diff_child demo_argv shell_world = Halt (Exec DIFF_CMD true l w'))
    by (eexists _, _; vm_compute; reflexivity).
  destruct Hrun as (l & w' & Hrun). exists l, w'. split; [exact Hrun|].
  destruct (diff_inherits env_diff_child demo_argv shell_world _ _ _ Hrun)
    as (A & B & z & p & pa & pb & rest & _ & Hlook & _).
  rewrite !Hlook. split; reflexivity.
Defined.

(** X6.  What a producer's shell is started with.  When a run of [main]
    ends in [execl], the descriptors that pass to the new image are: 0,
    the read end of the pipe [closed_reader] made; 1, the write end of
    this producer's pipe; and the descriptors [main] was started with that
    were not close-on-exec, other than 0 and 1.  The shell holds no read
    end of either pipe, and no write end of a pipe beside the one at 1: in
    particular not the other producer's. *)
Theorem shell_inherits (E : env) (main_argv : list string) (w : world)
    (file : string) (l : list string) (w' : world) :
  main E main_argv w = Halt (Exec file false l w') ->
  exists (A B z P : nat) (p pa pb : nat * nat) (rest : list event),
    w_trace w' = w_trace w ++ setup_events A B p pa pb ++ rest ∧
    (P = A ∨ P = B) ∧
    (forall fd,
       fds_after_exec (w_fds w') !! fd =
         if decide (fd = 0) then Some (FDesc (PipeRd z) false)
         else if decide (fd = 1) then Some (FDesc (PipeWr P) false)
         else fds_after_exec (w_fds w) !! fd) ∧
    (forall fd d,
       fds_after_exec (w_fds w') !! fd = Some d ->
       (fd_file d ≠ PipeRd A ∧ fd_file d ≠ PipeRd B ∧ fd_file d ≠ PipeWr z) ∧
       (fd_file d = PipeWr A ∨ fd_file d = PipeWr B -> fd = 1 ∧ fd_file d = PipeWr P)).
Proof.
  intros Hrun. pose proof (main_exec_tables E main_argv w) as Hwp.
  unfold wp in Hwp. rewrite Hrun in Hwp.
  destruct Hwp as (A & B & z & p & pa & pb & rest & (HAB & HA & HB) &
                   (Hu1 & Hu2 & Hu3 & Hu4) & (Ha1 & Ha2 & Ha3 & Ha4) & Hdis &
                   Ht & Hread & P & HP & Hf).
  unfold DIFF_MAXFD in *.
  assert (Hlook : forall fd,
    fds_after_exec (w_fds w') !! fd =
      if decide (fd = 0) then Some (FDesc (PipeRd z) false)
      else if decide (fd = 1) then Some (FDesc (PipeWr P) false)
      else fds_after_exec (w_fds w) !! fd).
  { intros fd. rewrite <- (forked_table_inherited (w_fds w) A B pa pb fd) by done.
    rewrite !(fds_after_exec_lookup _ fd), Hf.
    repeat (case_decide; [subst; by rewrite ?lookup_insert_ne, ?lookup_insert_eq by done|]).
    by rewrite !lookup_insert_ne. }
  exists A, B, z, P, p, pa, pb, rest. split_and!; try done.
  intros fd d Hd.
  destruct (read_eof_no_writer w' 0 Hread) as (z' & c & H0 & Hnw).
  assert (z' = z) as ->.
  { rewrite Hf, lookup_insert_eq in H0. by injection H0. }
  assert (Hin : w_fds w' !! fd = Some d).
  { rewrite fds_after_exec_lookup in Hd. destruct (w_fds w' !! fd) as [d'|]; [|done].
    destruct (fd_cloexec d'); [done|]. by injection Hd as ->. }
  assert (HzB : z ≠ B).
  { intros ->. apply (Hnw (pb.2) (FDesc (PipeWr B) true)); [|done].
    rewrite Hf, !lookup_insert_ne by lia. unfold forked_table.
    by rewrite lookup_insert_eq. }
  assert (HzA : z ≠ A).
  { intros ->. apply (Hnw (pa.2) (FDesc (PipeWr A) true)); [|done].
    destruct Hdis as (_ & _ & _ & ? & ? & _).
    rewrite Hf, !lookup_insert_ne by lia. unfold forked_table.
    by rewrite !lookup_insert_ne, lookup_insert_eq by done. }
  rewrite Hlook in Hd.
  destruct (decide (fd = 0)) as [->|?].
  { injection Hd as <-. simpl. split; [split_and!; congruence|]. by intros [?|?]. }
  destruct (decide (fd = 1)) as [->|?].
  { injection Hd as <-. simpl. split; [|done].
    split_and!; [done|done|]. apply (Hnw 1 _ Hin). }
  destruct (inherited_not_pipe _ A fd d HA Hd) as [? ?].
  destruct (inherited_not_pipe _ B fd d HB Hd) as [? ?].
  split; [split_and!; [done|done|by apply (Hnw fd)]|]. by intros [?|?].
Qed.

Lemma shell_inherits_witness :
  exists file l w',
    main env_first_child demo_argv shell_world = Halt (Exec file false l w') ∧
    fds_after_exec (w_fds w') !! 2 = Some (std_fd 2) ∧
    fds_after_exec (w_fds w') !! 7 = None.
Proof.
  assert (Hrun : exists file l w',
    main env_first_child demo_argv shell_world = Halt (Exec file false l w'))
    by (eexists _, _, _; vm_compute; reflexivity).
  destruct Hrun as (file & l & w' & Hrun). exists file, l, w'. split; [exact Hrun|].
  destruct (shell_inherits env_first_child demo_argv shell_world _ _ _ Hrun)
    as (A & B & z & P & p & pa & pb & rest & _ & _ & Hlook & _).
  rewrite !Hlook. split; reflexivity.
Defined.

Section ArgsGrowth.
Context (E : env).

(** [args_add] with its requests counted, and with the reason for each way
    it stops. *)
Lemma wp_args_add_requests a s w (Q : args -> world -> Prop) (X : halt -> Prop) :
  args_wf a ->
  (forall a' w',
     capacity a' = (if (argc a + 1 =? capacity a)%Z then 2 * capacity a else capacity a)%Z ->
     argc a' = (argc a + 1)%Z ->
     args_wf a' ->
     w_tick w' = w_tick w + (if (argc a + 1 =? capacity a)%Z then 2 else 1) ->
     mem_only w w' ->
     Q a' w') ->
  (forall w' msg,
     mem_only w w' ->
     msg = "realloc" ∨ msg = "malloc" ->
     w_tick w < w_tick w' <= w_tick w + 2 ->
     e_grant E (w_tick w' - 1) = false ∨
     (argc a + 1 = capacity a ∧ PTRDIFF_MAX < capacity a * 2 * PTR_SIZE)%Z ∨
     (PTRDIFF_MAX < Z.of_nat (String.length s) + 1)%Z ->
     X (Exit 1 (log (EvErr msg) w'))) ->
  wp (args_add E a s) w Q X.
Proof.
  intros (Hc & Hcap & Hlen) HQ HX.
  unfold PTR_SIZE, PTRDIFF_MAX in Hcap.
  unfold wp, args_add, assert. rewrite bind_unfold.
  destruct (Z.ltb_spec (argc a) (capacity a)) as [_|?]; [|lia].
  rewrite bind_unfold.
  rewrite (size_wrap_small (argc a + 1)) by (unfold SIZE_MAX; lia).
  destruct (Z.eqb_spec (argc a + 1) (capacity a)) as [Hfull|Hroom].
  - rewrite (size_wrap_small (capacity a * 2)) by (unfold SIZE_MAX; lia).
    rewrite (size_wrap_small (capacity a * 2 * PTR_SIZE)) by (unfold SIZE_MAX, PTR_SIZE; lia).
    unfold realloc, request, get. rewrite !bind_unfold.
    destruct (e_grant E (w_tick w)) eqn:Hg; simpl;
      [|apply (HX (bump w)); [done|auto|simpl; lia|left; by replace (w_tick (bump w) - 1) with (w_tick w) by (simpl; lia)]].
    destruct (Z.ltb_spec 0 (capacity a * 2 * PTR_SIZE)) as [_|?];
      [|unfold PTR_SIZE in *; lia]; simpl.
    destruct (Z.leb_spec (capacity a * 2 * PTR_SIZE) PTRDIFF_MAX) as [Hfit|?]; simpl;
      [|apply (HX (bump w)); [done|auto|simpl; lia|auto]].
    unfold PTR_SIZE, PTRDIFF_MAX in Hfit.
    replace (capacity a * 2 * PTR_SIZE / PTR_SIZE)%Z with (capacity a * 2)%Z
      by (unfold PTR_SIZE; rewrite Z.div_mul; lia).
    rewrite take_ge by lia.
    set (arr := argv a ++ _).
    assert (Harr : length arr = Z.to_nat (capacity a * 2)).
    { unfold arr. rewrite length_app, length_fmap, length_seq. lia. }
    clearbody arr.
    unfold strdup, request, get, modify. rewrite !bind_unfold. simpl.
    destruct (e_grant E (S (w_tick w))) eqn:Hg2; simpl;
      [|apply (HX (bump (bump w))); [done|auto|simpl; lia|left; by replace (w_tick (bump (bump w)) - 1) with (S (w_tick w)) by (simpl; lia)]].
    destruct (Z.leb_spec (Z.of_nat (String.length s) + 1) PTRDIFF_MAX) as [_|?]; simpl;
      [|apply (HX (bump (bump w))); [done|auto|simpl; lia|auto]].
    rewrite (size_wrap_small (argc a + 1)) by (unfold SIZE_MAX; lia).
    rewrite (size_wrap_small (argc a + 1 - 1)) by (unfold SIZE_MAX; lia).
    unfold store. rewrite !bind_unfold.
    destruct (Z.leb_spec 0 (argc a + 1 - 1)) as [_|?]; [|lia].
    destruct (Z.ltb_spec (argc a + 1 - 1) (Z.of_nat (length arr))) as [_|?]; [|lia].
    simpl. rewrite length_insert.
    destruct (Z.leb_spec 0 (argc a + 1)) as [_|?]; [|lia].
    destruct (Z.ltb_spec (argc a + 1) (Z.of_nat (length arr))) as [_|?]; [|lia].
    simpl. apply HQ; simpl.
    + lia.
    + done.
    + unfold args_wf. simpl. rewrite !length_insert.
      unfold PTR_SIZE, PTRDIFF_MAX. lia.
    + lia.
    + done.
  - mstep. unfold strdup, request, get, modify. mstep. simpl.
    destruct (e_grant E (w_tick w)) eqn:Hg2; simpl;
      [|apply (HX (bump w)); [done|auto|simpl; lia|left; by replace (w_tick (bump w) - 1) with (w_tick w) by (simpl; lia)]].
    destruct (Z.leb_spec (Z.of_nat (String.length s) + 1) PTRDIFF_MAX) as [_|?]; simpl;
      [|apply (HX (bump w)); [done|auto|simpl; lia|auto]].
    rewrite (size_wrap_small (argc a + 1)) by (unfold SIZE_MAX; lia).
    rewrite (size_wrap_small (argc a + 1 - 1)) by (unfold SIZE_MAX; lia).
    unfold store. rewrite !bind_unfold.
    destruct (Z.leb_spec 0 (argc a + 1 - 1)) as [_|?]; [|lia].
    destruct (Z.ltb_spec (argc a + 1 - 1) (Z.of_nat (length (argv a)))) as [_|?]; [|lia].
    simpl. rewrite length_insert.
    destruct (Z.leb_spec 0 (argc a + 1)) as [_|?]; [|lia].
    destruct (Z.ltb_spec (argc a + 1) (Z.of_nat (length (argv a)))) as [_|?]; [|lia].
    simpl. apply HQ; simpl.
    + done.
    + done.
    + unfold args_wf. simpl. rewrite !length_insert.
      unfold PTR_SIZE, PTRDIFF_MAX. lia.
    + lia.
    + done.
Qed.

(** A run of pushes: the capacity stays the starting capacity [n] times a
    power of two, and below twice the count once it has been doubled. *)
Lemma wp_args_add_all_growth (n : Z) ss : forall a (k : nat) w
    (Q : args -> world -> Prop) (X : halt -> Prop),
  (0 < n)%Z ->
  args_wf a ->
  capacity a = (n * 2 ^ Z.of_nat k)%Z ->
  k = 0 ∨ (capacity a <= 2 * argc a)%Z ->
  (forall a' w' (k' : nat),
     args_wf a' ->
     argc a' = (argc a + Z.of_nat (length ss))%Z ->
     capacity a' = (n * 2 ^ Z.of_nat k')%Z ->
     k' = 0 ∨ (capacity a' <= 2 * argc a')%Z ->
     k <= k' ->
     w_tick w' = w_tick w + length ss + (k' - k) ->
     mem_only w w' ->
     Q a' w') ->
  (forall w' msg,
     mem_only w w' ->
     msg = "realloc" ∨ msg = "malloc" ->
     w_tick w < w_tick w' <= w_tick w + 2 * length ss ->
     e_grant E (w_tick w' - 1) = false ∨
     (PTRDIFF_MAX < 2 * (argc a + Z.of_nat (length ss)) * PTR_SIZE)%Z ∨
     Exists (fun s => PTRDIFF_MAX < Z.of_nat (String.length s) + 1)%Z ss ->
     X (Exit 1 (log (EvErr msg) w'))) ->
  wp (args_add_all E a ss) w Q X.
Proof.
  induction ss as [|s ss IH]; intros a k w Q X Hn Hwf Hcap Hk HQ HX; simpl.
  - apply wp_ret.
    apply (HQ a w k); [done|simpl; lia|done|done|lia|simpl; lia|apply mem_only_refl].
  - apply wp_bind. apply wp_args_add_requests; [done| |].
    + intros a1 w1 Hcap1 Hc1 Hwf1 Ht1 Hm1.
      assert (Hgrow : exists k1 : nat,
        capacity a1 = (n * 2 ^ Z.of_nat k1)%Z ∧
        (k1 = 0 ∨ (capacity a1 <= 2 * argc a1)%Z) ∧ k <= k1 <= S k ∧
        w_tick w1 = w_tick w + 1 + (k1 - k)).
      { destruct (Z.eqb_spec (argc a + 1) (capacity a)) as [Hfull|Hroom].
        - exists (S k). split_and!; [|right; lia|lia|lia|lia].
          rewrite Hcap1, Hcap, Nat2Z.inj_succ, Z.pow_succ_r by lia. lia.
        - exists k. split_and!; [congruence| |lia|lia|lia].
          destruct Hk as [?|?]; [by left|right; lia]. }
      destruct Hgrow as (k1 & Hcap1' & Hk1 & (Hkk1 & Hkk2) & Ht1').
      apply (IH a1 k1); [done|done|done|done| |].
      * intros a' w' k' Hwf' Hc' Hcap' Hk' Hkk Ht' Hm'.
        apply (HQ a' w' k'); try done; [simpl length; lia..|].
        by eapply mem_only_trans.
      * intros w' msg Hm Hmsg Htick Hwhy.
        apply HX; [by eapply mem_only_trans|done|simpl length; lia|].
        destruct Hwhy as [?|[?|?]]; [by left|right; left|right; right].
        -- simpl length. lia.
        -- by apply Exists_cons_tl.
    + intros w' msg Hm Hmsg Htick Hwhy.
      apply HX; [done|done|simpl length; lia|].
      destruct Hwhy as [?|[[Hfull Hbig]|?]]; [by left|right; left|right; right].
      * simpl length. unfold PTR_SIZE in *. lia.
      * by apply Exists_cons_hd.
Qed.

Lemma wp_args_run_growth (n : Z) ss w (Q : args -> world -> Prop) (X : halt -> Prop) :
  (forall a w' (k : nat),
     (0 < n)%Z ->
     args_wf a ->
     argc a = Z.of_nat (length ss) ->
     capacity a = (n * 2 ^ Z.of_nat k)%Z ->
     k = 0 ∨ (capacity a <= 2 * argc a)%Z ->
     w_tick w' = w_tick w + 1 + length ss + k ->
     mem_only w w' ->
     Q a w') ->
  (forall w' msg,
     mem_only w w' ->
     msg = "calloc" ∨ msg = "realloc" ∨ msg = "malloc" ->
     w_tick w < w_tick w' <= w_tick w + 1 + 2 * length ss ->
     e_grant E (w_tick w' - 1) = false ∨
     (PTRDIFF_MAX < n * PTR_SIZE)%Z ∨
     (PTRDIFF_MAX < 2 * Z.of_nat (length ss) * PTR_SIZE)%Z ∨
     Exists (fun s => PTRDIFF_MAX < Z.of_nat (String.length s) + 1)%Z ss ->
     X (Exit 1 (log (EvErr msg) w'))) ->
  ((n <= 0)%Z -> X (Abort w)) ->
  wp (args_run E n ss) w Q X.
Proof.
  intros HQ HX HA. unfold args_run. apply wp_bind, wp_args_init; [| |done].
  - intros Hn Hfit Hg.
    apply (wp_args_add_all_growth n ss _ 0); [done| | |by left| |].
    + unfold args_wf. simpl. rewrite length_replicate. lia.
    + simpl. lia.
    + intros a w' k Hwf Hc Hcap Hk _ Ht Hm. simpl in Hc, Ht.
      apply (HQ a w' k); [done|done|lia|done|done|lia|].
      eapply mem_only_trans; [|exact Hm]. done.
    + intros w' msg Hm Hmsg Htick Hwhy. simpl in Htick, Hwhy.
      apply HX; [|tauto|lia|tauto].
      eapply mem_only_trans; [|exact Hm]. done.
  - intros Hn Hwhy. apply (HX (bump w)); [done|by left|simpl; lia|].
    destruct Hwhy as [Hg|?]; [left|by right; left].
    by replace (w_tick (bump w) - 1) with (w_tick w) by (simpl; lia).
Qed.

Lemma wp_and {A} (m : M A) w (Q1 Q2 : A -> world -> Prop) (X1 X2 : halt -> Prop) :
  wp m w Q1 X1 -> wp m w Q2 X2 ->
  wp m w (fun a w' => Q1 a w' ∧ Q2 a w') (fun h => X1 h ∧ X2 h).
Proof. unfold wp. destruct (m w); auto. Qed.

End ArgsGrowth.

(** X7.  The growth of an argument vector.  After [args_init] with
    capacity [n] and the pushes of [ss], the capacity is [n] doubled [k]
    times, [k] being the least number of doublings that leave room for the
    strings and the null pointer after them; and the run has made one
    request for the array, one for each string and one for each
    doubling. *)
Theorem args_capacity_law (E : env) (n : Z) (ss : list string) (w : world)
    (a : args) (w' : world) :
  args_run E n ss w = Ret a w' ->
  exists k : nat,
    capacity a = (n * 2 ^ Z.of_nat k)%Z ∧
    (Z.of_nat (length ss) < capacity a)%Z ∧
    (forall j : nat, j < k -> (n * 2 ^ Z.of_nat j <= Z.of_nat (length ss))%Z) ∧
    w_tick w' = w_tick w + 1 + length ss + k.
Proof.
  intros Hrun. from_ret Hrun. apply wp_args_run_growth; [|done..].
  intros a0 w0 k Hn ((_ & Hlt) & _) Hc Hcap Hk Ht _.
  exists k. split_and!; [done|lia| |done].
  intros j Hj. destruct Hk as [->|Hk]; [lia|].
  assert (Hpow : (2 ^ Z.of_nat (S j) <= 2 ^ Z.of_nat k)%Z)
    by (apply Z.pow_le_mono_r; lia).
  rewrite Nat2Z.inj_succ, Z.pow_succ_r in Hpow by lia. nia.
Qed.

Lemma args_capacity_law_witness :
  exists a w' (k : nat),
    args_run quiet_env 2 ["diff"; "-u"; "--label"] shell_world = Ret a w' ∧
    capacity a = (2 * 2 ^ Z.of_nat k)%Z ∧
    w_tick w' = w_tick shell_world + 1 + 3 + k.
Proof.
  assert (Hrun : exists a w',
    args_run quiet_env 2 ["diff"; "-u"; "--label"] shell_world = Ret a w')
    by (eexists _, _; vm_compute; reflexivity).
  destruct Hrun as (a & w' & Hrun).
  destruct (args_capacity_law quiet_env 2 _ shell_world a w' Hrun)
    as (k & Hcap & _ & _ & Ht).
  exists a, w', k. split; [exact Hrun|]. split; [exact Hcap|exact Ht].
Defined.

(** X8.  Building an argument vector succeeds whenever nothing stands in
    its way.  If the starting capacity is positive, the array for it and
    the array for twice the number of strings are no larger than an object
    can be, so is each string with its terminator, and every request of
    the run is granted, then [args_init] and the pushes return, and exec
    reads exactly the pushed strings from the vector. *)
Theorem args_run_returns (E : env) (n : Z) (ss : list string) (w : world) :
  (0 < n)%Z ->
  (n * PTR_SIZE <= PTRDIFF_MAX)%Z ->
  (2 * Z.of_nat (length ss) * PTR_SIZE <= PTRDIFF_MAX)%Z ->
  Forall (fun s => Z.of_nat (String.length s) + 1 <= PTRDIFF_MAX)%Z ss ->
  (forall t, w_tick w <= t < w_tick w + 1 + 2 * length ss -> e_grant E t = true) ->
  exists a w',
    args_run E n ss w = Ret a w' ∧
    c_argv (w_heap w') (argv a) = Some ss ∧
    argc a = Z.of_nat (length ss).
Proof.
  intros Hn Hfit Hfit2 Hstr Hgrant.
  pose proof (wp_and (args_run E n ss) w _ _ _ _
    (wp_args_run_growth E n ss w
       (fun a _ => argc a = Z.of_nat (length ss)) (fun _ => False)
       ltac:(by intros) 
       ltac:(intros w1 msg _ _ Ht [Hg|[?|[?|Hex]]];
             [rewrite Hgrant in Hg by lia; done|lia|lia|
              apply Exists_exists in Hex as (s & Hs & ?);
              rewrite Forall_forall in Hstr; specialize (Hstr s Hs); simpl in Hstr; lia])
       ltac:(lia))
    (wp_args_run E n ss w
       (fun a w' => c_argv (w_heap w') (argv a) = Some ss) (fun _ => True)
       ltac:(intros a w1 ls Hh _ _ _; by eapply args_holds_c_argv)
       ltac:(done) ltac:(done))) as Hwp.
  unfold wp in Hwp. destruct (args_run E n ss w) as [a w'|h]; [|by destruct Hwp].
  exists a, w'. tauto.
Qed.

Lemma args_run_returns_witness :
  exists a w',
    args_run quiet_env 2 ["diff"; "-u"; "--label"] shell_world = Ret a w' ∧
    c_argv (w_heap w') (argv a) = Some ["diff"; "-u"; "--label"] ∧
    argc a = 3%Z.
Proof.
  apply (args_run_returns quiet_env 2 ["diff"; "-u"; "--label"] shell_world).
  - lia.
  - vm_compute. discriminate.
  - vm_compute. discriminate.
  - repeat constructor; vm_compute; discriminate.
  - reflexivity.
Defined.

(** X9.  Why building an argument vector fails.  [args_init] followed by
    pushes stops in three ways only.  On its assertion, untouched, when the
    starting capacity is not positive.  With exit code 1 after one
    diagnostic, of calloc, realloc or malloc: then the last request it made
    was refused, or an object was asked for that is larger than an object
    can be (the first array, an array of twice as many slots as there are
    strings, or a string).  Descriptors and pipes are as they were.  It
    never stores outside the array. *)
Theorem args_run_failure (E : env) (n : Z) (ss : list string) (w : world) :
  match args_run E n ss w with
  | Ret _ _ => True
  | Halt (Abort w') => (n <= 0)%Z ∧ w' = w
  | Halt (Exit code w') =>
      code = 1%Z ∧
      (exists msg, w_trace w' = w_trace w ++ [EvErr msg] ∧
                   (msg = "calloc" ∨ msg = "realloc" ∨ msg = "malloc")) ∧
      w_fds w' = w_fds w ∧ w_pipes w' = w_pipes w ∧
      w_tick w < w_tick w' <= w_tick w + 1 + 2 * length ss ∧
      (e_grant E (w_tick w' - 1) = false ∨
       (PTRDIFF_MAX < n * PTR_SIZE)%Z ∨
       (PTRDIFF_MAX < 2 * Z.of_nat (length ss) * PTR_SIZE)%Z ∨
       Exists (fun s => PTRDIFF_MAX < Z.of_nat (String.length s) + 1)%Z ss)
  | Halt _ => False
  end.
Proof.
  pose proof (wp_args_run_growth E n ss w (fun _ _ => True)
    (fun h => match h with
      | Abort w' => (n <= 0)%Z ∧ w' = w
      | Exit code w' =>
          code = 1%Z ∧
          (exists msg, w_trace w' = w_trace w ++ [EvErr msg] ∧
                       (msg = "calloc" ∨ msg = "realloc" ∨ msg = "malloc")) ∧
          w_fds w' = w_fds w ∧ w_pipes w' = w_pipes w ∧
          w_tick w < w_tick w' <= w_tick w + 1 + 2 * length ss ∧
          (e_grant E (w_tick w' - 1) = false ∨
           (PTRDIFF_MAX < n * PTR_SIZE)%Z ∨
           (PTRDIFF_MAX < 2 * Z.of_nat (length ss) * PTR_SIZE)%Z ∨
           Exists (fun s => PTRDIFF_MAX < Z.of_nat (String.length s) + 1)%Z ss)
      | _ => False
      end)) as Hwp.
  unfold wp in Hwp. destruct (args_run E n ss w) as [a w'|h]; [done|].
  apply Hwp; [done| |done].
  intros w' msg (Hf & Hp & _ & Htr) Hmsg Ht Hwhy. simpl.
  split_and!; try done; [|lia..]. exists msg. by rewrite Htr.
Qed.

(** ** The processes of a run *)

Lemma traces_bind {A B} (m : M A) (k : A -> M B)
    (Q1 : A -> list event -> Prop) (Q : B -> list event -> Prop)
    (X : halt -> list event -> Prop) :
  traces m Q1 X ->
  (forall a e1, Q1 a e1 ->
     traces (k a) (fun b e2 => Q b (e1 ++ e2)) (fun h e2 => X h (e1 ++ e2))) ->
  traces (m ≫= k) Q X.
Proof.
  intros Hm Hk w. rewrite bind_unfold. specialize (Hm w).
  destruct (m w) as [a w1|h]; [|done].
  destruct Hm as (e1 & Ht1 & HQ1). specialize (Hk a e1 HQ1 w1).
  destruct (k a w1) as [b w2|h]; destruct Hk as (e2 & Ht2 & H2);
    exists (e1 ++ e2); by rewrite Ht2, Ht1, app_assoc.
Qed.

Lemma traces_mono {A} (m : M A) (Q Q' : A -> list event -> Prop)
    (X X' : halt -> list event -> Prop) :
  traces m Q X ->
  (forall a e, Q a e -> Q' a e) -> (forall h e, X h e -> X' h e) ->
  traces m Q' X'.
Proof.
  intros Hm HQ HX w. specialize (Hm w).
  destruct (m w); destruct Hm as (e & ? & ?); exists e; auto.
Qed.

Lemma quiet_bind {A B} (m : M A) (k : A -> M B) :
  quiet m -> (forall a, quiet (k a)) -> quiet (m ≫= k).
Proof.
  intros Hm Hk. eapply traces_bind.
  - eapply traces_mono; [exact Hm|..]; simpl; [intros a e He; exact He|done].
  - intros a e1 He1. eapply traces_mono; [exact (Hk a)|..]; simpl.
    + intros b e2 He2. by apply Forall_app.
    + intros h e2 [He2 Hh]. split; [by apply Forall_app|done].
Qed.

Lemma quiet_ret {A} (a : A) : quiet (mret a : M A).
Proof. intros w. exists []. by rewrite app_nil_r. Qed.

Lemma quiet_get : quiet get.
Proof. intros w. exists []. by rewrite app_nil_r. Qed.

Lemma quiet_modify (f : world -> world) :
  (forall w, w_trace (f w) = w_trace w) -> quiet (modify f).
Proof. intros Hf w. exists []. simpl. by rewrite Hf, app_nil_r. Qed.

Lemma quiet_emit (e : event) : local_event e -> quiet (emit e).
Proof. intros He w. exists [e]. split; [done|]. by constructor. Qed.

Lemma quiet_exit {A} code : quiet (exit code : M A).
Proof. intros w. exists []. simpl. by rewrite app_nil_r. Qed.

Lemma quiet_fault {A} : quiet (fault : M A).
Proof. intros w. exists []. simpl. by rewrite app_nil_r. Qed.

Lemma quiet_err {A} code msg : quiet (err code msg : M A).
Proof. intros w. exists [EvErr msg]. simpl. split; [done|]. split; [by constructor|done]. Qed.

Lemma quiet_assert b : quiet (assert b).
Proof. intros w. unfold assert. destruct b; exists []; simpl; by rewrite app_nil_r. Qed.

Lemma quiet_request E : quiet (request E).
Proof. intros w. exists []. simpl. by rewrite app_nil_r. Qed.

Create HintDb quiet.
#[local] Hint Resolve quiet_ret quiet_get quiet_exit quiet_fault quiet_err
  quiet_assert quiet_request : quiet.

(** Walk through a computation made of quiet parts. *)
Ltac quiet_step :=
  first
    [ solve [auto 1 with quiet nocore]
    | apply quiet_emit; exact I
    | apply quiet_modify; intros ?; reflexivity
    | apply quiet_bind; [|intros ?]
    | match goal with
      | |- quiet (match ?x with _ => _ end) => destruct x
      end
    | progress cbv zeta ].

Ltac quiet_run := repeat quiet_step.

Section QuietProofs.
Context (E : env).

Lemma quiet_calloc nmemb size : quiet (calloc E nmemb size).
Proof. unfold calloc. quiet_run. Qed.

Lemma quiet_realloc old bytes : quiet (realloc E old bytes).
Proof. unfold realloc. quiet_run. Qed.

Lemma quiet_strdup s : quiet (strdup E s).
Proof. unfold strdup. quiet_run. Qed.

Lemma quiet_store arr i v : quiet (store arr i v).
Proof. unfold store. quiet_run. Qed.

#[local] Hint Resolve quiet_calloc quiet_realloc quiet_strdup quiet_store : quiet.

Lemma quiet_args_init n : quiet (args_init E n).
Proof. unfold args_init. quiet_run. Qed.

Lemma quiet_args_add a s : quiet (args_add E a s).
Proof. unfold args_add. quiet_run. Qed.

#[local] Hint Resolve quiet_args_init quiet_args_add : quiet.

Lemma quiet_for_each {S} (idx : list nat) (body : nat -> S -> M S) :
  (forall i s, quiet (body i s)) -> forall s, quiet (for_each idx body s).
Proof.
  intros Hbody. induction idx as [|i idx IH]; intros s; simpl; [apply quiet_ret|].
  apply quiet_bind; [apply Hbody|apply IH].
Qed.

Lemma quiet_main_args main_argv : quiet (main_args E main_argv).
Proof.
  unfold main_args. quiet_run.
  apply quiet_for_each. intros. apply quiet_args_add.
Qed.

Lemma quiet_pipe : quiet (pipe E).
Proof. unfold pipe. quiet_run. Qed.

Lemma quiet_close fd : quiet (close fd).
Proof. unfold close. quiet_run. Qed.

Lemma quiet_dup2 oldfd newfd : quiet (dup2 oldfd newfd).
Proof. unfold dup2. quiet_run. Qed.

Lemma quiet_fcntl_getfd fd : quiet (fcntl_getfd fd).
Proof. unfold fcntl_getfd. quiet_run. Qed.

Lemma quiet_fcntl_setfd fd flags : quiet (fcntl_setfd fd flags).
Proof. unfold fcntl_setfd. quiet_run. Qed.

Lemma quiet_fcntl_dupfd_cloexec fd ge : quiet (fcntl_dupfd_cloexec E fd ge).
Proof. unfold fcntl_dupfd_cloexec. quiet_run. Qed.

#[local] Hint Resolve quiet_pipe quiet_close quiet_dup2 quiet_fcntl_getfd
  quiet_fcntl_setfd quiet_fcntl_dupfd_cloexec : quiet.

Lemma quiet_closed_reader fd : quiet (closed_reader E fd).
Proof. unfold closed_reader. quiet_run. Qed.

Lemma quiet_clear_cloexec fd : quiet (clear_cloexec fd).
Proof. unfold clear_cloexec. quiet_run. Qed.

Lemma quiet_xdup_ge fd ge : quiet (xdup_ge E fd ge).
Proof. unfold xdup_ge. quiet_run. Qed.

#[local] Hint Resolve quiet_closed_reader quiet_clear_cloexec quiet_xdup_ge
  quiet_main_args : quiet.

Lemma quiet_main_pipes : quiet (main_pipes E).
Proof. unfold main_pipes. quiet_run. Qed.

Lemma quiet_main_setup main_argv : quiet (main_setup E main_argv).
Proof. unfold main_setup. pose proof quiet_main_pipes. quiet_run. Qed.

Lemma traces_fork :
  traces (fork E) (fun r evs => evs = [EvFork r] ∧ (r = -1 ∨ 0 <= r)%Z)
                  (fun _ _ => False).
Proof.
  intros w. unfold fork, request. mrun.
  destruct (e_grant E (w_tick w)); mrun; eexists; (split; [reflexivity|]);
    (split; [reflexivity|lia]).
Qed.

Lemma traces_waitpid pid :
  traces (waitpid E pid) (fun st evs => evs = [EvWaitpid pid (e_wait E pid)])
                         (fun _ _ => False).
Proof. intros w. unfold waitpid. mrun. by eexists. Qed.

Lemma local_child_event evs : Forall local_event evs -> Forall child_event evs.
Proof. intros H. eapply Forall_impl; [exact H|]. by intros []. Qed.

Lemma child_halt_after e1 h e2 :
  Forall local_event e1 -> child_halt h e2 -> child_halt h (e1 ++ e2).
Proof.
  intros H1 H2. destruct h as [code w'|file search l w'|w'|w']; simpl in *;
    try (apply Forall_app; split; [by apply local_child_event|done]).
  destruct H2 as (pre & -> & Hpre). exists (e1 ++ pre).
  split; [by rewrite app_assoc|by apply Forall_app].
Qed.

(** A child that starts with quiet code. *)
Lemma child_bind_quiet {A} (m : M A) (k : A -> M unit) :
  quiet m ->
  (forall a, traces (k a) (fun _ _ => False) child_halt) ->
  traces (m ≫= k) (fun _ _ => False) child_halt.
Proof.
  intros Hm Hk. eapply traces_bind.
  - eapply traces_mono; [exact Hm|..]; simpl; [intros a e He; exact He|].
    intros h e [He Hh]. destruct h; simpl in *; try done; by apply local_child_event.
  - intros a e1 He1. eapply traces_mono; [exact (Hk a)|done|].
    intros h e2 He2. by apply child_halt_after.
Qed.

(** The end of every child: [exec], and [err] when it returns. *)
Lemma child_exec file search args msg :
  traces (exec E file search args ;; (err 1 msg : M unit)) (fun _ _ => False) child_halt.
Proof.
  intros w. unfold exec, request. mrun.
  destruct args as [l|]; [destruct (e_grant E (w_tick w))|]; mrun.
  - exists [EvExec file (Some l) true]. split; [done|]. by exists [].
  - exists [EvExec file (Some l) false; EvErr msg]. rewrite <- app_assoc.
    split; [done|]. by repeat constructor.
  - exists [EvExec file None false; EvErr msg]. rewrite <- app_assoc.
    split; [done|]. by repeat constructor.
Qed.

Lemma traces_producer shell cmd pout :
  traces (producer E shell cmd pout) (fun _ _ => False) child_halt.
Proof.
  unfold producer.
  repeat (apply child_bind_quiet; [solve [quiet_run]|intros ?]).
  apply child_exec.
Qed.

Lemma traces_diff_child a cmda cmdb pa0 pb0 :
  traces (diff_child E a cmda cmdb pa0 pb0) (fun _ _ => False) child_halt.
Proof.
  unfold diff_child.
  repeat (apply child_bind_quiet; [solve [quiet_run]|intros ?]).
  apply child_exec.
Qed.

(** One [fork] of [main] with its three-way branch. *)
Lemma traces_fork_switch {B} (child : M unit) (k : Z -> M B)
    (Q : B -> list event -> Prop) (X : halt -> list event -> Prop) :
  (forall r, (0 < r)%Z ->
     traces (k r) (fun b e => Q b (EvFork r :: e)) (fun h e => X h (EvFork r :: e))) ->
  traces child (fun _ _ => False) (fun h e => X h (EvFork 0 :: e)) ->
  (forall w', X (Exit 1 w') [EvFork (-1); EvErr "fork"]) ->
  traces (c ← fork E;
          (if (c =? -1)%Z then err 1 "fork"
           else if (c =? 0)%Z then child
           else mret tt) ;;
          k c) Q X.
Proof.
  intros Hk Hchild Hfail.
  eapply traces_bind;
    [eapply traces_mono; [apply traces_fork|intros r e H; exact H|done]|].
  intros r e1 [-> Hr]. simpl.
  destruct (Z.eqb_spec r (-1)) as [->|Hr1].
  - intros w. mrun. exists [EvErr "fork"]. split; [done|]. apply Hfail.
  - destruct (Z.eqb_spec r 0) as [->|Hr0].
    + eapply traces_bind; [exact Hchild|]. by intros.
    + intros w. rewrite bind_unfold, ret_unfold. apply Hk. lia.
Qed.

Lemma traces_main_spawn pl :
  traces (main_spawn E pl)
    (fun _ evs =>
       exists c1 c2 c3 closes,
         Forall (fun c => (0 < c)%Z) [c1; c2; c3] ∧
         evs = (EvFork <$> [c1; c2; c3]) ++ closes ++ [EvWaitpid c3 (e_wait E c3)] ∧
         Forall local_event closes)
    (fun h evs =>
       exists cs post,
         evs = (EvFork <$> cs) ++ post ∧
         Forall (fun c => (0 < c)%Z) cs ∧ length cs <= 2 ∧
         ((post = [EvFork (-1); EvErr "fork"] ∧ stops_here h) ∨
          exists child, post = EvFork 0 :: child ∧ child_halt h child)).
Proof.
  unfold main_spawn. apply traces_fork_switch.
  - intros c1 H1. apply traces_fork_switch.
    + intros c2 H2. apply traces_fork_switch.
      * intros c3 H3. intros w. unfold close, waitpid. mrun.
        eexists. rewrite <- !app_assoc. split; [reflexivity|].
        exists c1, c2, c3,
          [EvClose (pl_pa pl).1; EvClose (pl_pa pl).2;
           EvClose (pl_pb pl).1; EvClose (pl_pb pl).2].
        split_and!; [by repeat constructor|done|by repeat constructor].
      * eapply traces_mono; [apply traces_diff_child|done|].
        intros h e He. exists [c1; c2], (EvFork 0 :: e).
        split_and!; [done|by repeat constructor|simpl; lia|right; by exists e].
      * intros w'. exists [c1; c2], [EvFork (-1); EvErr "fork"].
        split_and!; [done|by repeat constructor|simpl; lia|by left].
    + eapply traces_mono; [apply traces_producer|done|].
      intros h e He. exists [c1], (EvFork 0 :: e).
      split_and!; [done|by repeat constructor|simpl; lia|right; by exists e].
    + intros w'. exists [c1], [EvFork (-1); EvErr "fork"].
      split_and!; [done|by repeat constructor|simpl; lia|by left].
  - eapply traces_mono; [apply traces_producer|done|].
    intros h e He. exists [], (EvFork 0 :: e).
    split_and!; [done|by constructor|simpl; lia|right; by exists e].
  - intros w'. exists [], [EvFork (-1); EvErr "fork"].
    split_and!; [done|by constructor|simpl; lia|by left].
Qed.

Lemma traces_main main_argv :
  traces (main E main_argv)
    (fun code evs => forall w, process_discipline E (Ret code w) evs)
    (fun h evs => process_discipline E (Halt h) evs).
Proof.
  unfold main. eapply traces_bind.
  - eapply traces_mono; [apply quiet_main_setup|..]; simpl; [intros a e He; exact He|].
    intros h e [He Hh]. exists e, [], []. simpl. rewrite app_nil_r.
    split; [done|]. split; [done|]. split; [by constructor|].
    split; [lia|]. by left.
  - intros pl e1 He1. eapply traces_mono; [apply traces_main_spawn|..]; simpl.
    + intros code e2 (c1 & c2 & c3 & closes & Hpos & -> & Hcl) w.
      exists e1, [c1; c2; c3], (closes ++ [EvWaitpid c3 (e_wait E c3)]).
      split; [done|]. split; [done|]. split; [done|].
      by exists c1, c2, c3, closes.
    + intros h e2 (cs & post & -> & Hpos & Hlen & Hpost).
      exists e1, cs, post.
      split; [done|]. split; [done|]. split; [done|].
      split; [done|]. by right.
Qed.

End QuietProofs.

(** X10.  The processes of a run of [main], however it ends.  A run only
    adds to the history.  What it adds starts with events of the process
    itself; then come the forks that returned a pid, one right after the
    other.  A run that returns has made exactly three children and ends
    with the wait for the third.  Any other run has made at most two
    children and then either stopped before its first fork; or exited on
    a fork that failed, with the diagnostic of fork as its last event,
    leaving the children made so far unwaited; or is itself a child,
    which forks no process and waits for none, and either stops or ends by
    replacing itself with another program.  The parent never replaces
    itself. *)
Theorem main_process_discipline (E : env) (main_argv : list string) (w : world) :
  exists evs,
    w_trace (final (main E main_argv w)) = w_trace w ++ evs ∧
    process_discipline E (main E main_argv w) evs.
Proof.
  pose proof (traces_main E main_argv w) as H.
  destruct (main E main_argv w) as [code w'|h]; destruct H as (evs & Ht & Hd);
    exists evs; (split; [exact Ht|]); [apply Hd|exact Hd].
Qed.

(** ** Runs in which nothing is refused *)

Lemma keys_below_insert (t : gmap nat fdesc) b fd d :
  keys_below t b -> keys_below (<[fd := d]> t) (Nat.max b (S fd)).
Proof.
  intros Hb fd' Hfd'. destruct (decide (fd' = fd)) as [->|Hne]; [lia|].
  rewrite lookup_insert_ne in Hfd' by done. specialize (Hb fd' Hfd'). lia.
Qed.

Lemma keys_below_delete (t : gmap nat fdesc) b fd :
  keys_below t b -> keys_below (delete fd t) b.
Proof.
  intros Hb fd' Hfd'. apply Hb.
  destruct (decide (fd' = fd)) as [->|Hne]; [by rewrite lookup_delete_eq in Hfd'|].
  by rewrite lookup_delete_ne in Hfd'.
Qed.

Lemma keys_below_le (t : gmap nat fdesc) b b' :
  keys_below t b -> b <= b' -> keys_below t b'.
Proof. intros Hb Hle fd Hfd. specialize (Hb fd Hfd). lia. Qed.

Lemma keys_below_free (t : gmap nat fdesc) b fd :
  keys_below t b -> b <= fd -> t !! fd = None.
Proof.
  intros Hb Hle. destruct (t !! fd) eqn:Hfd; [|done].
  assert (fd < b) by (apply Hb; by rewrite Hfd). lia.
Qed.

Lemma keeps_open_refl w : keeps_open w w.
Proof. by split_and!. Qed.

Lemma keeps_open_trans w1 w2 w3 :
  keeps_open w1 w2 -> keeps_open w2 w3 -> keeps_open w1 w3.
Proof.
  intros (Hn1 & Hh1 & Ho1) (Hn2 & Hh2 & Ho2). split_and!; [congruence..|auto].
Qed.

Section Progress.
Context (E : env) (Hgrant : forall t, e_grant E t = true).

Lemma pipe_granted b w (X : halt -> Prop) :
  keys_below (w_fds w) b -> b + 2 <= w_nofile w ->
  wp (pipe E) w
    (fun r w' =>
       exists p0 p1,
         r = Some (p0, p1) ∧ p0 ≠ p1 ∧
         is_Some (w_fds w' !! p0) ∧ is_Some (w_fds w' !! p1) ∧
         keys_below (w_fds w') (b + 2) ∧ keeps_open w w')
    X.
Proof using Hgrant.
  intros Hb Hlim. unfold wp, pipe, request, get. mstep.
  destruct (first_free (w_fds w) 0 (w_nofile w)) as [r|] eqn:Hr.
  2:{ apply first_free_none in Hr. destruct (Hr b) as [d Hd]; [lia|].
      rewrite (keys_below_free _ _ _ Hb (Nat.le_refl b)) in Hd. done. }
  apply first_free_spec in Hr as (Hr1 & Hr2 & Hr3).
  assert (Hrb : r <= b).
  { destruct (decide (r <= b)); [done|]. destruct (Hr3 b) as [d Hd]; [lia|].
    rewrite (keys_below_free _ _ _ Hb (Nat.le_refl b)) in Hd. done. }
  destruct (first_free (<[r := _]> (w_fds w)) 0 (w_nofile w)) as [wr|] eqn:Hwr.
  2:{ apply first_free_none in Hwr. destruct (Hwr (S b)) as [d Hd]; [lia|].
      rewrite lookup_insert_ne in Hd by lia.
      rewrite (keys_below_free _ b (S b) Hb) in Hd by lia. done. }
  apply first_free_spec in Hwr as (Hw1 & Hw2 & Hw3).
  assert (Hne : r ≠ wr) by (intros ->; by rewrite lookup_insert_eq in Hw2).
  rewrite lookup_insert_ne in Hw2 by done.
  assert (Hwrb : wr <= S b).
  { destruct (decide (wr <= S b)); [done|]. destruct (Hw3 (S b)) as [d Hd]; [lia|].
    rewrite lookup_insert_ne in Hd by lia.
    rewrite (keys_below_free _ b (S b) Hb) in Hd by lia. done. }
  rewrite Hgrant. mrun. exists r, wr. split_and!; [done|done| | | |].
  - rewrite lookup_insert_ne, lookup_insert_eq by done. by eexists.
  - rewrite lookup_insert_eq. by eexists.
  - intros fd Hfd. destruct (decide (fd = wr)) as [->|?]; [lia|].
    rewrite lookup_insert_ne in Hfd by done.
    destruct (decide (fd = r)) as [->|?]; [lia|].
    rewrite lookup_insert_ne in Hfd by done. specialize (Hb fd Hfd). lia.
  - split_and!; [done|done|]. simpl. intros fd Hfd.
    rewrite lookup_insert_ne by (intros ->; destruct Hfd; congruence).
    rewrite lookup_insert_ne; [done|]. intros ->. destruct Hfd. congruence.
Qed.

Lemma xdup_ge_granted b fd ge w (X : halt -> Prop) :
  is_Some (w_fds w !! fd) ->
  keys_below (w_fds w) b -> Nat.max b ge < w_nofile w ->
  wp (xdup_ge E fd ge) w
    (fun n w' =>
       w_fds w !! n = None ∧ is_Some (w_fds w' !! n) ∧
       keys_below (w_fds w') (S (Nat.max b ge)) ∧ keeps_open w w')
    X.
Proof using Hgrant.
  intros [d Hd] Hb Hlim. unfold wp, xdup_ge, fcntl_dupfd_cloexec, request, get. mstep.
  rewrite Hd.
  assert (Hfree : w_fds w !! Nat.max b ge = None)
    by (apply (keys_below_free _ b); [done|lia]).
  destruct (first_free (w_fds w) ge (w_nofile w - ge)) as [n|] eqn:Hn.
  2:{ apply first_free_none in Hn. destruct (Hn (Nat.max b ge)) as [d' Hd']; [lia|].
      congruence. }
  apply first_free_spec in Hn as (Hn1 & Hn2 & Hn3).
  assert (Hnb : n <= Nat.max b ge).
  { destruct (decide (n <= Nat.max b ge)); [done|].
    destruct (Hn3 (Nat.max b ge)) as [d' Hd']; [lia|congruence]. }
  rewrite Hgrant. mrun. split_and!; [done| | |].
  - rewrite lookup_insert_eq. by eexists.
  - eapply keys_below_le; [apply keys_below_insert, Hb|lia].
  - split_and!; [done|done|]. simpl. intros fd' Hfd'.
    rewrite lookup_insert_ne; [done|]. intros ->. destruct Hfd'. congruence.
Qed.

Lemma close_kept fd w (X : halt -> Prop) :
  wp (close fd) w
    (fun _ w' =>
       w_nofile w' = w_nofile w ∧ w_heap w' = w_heap w ∧
       (forall b, keys_below (w_fds w) b -> keys_below (w_fds w') b) ∧
       (forall fd', fd' ≠ fd -> is_Some (w_fds w !! fd') -> is_Some (w_fds w' !! fd')))
    X.
Proof.
  apply wp_close. intros w' (Hf & _ & Hn & Hh & _). rewrite Hf.
  split_and!; [done|done| |].
  - intros b Hb. by apply keys_below_delete.
  - intros fd' Hne Hfd'. by rewrite lookup_delete_ne.
Qed.

Lemma dup2_granted oldfd newfd w (X : halt -> Prop) :
  is_Some (w_fds w !! oldfd) -> newfd < w_nofile w ->
  wp (dup2 oldfd newfd) w
    (fun r w' =>
       r ≠ (-1)%Z ∧ is_Some (w_fds w' !! newfd) ∧
       (forall b, keys_below (w_fds w) b -> keys_below (w_fds w') (Nat.max b (S newfd))) ∧
       keeps_open w w')
    X.
Proof.
  intros [d Hd] Hlim. apply wp_dup2.
  - intros d' w' Hd' _ (Hf & _ & Hn & Hh & _).
    split; [lia|]. case_bool_decide as Heq.
    + subst newfd. rewrite Hf. split_and!; [by eexists| |].
      * intros b Hb. eapply keys_below_le; [exact Hb|lia].
      * split_and!; [done|done|]. intros fd' Hfd'. by rewrite Hf.
    + rewrite Hf. split_and!.
      * rewrite lookup_insert_eq. by eexists.
      * intros b Hb. by apply keys_below_insert.
      * split_and!; [done|done|]. intros fd' Hfd'. rewrite Hf.
        destruct (decide (fd' = newfd)) as [->|?];
          [rewrite lookup_insert_eq; by eexists|by rewrite lookup_insert_ne].
  - intros w' [Hc|Hc] _; [congruence|lia].
Qed.

Lemma clear_cloexec_granted fd w (X : halt -> Prop) :
  is_Some (w_fds w !! fd) ->
  wp (clear_cloexec fd) w
    (fun _ w' =>
       (forall b, keys_below (w_fds w) b -> keys_below (w_fds w') b) ∧ keeps_open w w')
    X.
Proof.
  intros Hfd. apply wp_clear_cloexec.
  - intros d w' Hd (Hf & _ & Hn & Hh & _). rewrite Hf. split.
    + intros b Hb fd' Hfd'. apply Hb.
      destruct (decide (fd' = fd)) as [->|?]; [done|by rewrite lookup_insert_ne in Hfd'].
    + split_and!; [done|done|]. intros fd' Hfd'. rewrite Hf.
      destruct (decide (fd' = fd)) as [->|?];
        [rewrite lookup_insert_eq; by eexists|by rewrite lookup_insert_ne].
  - intros w' msg Hc. destruct Hfd. congruence.
Qed.

Lemma closed_reader_granted b fd w (X : halt -> Prop) :
  keys_below (w_fds w) b -> b + 2 <= w_nofile w -> fd < w_nofile w ->
  wp (closed_reader E fd) w (fun _ w' => w_heap w' = w_heap w) X.
Proof using Hgrant.
  intros Hb Hlim Hfd. unfold closed_reader. apply wp_bind.
  eapply wp_mono; [by apply (pipe_granted b)| |done].
  intros r w1 (p0 & p1 & -> & Hne & Ho0 & Ho1 & _ & Hn1 & Hh1 & _).
  apply wp_bind. eapply wp_mono; [apply close_kept| |done].
  intros _ w2 (Hn2 & Hh2 & _ & Ho2).
  case_bool_decide as Hcase; [|apply wp_ret; congruence].
  apply wp_bind. eapply wp_mono; [apply dup2_granted| |done].
  - by apply Ho2.
  - lia.
  - intros r w3 (Hr & _ & _ & Hn3 & Hh3 & _).
    apply wp_bind. rewrite (proj2 (Z.eqb_neq _ _)) by done. apply wp_ret.
    eapply wp_mono; [apply close_kept| |done].
    intros _ w4 (_ & Hh4 & _). congruence.
Qed.

Lemma fork_granted w (X : halt -> Prop) :
  wp (fork E) w
    (fun r w' =>
       (0 <= r)%Z ∧ w_fds w' = w_fds w ∧ w_nofile w' = w_nofile w ∧
       w_heap w' = w_heap w)
    X.
Proof using Hgrant.
  unfold wp, fork, request, get. mstep. rewrite Hgrant. mrun.
  split_and!; [lia|done..].
Qed.

Lemma exec_granted file search l w (Q : Z -> world -> Prop) :
  wp (exec E file search (Some l)) w Q replaced.
Proof using Hgrant. unfold wp, exec, request. mstep. rewrite Hgrant. by mrun. Qed.

Lemma args_add_granted a ls ss s w (X : halt -> Prop) :
  args_holds (w_heap w) a ls ss ->
  (16 * (Z.of_nat (length ss) + 1) <= PTRDIFF_MAX)%Z ->
  (Z.of_nat (String.length s) + 1 <= PTRDIFF_MAX)%Z ->
  wp (args_add E a s) w
    (fun a' w' =>
       (exists l, args_holds (w_heap w') a' (ls ++ [l]) (ss ++ [s])) ∧ mem_only w w')
    X.
Proof using Hgrant.
  intros Hh Hcap Hs.
  pose proof (wp_and (args_add E a s) w _ _ _ _
    (wp_args_add_holds E a ls ss s w
       (fun a' w' =>
          (exists l, args_holds (w_heap w') a' (ls ++ [l]) (ss ++ [s])) ∧ mem_only w w')
       (fun _ => True) Hh
       ltac:(intros a' w' Hh' _ _ Hm; split; [by eexists|done])
       ltac:(done))
    (wp_args_add_requests E a s w (fun _ _ => True) (fun _ => False)
       ltac:(apply Hh) ltac:(done)
       ltac:(intros w' msg _ _ _ [Hg|[[Hfull Hbig]|Hbig]];
             [by rewrite Hgrant in Hg| |lia];
             destruct Hh as (_ & Hc & _); unfold PTR_SIZE in Hbig; lia))) as Hwp.
  eapply wp_mono; [exact Hwp|by intros a' w' [? _]|by intros h [_ ?]].
Qed.

Lemma producer_granted b shell cmd pout w :
  is_Some (w_fds w !! pout) ->
  keys_below (w_fds w) b -> Nat.max b 2 + 2 <= w_nofile w ->
  wp (producer E shell cmd pout) w (fun _ _ => False) replaced.
Proof using Hgrant.
  intros Hpout Hb Hlim. unfold producer.
  apply wp_bind. eapply wp_mono; [apply dup2_granted; [done|lia]| |done].
  intros r w1 (Hr & H1 & Hkb1 & Hn1 & _).
  apply wp_bind. rewrite (proj2 (Z.eqb_neq _ _)) by done. apply wp_ret.
  apply wp_bind. eapply wp_mono; [by apply clear_cloexec_granted| |done].
  intros _ w2 (Hkb2 & Hn2 & _).
  apply wp_bind.
  eapply wp_mono; [apply (closed_reader_granted (Nat.max b 2)); [by auto|lia..]| |done].
  intros u3 w3 _. apply wp_bind. apply exec_granted.
Qed.

Lemma diff_child_granted b a ls ss cmda cmdb pa0 pb0 w :
  is_Some (w_fds w !! pa0) -> is_Some (w_fds w !! pb0) ->
  keys_below (w_fds w) b -> Nat.max b 5 + 2 <= w_nofile w ->
  args_holds (w_heap w) a ls ss ->
  (16 * (Z.of_nat (length ss) + 6) <= PTRDIFF_MAX)%Z ->
  (Z.of_nat (String.length cmda) + 1 <= PTRDIFF_MAX)%Z ->
  (Z.of_nat (String.length cmdb) + 1 <= PTRDIFF_MAX)%Z ->
  wp (diff_child E a cmda cmdb pa0 pb0) w (fun _ _ => False) replaced.
Proof using Hgrant.
  intros Hpa Hpb Hb Hlim Hh Hcap Hca Hcb. unfold diff_child.
  apply wp_bind. eapply wp_mono; [apply dup2_granted; [done|lia]| |done].
  intros r1 w1 (_ & H3 & Hkb1 & Hn1 & Hh1 & Ho1).
  apply wp_bind. eapply wp_mono; [apply dup2_granted; [by auto|lia]| |done].
  intros r2 w2 (_ & H4 & Hkb2 & Hn2 & Hh2 & Ho2).
  apply wp_bind. eapply wp_mono; [apply clear_cloexec_granted; by auto| |done].
  intros _ w3 (Hkb3 & Hn3 & Hh3 & Ho3).
  apply wp_bind. eapply wp_mono; [apply clear_cloexec_granted; by auto| |done].
  intros _ w4 (Hkb4 & Hn4 & Hh4 & Ho4).
  apply wp_bind.
  eapply wp_mono;
    [apply (closed_reader_granted (Nat.max (Nat.max b 4) 5)); [by auto|lia..]| |done].
  intros u5 w5 Hh5. simpl in Hh5.
  assert (Hheap : w_heap w5 = w_heap w) by congruence.
  rewrite <- Hheap in Hh.
  assert (Hlabel : (Z.of_nat (String.length "--label") + 1 <= PTRDIFF_MAX)%Z)
    by (vm_compute; discriminate).
  assert (Hfd3 : (Z.of_nat (String.length "/proc/self/fd/3") + 1 <= PTRDIFF_MAX)%Z)
    by (vm_compute; discriminate).
  assert (Hfd4 : (Z.of_nat (String.length "/proc/self/fd/4") + 1 <= PTRDIFF_MAX)%Z)
    by (vm_compute; discriminate).
  apply wp_bind. eapply wp_mono; [apply (args_add_granted _ _ _ _ _ _ Hh); [lia|done]| |done].
  intros a6 w6 [(l6 & Hh6) _].
  apply wp_bind.
  eapply wp_mono;
    [by apply (args_add_granted _ _ _ _ _ _ Hh6); [rewrite length_app; simpl; lia|]| |done].
  intros a7 w7 [(l7 & Hh7) _].
  apply wp_bind.
  eapply wp_mono;
    [by apply (args_add_granted _ _ _ _ _ _ Hh7); [rewrite !length_app; simpl; lia|]| |done].
  intros a8 w8 [(l8 & Hh8) _].
  apply wp_bind.
  eapply wp_mono;
    [by apply (args_add_granted _ _ _ _ _ _ Hh8); [rewrite !length_app; simpl; lia|]| |done].
  intros a9 w9 [(l9 & Hh9) _].
  apply wp_bind.
  eapply wp_mono;
    [by apply (args_add_granted _ _ _ _ _ _ Hh9); [rewrite !length_app; simpl; lia|]| |done].
  intros a10 w10 [(l10 & Hh10) _].
  apply wp_bind.
  eapply wp_mono;
    [by apply (args_add_granted _ _ _ _ _ _ Hh10); [rewrite !length_app; simpl; lia|]| |done].
  intros a11 w11 [(l11 & Hh11) _].
  apply wp_bind. unfold wp at 1, get.
  rewrite (args_holds_c_argv _ _ _ _ Hh11).
  apply wp_bind. apply exec_granted.
Qed.

(** Lines 150-172 of [main] build the first part of diff's argument
    vector as [args_run] does. *)
Lemma main_args_run main_argv w :
  3 <= length main_argv ->
  main_args E main_argv w =
    (a ← args_run E 2 (DIFF_CMD :: diff_flags main_argv);
     mret (a,
           arg main_argv (Z.of_nat (length main_argv) - 2),
           arg main_argv (Z.of_nat (length main_argv) - 1),
           default DEFAULT_SHELL (secure_getenv E "SHELL"))) w.
Proof.
  intros Hlen. unfold main_args, args_run. rewrite !bind_unfold.
  destruct (args_init E 2 w) as [a0 w0|]; [|done]. simpl args_add_all.
  rewrite !bind_unfold. destruct (args_add E a0 DIFF_CMD w0) as [a1 w1|]; [|done].
  destruct (Z.ltb_spec (Z.of_nat (length main_argv)) 3) as [?|_]; [lia|].
  unfold diff_flags.
  destruct (Z.eqb_spec (Z.of_nat (length main_argv)) 3) as [Heq|Hne].
  - simpl. rewrite !bind_unfold. by destruct (args_add E a1 "-u" w1).
  - rewrite bind_unfold, for_each_args_add.
    replace (Z.to_nat (Z.of_nat (length main_argv) - 2) - 1)
      with (length main_argv - 3) by lia.
    done.
Qed.

Lemma diff_flags_length main_argv :
  3 <= length main_argv -> length (diff_flags main_argv) <= length main_argv - 2.
Proof.
  intros Hlen. unfold diff_flags.
  destruct (Z.eqb_spec (Z.of_nat (length main_argv)) 3); [simpl; lia|].
  rewrite length_fmap, length_seq. lia.
Qed.

Lemma diff_flags_sizes main_argv :
  Forall (fun s => Z.of_nat (String.length s) + 1 <= PTRDIFF_MAX)%Z main_argv ->
  Forall (fun s => Z.of_nat (String.length s) + 1 <= PTRDIFF_MAX)%Z (diff_flags main_argv).
Proof.
  intros Hs. unfold diff_flags.
  destruct (Z.eqb_spec (Z.of_nat (length main_argv)) 3).
  - repeat constructor. vm_compute. discriminate.
  - apply Forall_forall. intros s (i & -> & Hi%elem_of_seq)%list_elem_of_fmap.
    destruct (lookup_lt_is_Some_2 main_argv i) as [s Hsi]; [lia|].
    rewrite (arg_lookup _ _ _ Hsi).
    rewrite Forall_forall in Hs. apply Hs. by eapply list_elem_of_lookup_2.
Qed.

Lemma arg_size main_argv (i : Z) :
  Forall (fun s => Z.of_nat (String.length s) + 1 <= PTRDIFF_MAX)%Z main_argv ->
  (0 <= i < Z.of_nat (length main_argv))%Z ->
  (Z.of_nat (String.length (arg main_argv i)) + 1 <= PTRDIFF_MAX)%Z.
Proof.
  intros Hs Hi.
  destruct (lookup_lt_is_Some_2 main_argv (Z.to_nat i)) as [s Hsi]; [lia|].
  replace i with (Z.of_nat (Z.to_nat i)) by lia.
  rewrite (arg_lookup _ _ _ Hsi).
  rewrite Forall_forall in Hs. apply Hs. by eapply list_elem_of_lookup_2.
Qed.

Lemma main_args_granted main_argv w :
  3 <= length main_argv ->
  Forall (fun s => Z.of_nat (String.length s) + 1 <= PTRDIFF_MAX)%Z main_argv ->
  (16 * Z.of_nat (length main_argv) <= PTRDIFF_MAX)%Z ->
  wp (main_args E main_argv) w (fun _ w' => mem_only w w') (fun _ => False).
Proof using Hgrant.
  intros Hlen Hs Hcap. unfold wp. rewrite main_args_run by done.
  fold (wp (a ← args_run E 2 (DIFF_CMD :: diff_flags main_argv);
            mret (a,
                  arg main_argv (Z.of_nat (length main_argv) - 2),
                  arg main_argv (Z.of_nat (length main_argv) - 1),
                  default DEFAULT_SHELL (secure_getenv E "SHELL"))) w
          (fun _ w' => mem_only w w') (fun _ => False)).
  apply wp_bind. apply wp_args_run_growth; [|intros w' msg _ _ _ Hwhy|lia].
  - intros a w' k _ _ _ _ _ _ Hm. by apply wp_ret.
  - pose proof (diff_flags_length main_argv Hlen).
    destruct Hwhy as [Hg|[?|[?|Hex]]].
    + by rewrite Hgrant in Hg.
    + unfold PTR_SIZE, PTRDIFF_MAX in *. lia.
    + simpl length in *. unfold PTR_SIZE in *. lia.
    + apply Exists_exists in Hex as (s & Hin & Hbig).
      assert (Hall : Forall (fun s => Z.of_nat (String.length s) + 1 <= PTRDIFF_MAX)%Z
                       (DIFF_CMD :: diff_flags main_argv)).
      { constructor; [vm_compute; discriminate|by apply diff_flags_sizes]. }
      rewrite Forall_forall in Hall. specialize (Hall s Hin). simpl in Hall. lia.
Qed.

Lemma main_pipes_granted b w :
  keys_below (w_fds w) b -> Nat.max (b + 2) 5 + 6 <= w_nofile w ->
  wp (main_pipes E) w
    (fun _ w' =>
       keys_below (w_fds w') (Nat.max (b + 2) 5 + 6) ∧ w_nofile w' = w_nofile w)
    (fun _ => False).
Proof using Hgrant.
  intros Hb Hlim. unfold main_pipes, DIFF_MAXFD. simpl Nat.add.
  set (c := Nat.max (b + 2) 5) in *.
  assert (Hc : b + 2 <= c ∧ 5 <= c) by (unfold c; lia).
  apply wp_bind. eapply wp_mono; [apply (pipe_granted b); [done|lia]| |intros ? Hx; exact Hx].
  intros r w1 (p0 & p1 & -> & _ & Ho0 & Ho1 & Hkb1 & Hn1 & _ & Hk1).
  apply wp_bind. eapply wp_mono; [apply (xdup_ge_granted (b + 2)); [done|done|lia]| |intros ? Hx; exact Hx].
  intros pa0 w2 (_ & _ & Hkb2 & Hn2 & _ & Hk2). fold c in Hkb2.
  apply wp_bind.
  eapply wp_mono; [apply (xdup_ge_granted (S c)); [by auto|done|lia]| |intros ? Hx; exact Hx].
  intros pa1 w3 (_ & _ & Hkb3 & Hn3 & _ & Hk3).
  replace (Nat.max (S c) 5) with (S c) in Hkb3 by lia.
  apply wp_bind. eapply wp_mono; [apply close_kept| |intros ? Hx; exact Hx].
  intros u4 w4 (Hn4 & _ & Hkb4 & _).
  apply wp_bind. eapply wp_mono; [apply close_kept| |intros ? Hx; exact Hx].
  intros u5 w5 (Hn5 & _ & Hkb5 & _).
  assert (Hkb : keys_below (w_fds w5) (c + 2)).
  { eapply keys_below_le; [by apply Hkb5, Hkb4|lia]. }
  apply wp_bind. eapply wp_mono; [apply (pipe_granted (c + 2)); [done|lia]| |intros ? Hx; exact Hx].
  intros r w6 (q0 & q1 & -> & _ & Hq0 & Hq1 & Hkb6 & Hn6 & _ & Hk6).
  apply wp_bind.
  eapply wp_mono; [apply (xdup_ge_granted (c + 2 + 2)); [done|done|lia]| |intros ? Hx; exact Hx].
  intros pb0 w7 (_ & _ & Hkb7 & Hn7 & _ & Hk7).
  apply wp_bind.
  eapply wp_mono;
    [apply (xdup_ge_granted (S (Nat.max (c + 2 + 2) 5))); [by auto|done|lia]| |intros ? Hx; exact Hx].
  intros pb1 w8 (_ & _ & Hkb8 & Hn8 & _ & Hk8).
  apply wp_bind. eapply wp_mono; [apply close_kept| |intros ? Hx; exact Hx].
  intros u9 w9 (Hn9 & _ & Hkb9 & _).
  apply wp_bind. eapply wp_mono; [apply close_kept| |intros ? Hx; exact Hx].
  intros u10 w10 (Hn10 & _ & Hkb10 & _).
  apply wp_ret. split; [|congruence].
  eapply keys_below_le; [by apply Hkb10, Hkb9|lia].
Qed.

Lemma main_setup_granted b main_argv w :
  3 <= length main_argv ->
  Forall (fun s => Z.of_nat (String.length s) + 1 <= PTRDIFF_MAX)%Z main_argv ->
  (16 * Z.of_nat (length main_argv) <= PTRDIFF_MAX)%Z ->
  keys_below (w_fds w) b -> Nat.max (b + 2) 5 + 6 <= w_nofile w ->
  wp (main_setup E main_argv) w
    (fun _ w' =>
       keys_below (w_fds w') (Nat.max (b + 2) 5 + 6) ∧ w_nofile w' = w_nofile w)
    (fun _ => False).
Proof using Hgrant.
  intros Hlen Hs Hcap Hb Hlim. unfold main_setup.
  apply wp_bind. eapply wp_mono; [by apply main_args_granted| |done].
  intros [[[a cmda] cmdb] shell] w0 (Hf0 & _ & Hn0 & _).
  apply wp_bind.
  eapply wp_mono; [apply (main_pipes_granted b); [by rewrite Hf0|by rewrite Hn0]| |done].
  intros [pa pb] w1 [Hkb1 Hn1]. apply wp_ret. split; [done|congruence].
Qed.

Lemma main_spawn_granted b pl ls ss w :
  is_Some (w_fds w !! (pl_pa pl).1) -> is_Some (w_fds w !! (pl_pa pl).2) ->
  is_Some (w_fds w !! (pl_pb pl).1) -> is_Some (w_fds w !! (pl_pb pl).2) ->
  keys_below (w_fds w) b -> Nat.max b 5 + 2 <= w_nofile w ->
  args_holds (w_heap w) (pl_args pl) ls ss ->
  (16 * (Z.of_nat (length ss) + 6) <= PTRDIFF_MAX)%Z ->
  (Z.of_nat (String.length (pl_cmda pl)) + 1 <= PTRDIFF_MAX)%Z ->
  (Z.of_nat (String.length (pl_cmdb pl)) + 1 <= PTRDIFF_MAX)%Z ->
  wp (main_spawn E pl) w (fun code _ => code = 0%Z) replaced.
Proof using Hgrant.
  intros Ha1 Ha2 Hb1 Hb2 Hb Hlim Hh Hcap Hca Hcb. unfold main_spawn.
  apply wp_bind. eapply wp_mono; [apply fork_granted| |done].
  intros ca w1 (Hca0 & Hf1 & Hn1 & Hh1).
  apply wp_bind. rewrite (proj2 (Z.eqb_neq ca (-1))) by lia.
  destruct (Z.eqb_spec ca 0) as [_|_].
  { eapply wp_mono; [apply (producer_granted b)| |done];
      [by rewrite Hf1|by rewrite Hf1|lia|done]. }
  apply wp_ret.
  apply wp_bind. eapply wp_mono; [apply fork_granted| |done].
  intros cb w2 (Hcb0 & Hf2 & Hn2 & Hh2).
  apply wp_bind. rewrite (proj2 (Z.eqb_neq cb (-1))) by lia.
  destruct (Z.eqb_spec cb 0) as [_|_].
  { eapply wp_mono; [apply (producer_granted b)| |done];
      [by rewrite Hf2, Hf1|by rewrite Hf2, Hf1|lia|done]. }
  apply wp_ret.
  apply wp_bind. eapply wp_mono; [apply fork_granted| |done].
  intros cdiff w3 (Hcd0 & Hf3 & Hn3 & Hh3).
  apply wp_bind. rewrite (proj2 (Z.eqb_neq cdiff (-1))) by lia.
  destruct (Z.eqb_spec cdiff 0) as [_|_].
  { eapply wp_mono; [apply (diff_child_granted b _ ls ss)| |done];
      [by rewrite Hf3, Hf2, Hf1|by rewrite Hf3, Hf2, Hf1|by rewrite Hf3, Hf2, Hf1|
       lia|by rewrite Hh3, Hh2, Hh1|done..]. }
  apply wp_ret. unfold wp, close, waitpid. by mrun.
Qed.

End Progress.

Lemma forking_open w w' pa pb A B p fd :
  forking w w' pa pb A B p -> fd ∈ [pa.1; pa.2; pb.1; pb.2] ->
  is_Some (w_fds w' !! fd).
Proof.
  intros Hfk Hin. destruct (forking_lookup _ _ _ _ _ _ _ Hfk) as (H1 & H2 & H3 & H4).
  rewrite !elem_of_cons in Hin.
  destruct Hin as [->|[->|[->|[->|Hin]]]]; [by eexists..|].
  by apply not_elem_of_nil in Hin.
Qed.

(** X11.  A run of [main] does not fail where nothing is refused and
    nothing runs short.  Let the command line have its two commands, every
    request be granted, the descriptors in use lie below [b], the limit
    leave room for eight descriptors above both [b + 2] and 5, and the
    strings and the argument vector be no larger than an object can be.
    Then the run neither exits nor stops on an assertion: it returns 0
    from [main], or it is a child and ends by being replaced by another
    program. *)
Theorem main_runs (E : env) (main_argv : list string) (w : world) (b : nat) :
  (forall t, e_grant E t = true) ->
  3 <= length main_argv ->
  keys_below (w_fds w) b ->
  Nat.max (b + 2) 5 + 8 <= w_nofile w ->
  Forall (fun s => Z.of_nat (String.length s) + 1 <= PTRDIFF_MAX)%Z main_argv ->
  (16 * (Z.of_nat (length main_argv) + 6) <= PTRDIFF_MAX)%Z ->
  match main E main_argv w with
  | Ret code _ => code = 0%Z
  | Halt h => replaced h
  end.
Proof.
  intros Hgrant Hlen Hb Hlim Hs Hcap.
  change (wp (main E main_argv) w (fun code _ => code = 0%Z) replaced).
  unfold main. apply wp_bind.
  pose proof (wp_and (main_setup E main_argv) w _ _ _ _
    (wp_main_setup E main_argv w
       (fun pl w1 =>
          exists ls w0 A B p,
            forking w0 w1 (pl_pa pl) (pl_pb pl) A B p ∧
            args_holds (w_heap w1) (pl_args pl) ls (DIFF_CMD :: diff_flags main_argv) ∧
            pl_cmda pl = arg main_argv (Z.of_nat (length main_argv) - 2) ∧
            pl_cmdb pl = arg main_argv (Z.of_nat (length main_argv) - 1))
       (fun _ => True)
       ltac:(intros a ls pa pb A B p w0 w1 _ _ Hfk Hh; by exists ls, w0, A, B, p)
       ltac:(done) ltac:(done))
    (main_setup_granted E Hgrant b main_argv w Hlen Hs ltac:(lia) Hb ltac:(lia)))
    as Hwp.
  eapply wp_mono; [exact Hwp| |by intros h [_ ?]].
  intros pl w1 [(ls & w0 & A & B & p & Hfk & Hh & Hca & Hcb) [Hkb Hn]].
  pose proof (diff_flags_length main_argv Hlen) as Hfl.
  apply (main_spawn_granted E Hgrant (Nat.max (b + 2) 5 + 6) pl ls
           (DIFF_CMD :: diff_flags main_argv)).
  - apply (forking_open _ _ _ _ _ _ _ _ Hfk). set_solver.
  - apply (forking_open _ _ _ _ _ _ _ _ Hfk). set_solver.
  - apply (forking_open _ _ _ _ _ _ _ _ Hfk). set_solver.
  - apply (forking_open _ _ _ _ _ _ _ _ Hfk). set_solver.
  - done.
  - lia.
  - done.
  - simpl length. lia.
  - rewrite Hca. apply arg_size; [done|lia].
  - rewrite Hcb. apply arg_size; [done|lia].
Qed.

Lemma main_runs_witness :
  3 <= length demo_argv ∧
  keys_below (w_fds shell_world) 3 ∧
  match main quiet_env demo_argv shell_world with
  | Ret code _ => code = 0%Z
  | Halt h => replaced h
  end.
Proof.
  assert (Hb : keys_below (w_fds shell_world) 3).
  { intros fd [d Hd]. unfold shell_world in Hd. simpl in Hd.
    destruct (decide (fd < 3)); [done|].
    rewrite !lookup_insert_ne, lookup_empty in Hd by lia. done. }
  split; [simpl; lia|]. split; [exact Hb|].
  apply (main_runs quiet_env demo_argv shell_world 3).
  - reflexivity.
  - simpl. lia.
  - exact Hb.
  - simpl. lia.
  - repeat constructor; vm_compute; discriminate.
  - vm_compute. discriminate.
Defined.

(** X12.  The parent waits without an end of either pipe.  In a run of
    [main] that returns, the four descriptors [pa], [pb] made for the
    pipes are closed again before the wait, no descriptor of the process
    refers to either pipe, and the descriptor table is the one the run
    started with: whether diff reads end-of-stream on 3 and 4 then depends
    on the two producers alone. *)
Theorem parent_waits_without_pipe_ends (E : env) (main_argv : list string)
    (w : world) (code : Z) (w' : world) :
  main E main_argv w = Ret code w' ->
  exists (A B : nat) (p pa pb : nat * nat) (evs : list event) (c : Z),
    w_trace w' = w_trace w ++ setup_events A B p pa pb ++ evs ++
      [EvClose pa.1; EvClose pa.2; EvClose pb.1; EvClose pb.2;
       EvWaitpid c (e_wait E c)] ∧
    A ≠ B ∧
    (w_fds w' !! pa.1 = None ∧ w_fds w' !! pa.2 = None ∧
     w_fds w' !! pb.1 = None ∧ w_fds w' !! pb.2 = None) ∧
    (forall fd d, w_fds w' !! fd = Some d ->
       ofile_pipe (fd_file d) ≠ Some A ∧ ofile_pipe (fd_file d) ≠ Some B) ∧
    w_fds w' = w_fds w.
Proof.
  intros Hrun. from_ret Hrun. apply wp_main; [|done..].
  intros a ls pa pb A B p w0 w1 Hlen (Hf0 & _ & _ & Ht0) Hfk Hh.
  pose proof (fk_state _ _ _ _ _ _ _ Hfk) as (_ & _ & _ & _ & Ht1).
  pose proof (fk_new_A _ _ _ _ _ _ _ Hfk) as (_ & HA).
  pose proof (fk_new_B _ _ _ _ _ _ _ Hfk) as (_ & HB & HAB).
  pose proof (fk_unused _ _ _ _ _ _ _ Hfk) as (Hu1 & Hu2 & Hu3 & Hu4).
  eapply wp_main_spawn; [exact Hfk|exact Hh| |done..]; simpl.
  intros ca cb cdiff w2 _ _ _ Hf2 Ht2.
  exists A, B, p, pa, pb, [EvFork ca; EvFork cb; EvFork cdiff], cdiff.
  split; [rewrite Ht2, Ht1, Ht0; by rewrite <- !app_assoc|].
  split; [done|]. split; [by rewrite Hf2|]. split; [|congruence].
  intros fd d Hd. rewrite Hf2 in Hd.
  split; intros Hp; [apply HA|apply HB]; apply pipes_in_use_spec; by exists fd, d.
Qed.

Lemma parent_waits_without_pipe_ends_witness :
  exists code w',
    main quiet_env demo_argv shell_world = Ret code w' ∧
    w_fds w' = w_fds shell_world.
Proof.
  assert (Hrun : exists code w', main quiet_env demo_argv shell_world = Ret code w')
    by (eexists _, _; vm_compute; reflexivity).
  destruct Hrun as (code & w' & Hrun). exists code, w'. split; [exact Hrun|].
  destruct (parent_waits_without_pipe_ends quiet_env demo_argv shell_world code w' Hrun)
    as (A & B & p & pa & pb & evs & c & _ & _ & _ & _ & Hf).
  exact Hf.
Defined.

(** ** The diagnostics of a run *)

Ltac msg_in := rewrite !elem_of_cons; auto 10.
Ltac msgs_sub := intros ?; rewrite !elem_of_cons, !elem_of_nil; intuition auto.

Lemma exits_with_err msgs msg w :
  msg ∈ msgs -> exits_with msgs (Exit 1 (log (EvErr msg) w)).
Proof. intros Hin. split; [done|]. exists msg. split; [done|]. apply last_snoc. Qed.

Lemma exits_with_mono msgs msgs' h :
  msgs ⊆ msgs' -> exits_with msgs h -> exits_with msgs' h.
Proof.
  intros Hsub. destruct h as [code w'| | |]; simpl; try done.
  intros (Hc & msg & Hin & Hl). split; [done|]. exists msg. split; [by apply Hsub|done].
Qed.

Section Diagnostics.
Context (E : env).

Lemma closed_reader_msgs fd w :
  fd < w_nofile w ->
  wp (closed_reader E fd) w (fun _ w' => w_heap w' = w_heap w) (exits_with ["pipe"]).
Proof.
  intros Hfd. unfold closed_reader. apply wp_bind, wp_pipe.
  - intros r wr w1 Hne _ _ _ _ _ (Hf1 & _ & Hn1 & Hh1 & _).
    apply wp_bind. eapply wp_mono; [apply close_kept| |done].
    intros u2 w2 (Hn2 & Hh2 & _ & Ho2).
    case_bool_decide as Hcase; [|apply wp_ret; congruence].
    apply wp_bind. eapply wp_mono; [apply dup2_granted| |done].
    + apply Ho2; [done|]. rewrite Hf1, lookup_insert_ne, lookup_insert_eq by done.
      by eexists.
    + lia.
    + intros r2 w3 (Hr & _ & _ & Hn3 & Hh3 & _).
      apply wp_bind. rewrite (proj2 (Z.eqb_neq _ _)) by done. apply wp_ret.
      eapply wp_mono; [apply close_kept| |done].
      intros u4 w4 (_ & Hh4 & _). congruence.
  - intros w1 _. apply wp_err, exits_with_err. msg_in.
Qed.

Lemma producer_msgs shell cmd pout w :
  is_Some (w_fds w !! pout) -> 1 < w_nofile w ->
  wp (producer E shell cmd pout) w (fun _ _ => False) (exits_with ["pipe"; "exec"]).
Proof.
  intros Hpout Hlim. unfold producer.
  apply wp_bind. eapply wp_mono; [by apply dup2_granted| |done].
  intros r w1 (Hr & H1 & _ & Hn1 & _).
  apply wp_bind. rewrite (proj2 (Z.eqb_neq _ _)) by done. apply wp_ret.
  apply wp_bind. eapply wp_mono; [by apply clear_cloexec_granted| |done].
  intros u2 w2 (_ & Hn2 & _).
  apply wp_bind. eapply wp_mono; [apply closed_reader_msgs; lia| |].
  2:{ intros h. apply exits_with_mono. msgs_sub. }
  intros u3 w3 _. apply wp_bind, wp_exec; [done|].
  intros w4 _. apply wp_err, exits_with_err. msg_in.
Qed.

Lemma args_add_msgs a ls ss s w :
  args_holds (w_heap w) a ls ss ->
  wp (args_add E a s) w
    (fun a' w' =>
       (exists l, args_holds (w_heap w') a' (ls ++ [l]) (ss ++ [s])) ∧ mem_only w w')
    (exits_with ["realloc"; "malloc"]).
Proof.
  intros Hh.
  pose proof (wp_and (args_add E a s) w _ _ _ _
    (wp_args_add_holds E a ls ss s w
       (fun a' w' =>
          (exists l, args_holds (w_heap w') a' (ls ++ [l]) (ss ++ [s])) ∧ mem_only w w')
       (fun _ => True) Hh
       ltac:(intros a' w' Hh' _ _ Hm; split; [by eexists|done])
       ltac:(done))
    (wp_args_add_requests E a s w (fun _ _ => True) (exits_with ["realloc"; "malloc"])
       ltac:(apply Hh) ltac:(done)
       ltac:(intros w' msg _ [-> | ->] _ _; apply exits_with_err; msg_in))) as Hwp.
  eapply wp_mono; [exact Hwp|by intros a' w' [? _]|by intros h [_ ?]].
Qed.

Lemma diff_child_msgs a ls ss cmda cmdb pa0 pb0 w :
  is_Some (w_fds w !! pa0) -> is_Some (w_fds w !! pb0) -> 4 < w_nofile w ->
  args_holds (w_heap w) a ls ss ->
  wp (diff_child E a cmda cmdb pa0 pb0) w (fun _ _ => False)
    (exits_with ["pipe"; "realloc"; "malloc"; "exec"]).
Proof.
  intros Hpa Hpb Hlim Hh. unfold diff_child.
  apply wp_bind. eapply wp_mono; [apply dup2_granted; [done|lia]| |done].
  intros r1 w1 (_ & H3 & _ & Hn1 & Hh1 & Ho1).
  apply wp_bind. eapply wp_mono; [apply dup2_granted; [by auto|lia]| |done].
  intros r2 w2 (_ & H4 & _ & Hn2 & Hh2 & Ho2).
  apply wp_bind. eapply wp_mono; [apply clear_cloexec_granted; by auto| |done].
  intros u3 w3 (_ & Hn3 & Hh3 & Ho3).
  apply wp_bind. eapply wp_mono; [apply clear_cloexec_granted; by auto| |done].
  intros u4 w4 (_ & Hn4 & Hh4 & Ho4).
  apply wp_bind. eapply wp_mono; [apply closed_reader_msgs; lia| |].
  2:{ intros h. apply exits_with_mono. msgs_sub. }
  intros u5 w5 Hh5. simpl in Hh5.
  assert (Hheap : w_heap w5 = w_heap w) by congruence.
  rewrite <- Hheap in Hh.
  assert (Hsub : forall h, exits_with ["realloc"; "malloc"] h ->
                           exits_with ["pipe"; "realloc"; "malloc"; "exec"] h).
  { intros h. apply exits_with_mono. msgs_sub. }
  apply wp_bind. eapply wp_mono; [apply (args_add_msgs _ _ _ _ _ Hh)| |exact Hsub].
  intros a6 w6 [(l6 & Hh6) _].
  apply wp_bind. eapply wp_mono; [apply (args_add_msgs _ _ _ _ _ Hh6)| |exact Hsub].
  intros a7 w7 [(l7 & Hh7) _].
  apply wp_bind. eapply wp_mono; [apply (args_add_msgs _ _ _ _ _ Hh7)| |exact Hsub].
  intros a8 w8 [(l8 & Hh8) _].
  apply wp_bind. eapply wp_mono; [apply (args_add_msgs _ _ _ _ _ Hh8)| |exact Hsub].
  intros a9 w9 [(l9 & Hh9) _].
  apply wp_bind. eapply wp_mono; [apply (args_add_msgs _ _ _ _ _ Hh9)| |exact Hsub].
  intros a10 w10 [(l10 & Hh10) _].
  apply wp_bind. eapply wp_mono; [apply (args_add_msgs _ _ _ _ _ Hh10)| |exact Hsub].
  intros a11 w11 [(l11 & Hh11) _].
  apply wp_bind. unfold wp at 1, get.
  apply wp_bind, wp_exec; [done|].
  intros w12 _. apply wp_err, exits_with_err. msg_in.
Qed.

Lemma main_spawn_msgs pl ls ss w :
  is_Some (w_fds w !! (pl_pa pl).1) -> is_Some (w_fds w !! (pl_pa pl).2) ->
  is_Some (w_fds w !! (pl_pb pl).1) -> is_Some (w_fds w !! (pl_pb pl).2) ->
  4 < w_nofile w ->
  args_holds (w_heap w) (pl_args pl) ls ss ->
  wp (main_spawn E pl) w (fun _ _ => True)
    (exits_with ["fork"; "pipe"; "realloc"; "malloc"; "exec"]).
Proof.
  intros Ha1 Ha2 Hb1 Hb2 Hlim Hh. unfold main_spawn.
  assert (Hfork : forall w', exits_with ["fork"; "pipe"; "realloc"; "malloc"; "exec"]
                               (Exit 1 (log (EvErr "fork") w'))).
  { intros w'. apply exits_with_err. msg_in. }
  assert (Hprod : forall h, exits_with ["pipe"; "exec"] h ->
                            exits_with ["fork"; "pipe"; "realloc"; "malloc"; "exec"] h).
  { intros h. apply exits_with_mono. msgs_sub. }
  apply wp_bind, wp_fork; [|intros w1 _; apply wp_bind, wp_err, Hfork].
  intros ca w1 Hca (Hf1 & _ & Hn1 & Hh1 & _).
  apply wp_bind. rewrite (proj2 (Z.eqb_neq ca (-1))) by lia.
  destruct (Z.eqb_spec ca 0) as [_|_].
  { eapply wp_mono; [apply producer_msgs| |exact Hprod];
      [by rewrite Hf1|lia|done]. }
  apply wp_ret.
  apply wp_bind, wp_fork; [|intros w2 _; apply wp_bind, wp_err, Hfork].
  intros cb w2 Hcb (Hf2 & _ & Hn2 & Hh2 & _).
  apply wp_bind. rewrite (proj2 (Z.eqb_neq cb (-1))) by lia.
  destruct (Z.eqb_spec cb 0) as [_|_].
  { eapply wp_mono; [apply producer_msgs| |exact Hprod];
      [by rewrite Hf2, Hf1|lia|done]. }
  apply wp_ret.
  apply wp_bind, wp_fork; [|intros w3 _; apply wp_bind, wp_err, Hfork].
  intros cdiff w3 Hcd (Hf3 & _ & Hn3 & Hh3 & _).
  apply wp_bind. rewrite (proj2 (Z.eqb_neq cdiff (-1))) by lia.
  destruct (Z.eqb_spec cdiff 0) as [_|_].
  { eapply wp_mono; [apply (diff_child_msgs _ ls ss)| |];
      [by rewrite Hf3, Hf2, Hf1|by rewrite Hf3, Hf2, Hf1|lia|
       by rewrite Hh3, Hh2, Hh1|done|].
    intros h. apply exits_with_mono. msgs_sub. }
  apply wp_ret. unfold wp, close, waitpid. by mrun.
Qed.

Lemma xdup_ge_msgs fd ge w (Q : nat -> world -> Prop) :
  (forall n w', Q n w') ->
  wp (xdup_ge E fd ge) w Q (exits_with ["fcntl F_DUPFD"]).
Proof.
  intros HQ. unfold xdup_ge. apply wp_bind.
  unfold wp at 1. destruct (fcntl_dupfd_cloexec E fd ge w) as [[n|] w1|h] eqn:Hrun.
  - by apply wp_ret.
  - apply wp_err, exits_with_err. msg_in.
  - revert Hrun. unfold fcntl_dupfd_cloexec, request. mrun.
    destruct (w_fds w !! fd); [destruct (first_free _ _ _); [destruct (e_grant _ _)|]|];
      by mrun.
Qed.

Lemma main_pipes_msgs w :
  wp (main_pipes E) w (fun _ _ => True) (exits_with ["pipe2"; "fcntl F_DUPFD"]).
Proof.
  assert (Hsub : forall h, exits_with ["fcntl F_DUPFD"] h ->
                           exits_with ["pipe2"; "fcntl F_DUPFD"] h).
  { intros h. apply exits_with_mono. msgs_sub. }
  assert (Hpipe : forall w', exits_with ["pipe2"; "fcntl F_DUPFD"]
                               (Exit 1 (log (EvErr "pipe2") w'))).
  { intros w'. apply exits_with_err. msg_in. }
  unfold main_pipes.
  apply wp_bind, wp_pipe; [|intros w1 _; apply wp_err, Hpipe].
  intros r wr w1 _ _ _ _ _ _ _.
  apply wp_bind. eapply wp_mono; [apply xdup_ge_msgs| |exact Hsub].
  2:{ intros pa0 w2 H2. exact H2. }
  intros pa0 w2.
  apply wp_bind. eapply wp_mono; [apply xdup_ge_msgs| |exact Hsub].
  2:{ intros pa1 w3 H3. exact H3. }
  intros pa1 w3.
  apply wp_bind, wp_close. intros w4 _. apply wp_bind, wp_close. intros w5 _.
  apply wp_bind, wp_pipe; [|intros w6 _; apply wp_err, Hpipe].
  intros r' wr' w6 _ _ _ _ _ _ _.
  apply wp_bind. eapply wp_mono; [apply xdup_ge_msgs| |exact Hsub].
  2:{ intros pb0 w7 H7. exact H7. }
  intros pb0 w7.
  apply wp_bind. eapply wp_mono; [apply xdup_ge_msgs| |exact Hsub].
  2:{ intros pb1 w8 H8. exact H8. }
  intros pb1 w8.
  apply wp_bind, wp_close. intros w9 _. apply wp_bind, wp_close. intros w10 _.
  by apply wp_ret.
Qed.

Lemma main_args_msgs main_argv w :
  3 <= length main_argv ->
  wp (main_args E main_argv) w (fun _ _ => True)
    (exits_with ["calloc"; "realloc"; "malloc"]).
Proof.
  intros Hlen. unfold wp. rewrite main_args_run by done.
  fold (wp (a ← args_run E 2 (DIFF_CMD :: diff_flags main_argv);
            mret (a,
                  arg main_argv (Z.of_nat (length main_argv) - 2),
                  arg main_argv (Z.of_nat (length main_argv) - 1),
                  default DEFAULT_SHELL (secure_getenv E "SHELL"))) w
          (fun _ _ => True) (exits_with ["calloc"; "realloc"; "malloc"])).
  apply wp_bind. apply wp_args_run_growth; [by intros|intros w' msg _ Hmsg _ _|lia].
  apply exits_with_err. destruct Hmsg as [->|[->| ->]]; msg_in.
Qed.

Lemma main_setup_msgs main_argv w :
  3 <= length main_argv ->
  wp (main_setup E main_argv) w (fun _ _ => True)
    (exits_with ["calloc"; "realloc"; "malloc"; "pipe2"; "fcntl F_DUPFD"]).
Proof.
  intros Hlen. unfold main_setup.
  apply wp_bind. eapply wp_mono; [by apply main_args_msgs| |].
  2:{ intros h. apply exits_with_mono. msgs_sub. }
  intros [[[a cmda] cmdb] shell] w0 _.
  apply wp_bind. eapply wp_mono; [apply main_pipes_msgs| |].
  2:{ intros h. apply exits_with_mono. msgs_sub. }
  intros [pa pb] w1 _. by apply wp_ret.
Qed.

End Diagnostics.

(** X13.  The diagnostics of [main].  A run of [main] that exits does so
    with code 2, on a command line without its two commands, or with code
    1 after the diagnostic of calloc, realloc, malloc, pipe2, fcntl
    F_DUPFD, fork, pipe or exec.  The diagnostics of dup2 and of fcntl
    F_GETFD and F_SETFD are never what a run of [main] ends with: the
    checks they belong to, in [producer], [closed_reader] and
    [clear_cloexec], cannot fire there. *)
Theorem main_exit_diagnostics (E : env) (main_argv : list string) (w : world)
    (code : Z) (w' : world) :
  main E main_argv w = Halt (Exit code w') ->
  (code = 2%Z ∧ length main_argv < 3) ∨
  (code = 1%Z ∧
   exists msg, msg ∈ main_diagnostics ∧ last (w_trace w') = Some (EvErr msg)).
Proof.
  intros Hrun. destruct (decide (length main_argv < 3)) as [Hlt|Hge].
  { rewrite (main_usage_run E main_argv w Hlt) in Hrun.
    destruct (e_grant E (w_tick w)); [destruct (e_grant E (S (w_tick w)))|];
      injection Hrun as <- <-; [left; by split|right..]; (split; [done|]).
    - exists "malloc". split; [unfold main_diagnostics; msg_in|apply last_snoc].
    - exists "calloc". split; [unfold main_diagnostics; msg_in|apply last_snoc]. }
  assert (Hlen : 3 <= length main_argv) by lia.
  right. change (exits_with main_diagnostics (Exit code w')).
  from_halt Hrun. unfold main. apply wp_bind.
  pose proof (wp_and (main_setup E main_argv) w _ _ _ _
    (wp_main_setup E main_argv w
       (fun pl w1 =>
          exists ls ss w0 A B p,
            forking w0 w1 (pl_pa pl) (pl_pb pl) A B p ∧
            args_holds (w_heap w1) (pl_args pl) ls ss)
       (fun _ => True)
       ltac:(intros a ls pa pb A B p w0 w1 _ _ Hfk Hh;
             by exists ls, (DIFF_CMD :: diff_flags main_argv), w0, A, B, p)
       ltac:(done) ltac:(done))
    (main_setup_msgs E main_argv w Hlen)) as Hwp.
  eapply wp_mono; [exact Hwp| |].
  2:{ intros h [_ Hh]. revert Hh. apply exits_with_mono.
      unfold main_diagnostics. msgs_sub. }
  intros pl w1 [(ls & ss & w0 & A & B & p & Hfk & Hh) _].
  eapply wp_mono; [apply (main_spawn_msgs E pl ls ss)|done|].
  - apply (forking_open _ _ _ _ _ _ _ _ Hfk). msg_in.
  - apply (forking_open _ _ _ _ _ _ _ _ Hfk). msg_in.
  - apply (forking_open _ _ _ _ _ _ _ _ Hfk). msg_in.
  - apply (forking_open _ _ _ _ _ _ _ _ Hfk). msg_in.
  - pose proof (fk_above _ _ _ _ _ _ _ Hfk) as ((Hlo & Hhi) & _).
    pose proof (fk_state _ _ _ _ _ _ _ Hfk) as (_ & _ & Hn & _).
    unfold DIFF_MAXFD in Hlo. lia.
  - done.
  - intros h. apply exits_with_mono. unfold main_diagnostics. msgs_sub.
Qed.

Lemma main_exit_diagnostics_witness :
  exists w',
    main env_no_memory demo_argv shell_world = Halt (Exit 1 w') ∧
    exists msg, msg ∈ main_diagnostics ∧ last (w_trace w') = Some (EvErr msg).
Proof.
  assert (Hrun : exists w', main env_no_memory demo_argv shell_world = Halt (Exit 1 w'))
    by (eexists; vm_compute; reflexivity).
  destruct Hrun as (w' & Hrun). exists w'. split; [exact Hrun|].
  destruct (main_exit_diagnostics env_no_memory demo_argv shell_world 1 w' Hrun)
    as [[Hc _]|[_ Hmsg]]; [discriminate Hc|exact Hmsg].
Defined.
